(** * A shallow embedding of the ldapjs client core

    The development follows the layout of the JavaScript sources:

    - [JS]: the fragment of JavaScript values the client inspects
      (truthiness, [typeof], property reads, [Object.entries], [toString]);
    - [Requests]: [ensureDN], the [modify] change itemizer and the request
      objects built by [add], [compare], [del] and [modify]
      (lib/client/client.js);
    - [SearchResult]: the corked emitter, the injectable async iterator,
      [entries] and [toArray] (lib/client/search-result);
    - [PagedResult]: the end-of-page handler of a paged search;
    - [Tracker] and [Queue]: the message tracker and the request queue;
    - [Client]: the connection controller and the request dispatcher
      ([_dispatchRequest], [_sendRequest], [_onClose], [destroy], [unbind],
      [starttls]).

    Exceptions are explicit: every operation that can throw returns a
    [result] (pure code) or an [Outcome] (stateful code). *)

From Stdlib Require Import List String Ascii ZArith Bool Lia PeanoNat.
From Stdlib Require Import DecimalString.
Import ListNotations.
Open Scope string_scope.
Open Scope list_scope.
Set Warnings "-register-all".

(** ** Errors and results *)

(** The error classes the client raises or hands to callbacks. *)
Inductive error_kind : Type :=
| KError                (* plain [Error] *)
| KTypeError
| KConnectionError
| KTimeoutError
| KProtocolError
| KAssertionError       (* assert-plus *)
| KPagedResultsError    (* [Error] renamed 'PagedResultsError' *)
| KLdapResult (code : Z) (* errors.getError(msg) *).

Record error : Type := Err { kind : error_kind; message : string }.

Inductive result (A : Type) : Type :=
| Ok (a : A)
| Throw (e : error).
Arguments Ok {A} a.
Arguments Throw {A} e.

Definition rbind {A B} (r : result A) (k : A -> result B) : result B :=
  match r with
  | Ok a => k a
  | Throw e => Throw e
  end.

Notation "x <-- r ;;; k" := (rbind r (fun x => k))
  (at level 61, r at next level, right associativity).

Fixpoint rmap_list {A B} (f : A -> result B) (l : list A) : result (list B) :=
  match l with
  | [] => Ok []
  | x :: rest =>
      y <-- f x ;;;
      ys <-- rmap_list f rest ;;;
      Ok (y :: ys)
  end.

(** ** JavaScript values *)

Module JS.

(** [VNum n] is a Number with the integer value [n], for the integers a
    Number holds exactly and JavaScript prints as their decimal digits
    (magnitude up to 2^53; array indices, lengths and result codes are far
    inside it).  Fractions, [NaN] and the infinities are not among the
    values the code modelled here is run on. *)
Inductive value : Type :=
| VUndefined
| VNull
| VBool (b : bool)
| VNum (n : Z)
| VStr (s : string)
| VArr (items : list value)
| VObj (fields : list (string * value)).

(** [ToBoolean]. *)
Definition truthy (v : value) : bool :=
  match v with
  | VUndefined | VNull => false
  | VBool b => b
  | VNum n => negb (n =? 0)%Z
  | VStr s => negb (s =? "")
  | VArr _ | VObj _ => true
  end.

(** [a || b]. *)
Definition or_else (a b : value) : value := if truthy a then a else b.

Definition typeof (v : value) : string :=
  match v with
  | VUndefined => "undefined"
  | VNull | VArr _ | VObj _ => "object"
  | VBool _ => "boolean"
  | VNum _ => "number"
  | VStr _ => "string"
  end.

Definition isArray (v : value) : bool :=
  match v with VArr _ => true | _ => false end.

(** [String(n)] for an integer Number in the range of [VNum]: its decimal
    digits, with a minus sign when it is negative. *)
Definition num_to_string (n : Z) : string := NilZero.string_of_int (Z.to_int n).

(** The TypeError of a property read on [undefined] or [null]. *)
Definition cannot_read (of_null : bool) (k : string) : error :=
  Err KTypeError
    ("Cannot read properties of " ++ (if of_null then "null" else "undefined")
       ++ " (reading '" ++ k ++ "')")%string.

(** [String(v)]: arrays join their elements with a comma, [null] and
    [undefined] elements print as the empty string. *)
Fixpoint toString (v : value) : string :=
  match v with
  | VUndefined => "undefined"
  | VNull => "null"
  | VBool true => "true"
  | VBool false => "false"
  | VNum n => num_to_string n
  | VStr s => s
  | VArr items =>
      (fix join (l : list value) : string :=
         match l with
         | [] => ""
         | x :: rest =>
             let here := match x with
                         | VUndefined | VNull => ""
                         | _ => toString x
                         end in
             match rest with
             | [] => here
             | _ :: _ => (here ++ "," ++ join rest)%string
             end
         end) items
  | VObj _ => "[object Object]"
  end.

(** [v.toString()]: a method call, so it throws on [null] and [undefined]. *)
Definition toString_method (v : value) : result string :=
  match v with
  | VUndefined => Throw (cannot_read false "toString")
  | VNull => Throw (cannot_read true "toString")
  | _ => Ok (toString v)
  end.

Fixpoint assoc (k : string) (fields : list (string * value)) : value :=
  match fields with
  | [] => VUndefined
  | (k', v) :: rest => if k =? k' then v else assoc k rest
  end.

(** Own enumerable string-keyed properties, in property order.  The field
    list of a [VObj] is kept in that order and holds each key once. *)
Fixpoint indexed (i : nat) (l : list value) : list (string * value) :=
  match l with
  | [] => []
  | x :: rest => (num_to_string (Z.of_nat i), x) :: indexed (S i) rest
  end.

Fixpoint chars (s : string) : list value :=
  match s with
  | EmptyString => []
  | String a rest => VStr (String a EmptyString) :: chars rest
  end.

Definition entries (v : value) : result (list (string * value)) :=
  match v with
  | VUndefined | VNull =>
      Throw (Err KTypeError "Cannot convert undefined or null to object")
  | VObj fields => Ok fields
  | VArr items => Ok (indexed 0 items)
  | VStr s => Ok (indexed 0 (chars s))
  | VBool _ | VNum _ => Ok []
  end.

Definition keys (v : value) : result (list string) :=
  es <-- entries v ;;; Ok (map fst es).

(** [o.k]: reading a property of [null] or [undefined] throws. *)
Definition get (o : value) (k : string) : result value :=
  match o with
  | VUndefined => Throw (cannot_read false k)
  | VNull => Throw (cannot_read true k)
  | VObj fields => Ok (assoc k fields)
  | VArr items =>
      if k =? "length" then Ok (VNum (Z.of_nat (List.length items)))
      else Ok (assoc k (indexed 0 items))
  | VStr s =>
      if k =? "length" then Ok (VNum (Z.of_nat (String.length s)))
      else Ok (assoc k (indexed 0 (chars s)))
  | VBool _ | VNum _ => Ok VUndefined
  end.

End JS.

(** ** Requests: [ensureDN], the change itemizer, request construction *)

(** A control attached to a request or a response.  Only the paged-results
    control carries a value the client reads ([size], [cookie]). *)
Record Control : Type := {
  ctype : string;            (* the control's OID *)
  csize : Z;
  ccookie : option string    (* [None] is the [null] cookie of a first request *)
}.

Module Requests.
Import JS.

(** A parsed distinguished name: an instance of [dn.DN]. *)
Record DN : Type := { rdns : list string }.

(** What a caller may pass as a DN argument: a [DN] instance or any other
    value. [dn.DN.isDN] holds of the first form only. *)
Inductive dn_input : Type :=
| InDN (d : DN)
| InValue (v : value).

(** What [ensureDN] hands back. [DnModule] is the [dn] module object itself
    (the value of [require('../dn')]), as opposed to a [DN] instance. *)
Inductive dn_ref : Type :=
| DnModule
| DnObject (d : DN)
| DnString (s : string).

Definition isDN (input : dn_input) : bool :=
  match input with InDN _ => true | InValue _ => false end.

Section EnsureDN.

(** [dn.parse], from lib/dn.js. *)
Variable dn_parse : dn_input -> result DN.

Definition ensureDN (input : dn_input) (strict : bool) : result dn_ref :=
  if isDN input then Ok DnModule
  else if strict then d <-- dn_parse input ;;; Ok (DnObject d)
  else match input with
       | InValue (VStr s) => Ok (DnString s)
       | _ => Throw (Err KError "invalid DN")
       end.

End EnsureDN.

(** *** Changes *)

(** The options object a [Change] is constructed from. *)
Record Change : Type := { operation : value; modification : value }.

Fixpoint map_index {A B} (f : A -> nat -> B) (i : nat) (l : list A) : list B :=
  match l with
  | [] => []
  | x :: rest => f x i :: map_index f (S i) rest
  end.

(** An element of [Object.entries(o)]: the array [[key, value]]. *)
Definition entry_pair (e : string * value) : value := VArr [VStr (fst e); snd e].

(** [changesFromObject], local to [modify].  The callback of [map] binds
    its first parameter [k] to the array element (a [[key, value]] pair) and
    its second parameter [val] to the element's index; [{ [k]: val }] turns
    [k] into a property key with [String(k)]. *)
Definition changesFromObject (c : value) : result (list Change) :=
  op <-- get c "operation" ;;;
  ty <-- get c "type" ;;;
  if negb (truthy op) && negb (truthy ty)
  then Throw (Err KError "change.operation required")
  else
    m <-- get c "modification" ;;;
    if negb (typeof m =? "object")
    then Throw (Err KError "change.modification (object) required")
    else
      ks <-- keys m ;;;
      mtype <-- get m "type" ;;;
      mvals <-- get m "vals" ;;;
      if (List.length ks =? 2)%nat && (typeof mtype =? "string") && isArray mvals
      then Ok [ {| operation := ty; modification := m |} ]
      else
        es <-- entries m ;;;
        Ok (map_index
              (fun k val =>
                 {| operation := or_else op ty;
                    modification := VObj [(toString k, VNum (Z.of_nat val))] |})
              0 (map entry_pair es)).

(** The per-attribute itemization the documentation of [modify] describes:
    one Change per attribute, pairing the attribute's name with its values. *)
Definition itemize_by_attribute (op : value) (attrs : list (string * value)) : list Change :=
  map (fun kv => {| operation := op; modification := VObj [(fst kv, snd kv)] |}) attrs.

(** The [change] argument of [modify]: a Change instance or another value,
    alone or in an array. [Change.isChange] holds of [ItemChange] only. *)
Inductive change_item : Type :=
| ItemChange (ch : Change)
| ItemPlain (v : value).

Inductive change_arg : Type :=
| OneChange (i : change_item)
| ManyChanges (l : list change_item).

Definition itemizeChanges (change : change_arg) : result (list Change) :=
  match change with
  | OneChange (ItemChange ch) => Ok [ch]
  | ManyChanges l =>
      css <-- rmap_list (fun c => match c with
                                  | ItemChange ch => Ok [ch]
                                  | ItemPlain v => changesFromObject v
                                  end) l ;;;
      Ok (List.concat css)
  | OneChange (ItemPlain v) => changesFromObject v
  end.

(** *** Attributes of an [add] *)

Record Attribute : Type := { atype : string; avals : list string }.

Inductive attr_item : Type :=
| IsAttribute (a : Attribute)
| NotAttribute (v : value).

Inductive entry_arg : Type :=
| EntryArray (l : list attr_item)
| EntryObject (fields : list (string * value)).

Definition attribute_of_field (kv : string * value) : result Attribute :=
  match snd kv with
  | VArr items =>
      vs <-- rmap_list toString_method items ;;;
      Ok {| atype := fst kv; avals := vs |}
  | v =>
      s <-- toString_method v ;;;
      Ok {| atype := fst kv; avals := [s] |}
  end.

Definition entry_attributes (entry : entry_arg) : result (list Attribute) :=
  match entry with
  | EntryArray l =>
      rmap_list (fun a => match a with
                          | IsAttribute a => Ok a
                          | NotAttribute _ =>
                              Throw (Err KTypeError "entry must be an Array of Attributes")
                          end) l
  | EntryObject fields => rmap_list attribute_of_field fields
  end.

(** *** Request messages *)

(** Modelled from the spec: the request messages (lib/messages is not
    among the sources; section 4.7, step 3, leaves building the typed
    message to the codec).  A request is the record of the options the
    client calls its constructor with; whatever the constructor checks or
    does with them is outside the sources and is not modelled. *)
Inductive Request : Type :=
| AbandonRequest (abandonID : Z) (controls : list Control)
| AddRequest (entry : dn_ref) (attributes : list Attribute) (controls : list Control)
| CompareRequest (entry : dn_ref) (attribute value : string) (controls : list Control)
| DeleteRequest (entry : dn_ref) (controls : list Control)
| ExtendedRequest (requestName : string) (requestValue : option string)
    (controls : list Control)
| ModifyRequest (object : dn_ref) (changes : list Change) (controls : list Control)
| SearchRequest (baseObject : dn_ref) (controls : list Control)
| UnbindRequest.

(** [assert.ok(name !== undefined, 'name')]. *)
Definition assert_defined (name : dn_input) (what : string) : result unit :=
  match name with
  | InValue VUndefined => Throw (Err KAssertionError what)
  | _ => Ok tt
  end.

(** Modelled from the spec: [new AddRequest(options)] and the constructors
    of the other requests (lib/messages is not among the sources): the
    request built is the record of the options. *)
Definition new_request (options : Request) : result Request := Ok options.

Section Build.

Variable dn_parse : dn_input -> result DN.

(** The request each operation builds before it dispatches it: the
    constructor call [new AddRequest({ entry: ensureDN(name, strictDN),
    attributes: entry, controls })] and its like, after the assertions and
    normalisations that precede it in the operation.  [controls] is the
    list the caller's controls were normalised to. *)
Definition add_request (strictDN : bool) (name : dn_input) (entry : entry_arg)
    (controls : list Control) : result Request :=
  _ <-- assert_defined name "name" ;;;
  attrs <-- entry_attributes entry ;;;
  e <-- ensureDN dn_parse name strictDN ;;;
  new_request (AddRequest e attrs controls).

Definition compare_request (strictDN : bool) (name : dn_input) (attr value : string)
    (controls : list Control) : result Request :=
  _ <-- assert_defined name "name" ;;;
  e <-- ensureDN dn_parse name strictDN ;;;
  new_request (CompareRequest e attr value controls).

Definition del_request (strictDN : bool) (name : dn_input)
    (controls : list Control) : result Request :=
  _ <-- assert_defined name "name" ;;;
  e <-- ensureDN dn_parse name strictDN ;;;
  new_request (DeleteRequest e controls).

Definition modify_request (strictDN : bool) (name : dn_input) (change : change_arg)
    (controls : list Control) : result Request :=
  _ <-- assert_defined name "name" ;;;
  changes <-- itemizeChanges change ;;;
  e <-- ensureDN dn_parse name strictDN ;;;
  new_request (ModifyRequest e changes controls).

End Build.

End Requests.

(** ** Messages *)

(** [msg.status]: an LDAP result code, or the string 'unbind' the close
    handler writes into its synthetic UnbindResponse. *)
Inductive Status : Type :=
| StatusCode (code : Z)
| StatusUnbind.

Record LDAPResult : Type := {
  rtype : string;              (* constructor name: 'LDAPResult', 'UnbindResponse', ... *)
  rmessageID : Z;
  rstatus : Status;
  rcontrols : list Control
}.

(** What the parser (or the client itself) hands to a request's handler. *)
Inductive Message : Type :=
| SearchEntry (fields : list (string * JS.value))      (* its own properties *)
| SearchReference (fields : list (string * JS.value))
| ErrorMessage (e : error)        (* [msg instanceof Error] *)
| ResultMessage (r : LDAPResult)  (* [msg instanceof LDAPResult] *)
| OtherMessage (type : string).

(** ** The search result stream *)

Module SearchResult.
Import JS.

(** The second argument of a [page] event. *)
Inductive resume : Type :=
| NoResume           (* [options.pagePause], falsy *)
| ResumeNoop         (* [function () { }] *)
| ResumeNextPage (msg : LDAPResult).

Inductive arg : Type :=
| AMessage (m : Message)
| AError (e : error)
| ARequest (r : Requests.Request)
| AResume (r : resume).

Record event : Type := { ename : string; eargs : list arg }.

(** Listeners are closures; the ones the library itself attaches are named
    by what they close over, a caller's listeners by an identifier. *)
Inductive listener : Type :=
| UserListener (id : nat)
| InjectError (it : nat)    (* [inject.bind(it)] *)
| InjectEnd (it : nat)      (* [inject.bind(it, true)] *)
| InjectEntry (it : nat)    (* [inject.bind(it, null)] *)
| PageOnce (it : nat).      (* the [once('page')] listener of [entries] *)

Record registration : Type := {
  rname : string;
  rlistener : listener;
  ronce : bool
}.

(** The state of a CorkedEmitter (and of the SearchResult that inherits
    from it), with the pending [setImmediate] callback and the deliveries
    made so far. *)
Record t : Type := {
  eventQueue : option (list event);   (* [None] is [false]: uncorked *)
  registrations : list registration;  (* listeners, in order of attachment *)
  hook : bool;        (* the constructor's [once('newListener')] is installed *)
  scheduled : bool;   (* [emitOneEvent] is queued with [setImmediate] *)
  delivered : list (event * list listener);
                      (* calls of [EventEmitter.prototype.emit], oldest first *)
  iterators : nat     (* how many iterators [entries] has created *)
}.

Inductive Outcome : Type :=
| Done (s : t)
| Thrown (e : error) (s : t).

Definition state_of (o : Outcome) : t :=
  match o with Done s => s | Thrown _ s => s end.

Definition andThen (o : Outcome) (k : t -> Outcome) : Outcome :=
  match o with
  | Done s => k s
  | Thrown e s => Thrown e s
  end.

(** [new CorkedEmitter()] / [new SearchResult()]. *)
Definition create : t :=
  {| eventQueue := Some []; registrations := []; hook := true;
     scheduled := false; delivered := []; iterators := 0 |}.

Definition set_queue (q : option (list event)) (s : t) : t :=
  {| eventQueue := q; registrations := registrations s; hook := hook s;
     scheduled := scheduled s; delivered := delivered s; iterators := iterators s |}.

Definition set_registrations (r : list registration) (s : t) : t :=
  {| eventQueue := eventQueue s; registrations := r; hook := hook s;
     scheduled := scheduled s; delivered := delivered s; iterators := iterators s |}.

Definition set_hook (b : bool) (s : t) : t :=
  {| eventQueue := eventQueue s; registrations := registrations s; hook := b;
     scheduled := scheduled s; delivered := delivered s; iterators := iterators s |}.

Definition set_scheduled (b : bool) (s : t) : t :=
  {| eventQueue := eventQueue s; registrations := registrations s; hook := hook s;
     scheduled := b; delivered := delivered s; iterators := iterators s |}.

Definition set_delivered (d : list (event * list listener)) (s : t) : t :=
  {| eventQueue := eventQueue s; registrations := registrations s; hook := hook s;
     scheduled := scheduled s; delivered := d; iterators := iterators s |}.

Definition set_iterators (i : nat) (s : t) : t :=
  {| eventQueue := eventQueue s; registrations := registrations s; hook := hook s;
     scheduled := scheduled s; delivered := delivered s; iterators := i |}.

Definition listening (name : string) (s : t) : list registration :=
  filter (fun r => rname r =? name) (registrations s).

(** [emitter.listeners(name)]. *)
Definition listeners (name : string) (s : t) : list listener :=
  map rlistener (listening name s).

(** [removeAllListeners(name)]. *)
Definition removeAllListeners (name : string) (s : t) : t :=
  set_registrations (filter (fun r => negb (rname r =? name)) (registrations s)) s.

(** What a listener does to the emitter itself when it is called.  A
    caller's listener is taken to return normally and to leave the emitter
    alone; the [inject] listeners only touch their iterator (see
    [eventStream] below); the page listener of [entries] detaches the
    iterator's listeners. *)
Definition react (l : listener) (s : t) : t :=
  match l with
  | PageOnce _ =>
      removeAllListeners "searchReference"
        (removeAllListeners "searchEntry"
           (removeAllListeners "end"
              (removeAllListeners "error" s)))
  | _ => s
  end.

Definition first_error (args : list arg) : error :=
  match args with
  | AError e :: _ => e
  | _ => Err KError "Unhandled error."
  end.

(** [EventEmitter.prototype.emit]: an [error] event nobody listens to is
    thrown; otherwise the listeners registered for the event are called in
    order, a [once] listener being removed before it is called. *)
Definition ee_emit (ev : event) (s : t) : Outcome :=
  let regs := listening (ename ev) s in
  let s1 := set_delivered (delivered s ++ [(ev, map rlistener regs)]) s in
  match regs with
  | [] => if ename ev =? "error" then Thrown (first_error (eargs ev)) s1 else Done s1
  | _ :: _ =>
      let s2 := set_registrations
                  (filter (fun r => negb ((rname r =? ename ev) && ronce r))
                     (registrations s1)) s1 in
      Done (fold_left (fun acc r => react (rlistener r) acc) regs s2)
  end.

(** [CorkedEmitter.prototype.emit]. *)
Definition emit (ev : event) (s : t) : Outcome :=
  match eventQueue s with
  | Some q =>
      if negb (ename ev =? "newListener")
      then Done (set_queue (Some (q ++ [ev])) s)
      else ee_emit ev s
  | None => ee_emit ev s
  end.

(** [on] / [once]: attaching a listener emits [newListener] first when that
    event has listeners; the only one modelled is the constructor's hook,
    which runs once and schedules [emitOneEvent]; [delivered] does not
    record the [newListener] events of this bookkeeping. *)
Definition attach (name : string) (l : listener) (once : bool) (s : t) : t :=
  let s1 := if hook s then set_scheduled true (set_hook false s) else s in
  set_registrations
    (registrations s1 ++ [{| rname := name; rlistener := l; ronce := once |}]) s1.

Definition on (name : string) (l : listener) (s : t) : t := attach name l false s.
Definition once (name : string) (l : listener) (s : t) : t := attach name l true s.

(** One turn of the event loop: the scheduled [emitOneEvent], if any.
    [self.eventQueue.shift()()] calls what [shift] returns; on an empty
    queue that is [undefined]. *)
Definition emitOneEvent (s : t) : Outcome :=
  match eventQueue s with
  | Some (ev :: rest) =>
      andThen (ee_emit ev (set_queue (Some rest) s)) (fun s1 =>
        match eventQueue s1 with
        | Some (_ :: _) => Done (set_scheduled true s1)
        | _ => Done (set_queue None s1)
        end)
  | Some [] => Thrown (Err KTypeError "self.eventQueue.shift(...) is not a function") s
  | None => Thrown (Err KTypeError "self.eventQueue.shift is not a function") s
  end.

Definition tick (s : t) : Outcome :=
  if scheduled s then emitOneEvent (set_scheduled false s) else Done s.

(** [n] turns of the event loop, with nothing else happening in between. *)
Fixpoint ticks (n : nat) (s : t) : Outcome :=
  match n with
  | O => Done s
  | S m => andThen (tick s) (ticks m)
  end.

(** The stream throws an [error] event it is asked to emit now: it is
    uncorked and nobody listens for [error]. *)
Definition deaf (s : t) : bool :=
  match eventQueue s, listening "error" s with
  | None, [] => true
  | _, _ => false
  end.

(** Every event the stream was asked to emit, delivered or still buffered,
    oldest first. *)
Definition emitted (s : t) : list event :=
  map fst (delivered s) ++ match eventQueue s with Some q => q | None => [] end.

(** *** The injectable async iterator *)

(** A [Deferred]: a promise with its [resolve] and [reject] exposed. *)
Inductive reason : Type :=
| ReasonError (e : error)   (* an exception raised by the runtime *)
| ReasonArg (a : arg)       (* the argument of an [error] event *)
| ReasonTrue.               (* the literal [true] *)

Inductive deferred : Type :=
| Pending
| Resolved (v : value)
| Rejected (r : reason).

(** The first parameter of [inject]. *)
Inductive inject_err : Type :=
| ErrNone                   (* [null] or [undefined] *)
| ErrTrue
| ErrObject (a : arg).

(** [val.value]. *)
Definition value_of (a : arg) : value :=
  match a with
  | AMessage (SearchEntry fields) => assoc "value" fields
  | AMessage (SearchReference fields) => assoc "value" fields
  | _ => VUndefined
  end.

(** Settling a promise that is already settled does nothing. *)
Definition settle (d : deferred) (new : deferred) : deferred :=
  match d with Pending => new | _ => d end.

Fixpoint settle_last (new : deferred) (stream : list deferred) : list deferred :=
  match stream with
  | [] => []
  | [d] => [settle d new]
  | d :: rest => d :: settle_last new rest
  end.

(** [inject (err, val)]; every [val] the emitter passes is an object. *)
Definition inject (err : inject_err) (val : option arg) (eventStream : list deferred)
  : result (list deferred) :=
  match val, err with
  | Some a, _ =>
      match eventStream with
      | [] => Throw (Err KTypeError "Cannot read properties of undefined (reading 'resolve')")
      | _ :: _ =>
          let resolved := settle_last (Resolved (value_of a)) eventStream in
          match err with
          | ErrNone => Ok (resolved ++ [Pending])
          | _ => Ok resolved
          end
      end
  | None, ErrNone => Ok eventStream
  | None, _ =>
      match eventStream with
      | [] => Throw (Err KTypeError "Cannot read properties of undefined (reading 'reject')")
      | _ :: _ =>
          Ok (settle_last
                (Rejected (match err with ErrObject a => ReasonArg a | _ => ReasonTrue end))
                eventStream)
      end
  end.

(** The call of [inject] a bound listener makes when [ev] is delivered to
    it, and the iterator it belongs to. *)
Definition inject_call (l : listener) (ev : event)
  : option (nat * inject_err * option arg) :=
  match l with
  | UserListener _ => None
  | InjectError it =>
      Some (it, match eargs ev with a :: _ => ErrObject a | [] => ErrNone end,
            nth_error (eargs ev) 1)
  | InjectEnd it => Some (it, ErrTrue, nth_error (eargs ev) 0)
  | InjectEntry it => Some (it, ErrNone, nth_error (eargs ev) 0)
  | PageOnce it => Some (it, ErrTrue, nth_error (eargs ev) 0)
  end.

Definition inject_delivery (it : nat) (ev : event) (stream : list deferred)
    (l : listener) : list deferred :=
  match inject_call l ev with
  | Some (it', err, val) =>
      if (it' =? it)%nat
      then match inject err val stream with
           | Ok stream' => stream'
           | Throw _ => stream     (* [inject] threw before touching the stream *)
           end
      else stream
  | None => stream
  end.

(** [eventStream] of iterator [it]: a fresh stream holds one pending
    promise, and each delivery to one of its listeners injects into it. *)
Definition eventStream (it : nat) (s : t) : list deferred :=
  fold_left (fun stream d => fold_left (inject_delivery it (fst d)) (snd d) stream)
    (delivered s) [Pending].

(** One resumption of the generator body with receiver [this]:
    [await this.eventStream[0]], [shift], then [yield] or [return]. *)
Inductive gen_step : Type :=
| Yield (v : value) (rest : list deferred)
| Return (v : value)
| Raise (r : reason)
| Suspend.

Definition generator_body (this : option (list deferred)) : gen_step :=
  match this with
  | None =>
      Raise (ReasonError
               (Err KTypeError "Cannot read properties of undefined (reading 'eventStream')"))
  | Some [] => Return VUndefined
  | Some (Pending :: _) => Suspend
  | Some (Rejected r :: _) => Raise r
  | Some (Resolved v :: rest) =>
      match rest with
      | [] => Return v
      | _ :: _ => Yield v rest
      end
  end.

(** [getInjectableAsyncIterator] calls the generator function as a plain
    function, [(async function * () { ... })()], in strict-mode code: its
    body runs with [this] undefined.  [inject] and [eventStream] are assigned
    as properties of the generator object the call returns, which the body
    never consults. *)
Definition generator_receiver (eventStream : list deferred) : option (list deferred) :=
  None.

(** *** [entries] and [toArray] *)

Record entries_options : Type := {
  includeSearchReferences : bool;
  pagePause : bool
}.

(** [entries (options)]; [None] is a call without the argument. *)
Definition entries (options : option entries_options) (s : t) : result nat * t :=
  let it := iterators s in
  let s1 := set_iterators (S it) s in
  let s2 := on "searchEntry" (InjectEntry it)
              (on "end" (InjectEnd it)
                 (on "error" (InjectError it) s1)) in
  match options with
  | None =>
      (Throw (Err KTypeError
                "Cannot read properties of undefined (reading 'includeSearchReferences')"),
       s2)
  | Some o =>
      let s3 := if includeSearchReferences o
                then on "searchReference" (InjectEntry it) s2 else s2 in
      let s4 := if pagePause o then once "page" (PageOnce it) s3 else s3 in
      (Ok it, s4)
  end.

(** The promise an async function returns. *)
Inductive promise : Type :=
| Fulfilled (entries : list value)
| RejectedWith (r : reason)
| Awaiting (entries : list value).   (* suspended on a pending promise *)

(** [for await (const e of iterator) entries.push(e)], run until the
    generator suspends or finishes. *)
Fixpoint for_await (fuel : nat) (this : option (list deferred)) (acc : list value)
  : promise :=
  match fuel with
  | O => Awaiting acc
  | S fuel' =>
      match generator_body this with
      | Yield v rest => for_await fuel' (Some rest) (acc ++ [v])
      | Return _ => Fulfilled acc
      | Raise r => RejectedWith r
      | Suspend => Awaiting acc
      end
  end.

Definition toArray (options : option entries_options) (s : t) : promise * t :=
  match entries options s with
  | (Throw e, s') => (RejectedWith (ReasonError e), s')
  | (Ok it, s') =>
      let stream := eventStream it s' in
      (for_await (S (List.length stream)) (generator_receiver stream) [], s')
  end.

End SearchResult.

(** ** The paged search driver (lib/client/search-result/paged-result.js) *)

Module PagedResult.
Import SearchResult.

(** [PagedResultsControl.OID]. *)
Definition PagedResultsOID : string := "1.2.840.113556.1.4.319".

(** What the end-of-page handler works on: the search result stream it
    relays to, the control object it shares with the request, and how often
    it has called [callback(self)] to issue the next paged request. *)
Record state : Type := {
  emitter : SearchResult.t;
  control : Control;
  requested : nat
}.

Inductive Outcome : Type :=
| Done (s : state)
| Thrown (e : error) (s : state).

Definition state_of (o : Outcome) : state :=
  match o with Done s => s | Thrown _ s => s end.

Definition andThen (o : Outcome) (k : state -> Outcome) : Outcome :=
  match o with
  | Done s => k s
  | Thrown e s => Thrown e s
  end.

Definition set_emitter (e : SearchResult.t) (s : state) : state :=
  {| emitter := e; control := control s; requested := requested s |}.

Definition set_cookie (cookie : string) (s : state) : state :=
  {| emitter := emitter s;
     control := {| ctype := ctype (control s); csize := csize (control s);
                   ccookie := Some cookie |};
     requested := requested s |}.

(** [callback(self)]: the search issues its next paged request. *)
Definition next_page (s : state) : state :=
  {| emitter := emitter s; control := control s; requested := S (requested s) |}.

(** [emitter.emit(name, ...args)]. *)
Definition emit_to (name : string) (args : list arg) (s : state) : Outcome :=
  match SearchResult.emit {| ename := name; eargs := args |} (emitter s) with
  | SearchResult.Done e => Done (set_emitter e s)
  | SearchResult.Thrown err e => Thrown err (set_emitter e s)
  end.

(** The relay listeners of the constructor,
    [emitter.emit.bind(emitter, name)], attached for [error],
    [searchEntry] and [searchReference]: what the client emits on the
    PageResult under these names goes to the stream unchanged. *)
Definition relay (name : string) (args : list arg) (s : state) : Outcome :=
  emit_to name args s.

Definition find_paged (msg : LDAPResult) : option Control :=
  find (fun c => ctype c =? PagedResultsOID) (rcontrols msg).

Definition not_supported : error :=
  Err KPagedResultsError "paged search not supported by server".

(** The listener of the PageResult's own [end] event. *)
Definition on_end (pagePause : bool) (msg : LDAPResult) (s : state) : Outcome :=
  match find_paged msg with
  | None =>
      andThen
        (emit_to "page"
           [AMessage (ResultMessage msg);
            AResume (if pagePause then ResumeNoop else NoResume)] s)
        (fun s1 =>
           if (0 <? List.length (listeners "pageError" (emitter s1)))%nat
           then andThen (emit_to "pageError" [AError not_supported] s1)
                        (emit_to "end" [AMessage (ResultMessage msg)])
           else emit_to "error" [AError not_supported] s1)
  | Some pageControl =>
      match ccookie pageControl with
      | None =>
          Thrown (Err KTypeError "Cannot read properties of null (reading 'length')") s
      | Some cookie =>
          if (String.length cookie =? 0)%nat
          then andThen
                 (emit_to "page"
                    [AMessage (ResultMessage msg);
                     AResume (if pagePause then ResumeNoop else NoResume)] s)
                 (emit_to "end" [AMessage (ResultMessage msg)])
          else
            let s1 := set_cookie cookie s in
            if pagePause
            then emit_to "page"
                   [AMessage (ResultMessage msg); AResume (ResumeNextPage msg)] s1
            else andThen (emit_to "page" [AMessage (ResultMessage msg)] s1)
                         (fun s2 => Done (next_page s2))
      end
  end.

(** Calling the second argument of a [page] event with [stop]. *)
Definition call_resume (r : resume) (stop : bool) (s : state) : Outcome :=
  match r with
  | NoResume => Thrown (Err KTypeError "resume is not a function") s
  | ResumeNoop => Done s
  | ResumeNextPage msg =>
      if stop then emit_to "end" [AMessage (ResultMessage msg)] s
      else Done (next_page s)
  end.

End PagedResult.

(** ** The client: tracked requests, the tracker and the queue *)

Module Client.
Import Requests.

Definition LDAP_SUCCESS : Z := 0.
Definition LDAP_COMPARE_FALSE : Z := 5.
Definition LDAP_COMPARE_TRUE : Z := 6.
Definition MAX_MSGID : Z := 2 ^ 31 - 1.

(** The [expect] argument of a dispatch: the acceptable result codes, or
    one of the strings 'abandon' and 'unbind'. *)
Inductive Expect : Type :=
| ExpectCodes (codes : list Z)
| ExpectAbandon
| ExpectUnbind.

(** Callbacks are closures: a caller's function, the callable promise of
    [getPromiseCallback], or the [onSent] closure of [starttls] around the
    caller's callback.  A [UserCallback] is a function handed in from
    outside the dispatcher and taken to return normally.  The [onSent]
    closures of [search], which can throw, are modelled apart
    ([Arguments.paged_onSent], [Arguments.plain_onSent]): a request
    dispatched with a stream emitter is a search. *)
Inductive Callback : Type :=
| UserCallback (id : nat)
| PromiseCallback (id : nat)
| StartTlsSent (callback : Callback).

(** The [emitter] argument of a dispatch: the emitter [starttls] builds
    around the caller's callback, or the emitter of a search, which is its
    search result stream or, for a paged search, the PageResult in front
    of that stream.  For the emitter of a search the trace records the
    calls of [emit]; a PageResult relays [error], [searchEntry] and
    [searchReference] to the stream as they are, and what it does with
    [end] is [PagedResult.on_end]. *)
Inductive Emitter : Type :=
| StreamEmitter (id : nat)
| StartTlsEmitter (callback : Callback).

(** What one call of [_sendRequest] closes over. *)
Record Scope : Type := {
  s_req : Request;
  s_expect : Expect;
  s_emitter : option Emitter;
  s_callback : Callback;
  s_timer : option nat        (* [requestTimer], when one was started *)
}.

Fixpoint update {A} (l : list A) (i : nat) (x : A) : list A :=
  match l, i with
  | [], _ => []
  | _ :: rest, O => x :: rest
  | y :: rest, S j => y :: update rest j x
  end.

(** *** The message tracker *)

Module Tracker.

(** Modelled from the spec: the message tracker (lib/client/message-tracker
    is not among the sources): a mapping from messageID to the pending
    handler, the next ID to hand out, and the abandoned IDs. *)
Record t : Type := {
  id : string;
  pending : list (Z * Scope);     (* in order of tracking *)
  nextID : Z;
  abandonedIDs : list Z
}.

Definition succ_id (i : Z) : Z := if (MAX_MSGID <=? i)%Z then 1%Z else (i + 1)%Z.

Definition busy (tr : t) : list Z := map fst (pending tr) ++ abandonedIDs tr.

Fixpoint free_id (fuel : nat) (i : Z) (taken : list Z) : Z :=
  match fuel with
  | O => i
  | S fuel' => if existsb (Z.eqb i) taken then free_id fuel' (succ_id i) taken else i
  end.

(** Modelled from the spec: [track(request, handler)] assigns the next free
    messageID (skipping every ID pending or abandoned, wrapping from
    2^31-1 to 1), stamps it on the request and stores the handler. *)
Definition track (h : Scope) (tr : t) : Z * t :=
  let i := free_id (S (List.length (busy tr))) (nextID tr) (busy tr) in
  (i, {| id := id tr; pending := pending tr ++ [(i, h)];
         nextID := succ_id i; abandonedIDs := abandonedIDs tr |}).

(** Modelled from the spec: [fetch(id)] returns the handler registered for
    the ID without removing it. *)
Fixpoint lookup (i : Z) (l : list (Z * Scope)) : option Scope :=
  match l with
  | [] => None
  | (j, h) :: rest => if (i =? j)%Z then Some h else lookup i rest
  end.

Definition fetch (i : Z) (tr : t) : option Scope := lookup i (pending tr).

(** Modelled from the spec: [remove(id)] drops the pending entry. *)
Definition remove (i : Z) (tr : t) : t :=
  {| id := id tr; pending := filter (fun e => negb (fst e =? i)%Z) (pending tr);
     nextID := nextID tr; abandonedIDs := abandonedIDs tr |}.

(** Modelled from the spec: [abandon(id)] records the ID as abandoned and
    removes its pending entry. *)
Definition abandon (i : Z) (tr : t) : t :=
  {| id := id tr; pending := filter (fun e => negb (fst e =? i)%Z) (pending tr);
     nextID := nextID tr; abandonedIDs := abandonedIDs tr ++ [i] |}.

(** Modelled from the spec: [purge(fn)] calls [fn] on every pending entry
    and then clears the map; [clear] is the second half. *)
Definition clear (tr : t) : t :=
  {| id := id tr; pending := []; nextID := nextID tr; abandonedIDs := abandonedIDs tr |}.

End Tracker.

(** *** The request queue *)

Module Queue.

Record entry : Type := {
  q_req : Request;
  q_expect : Expect;
  q_emitter : option Emitter;
  q_callback : Callback
}.

(** [requestQueueFactory]: [size] is [None] for [Infinity]. *)
Record t : Type := {
  size : option nat;
  timeout : nat;
  _queue : list entry;
  _timer : option nat;
  _frozen : bool
}.

Definition create (opt_size opt_timeout : nat) : t :=
  {| size := if (0 <? opt_size)%nat then Some opt_size else None;
     timeout := if (0 <? opt_timeout)%nat then opt_timeout else 0;
     _queue := []; _timer := None; _frozen := false |}.

Definition freeze (q : t) : t :=
  {| size := size q; timeout := timeout q; _queue := _queue q;
     _timer := _timer q; _frozen := true |}.

Definition thaw (q : t) : t :=
  {| size := size q; timeout := timeout q; _queue := _queue q;
     _timer := _timer q; _frozen := false |}.

Definition full (q : t) : bool :=
  match size q with
  | Some n => (n <=? List.length (_queue q))%nat
  | None => false
  end.

(** Modelled from the spec: [enqueue] (lib/client/request-queue/enqueue.js
    is not among the sources) refuses when the queue is frozen or holds
    [size] entries, and appends otherwise. *)
Definition enqueue (e : entry) (q : t) : option t :=
  if _frozen q || full q then None
  else Some {| size := size q; timeout := timeout q; _queue := _queue q ++ [e];
               _timer := _timer q; _frozen := _frozen q |}.

(** Modelled from the spec: [flush] (its source is missing, its test is
    among the sources) clears the timer, empties the queue and hands every
    entry, oldest first, to the sink; [drained] is the queue it leaves. *)
Definition drained (q : t) : t :=
  {| size := size q; timeout := timeout q; _queue := [];
     _timer := None; _frozen := _frozen q |}.

End Queue.

(** *** Sockets, timers and the client object *)

(** The listeners the client attaches to a socket. *)
Inductive SockListener : Type :=
| OnData (tracker : nat)      (* feeds the tracker's parser *)
| OnClose                     (* [self._onClose.bind(self)] *)
| OnEnd
| OnSocketTimeout
| OnSocketError
| Bail                        (* setup phase *)
| OnSecureConnection (tcp : nat) (dataListeners : list SockListener) (callback : Callback)
| OnSecureConnectError (tcp : nat) (dataListeners : list SockListener) (callback : Callback)
| OtherListener (id : nat).

Record Socket : Type := {
  writable : bool;
  stuffed : bool;
  encrypted : bool;
  sock_destroyed : bool;            (* [destroy()] was called *)
  sock_ended : bool;                (* [end()] was called *)
  unbindMessageID : option Z;
  inner : option nat;               (* [socket.socket] *)
  sock_listeners : list (string * SockListener);
  written : list (Z * Request)      (* requests handed to [write], oldest first *)
}.

(** A started request timer: what [onTimeout] closes over. *)
Record Timer : Type := {
  tm_id : nat;
  tm_req : Request;
  tm_msgid : option Z;              (* [req.messageID] *)
  tm_tracker : option nat
}.

(** A write whose [onSent] callback has not run yet. *)
Record Write : Type := {
  w_scope : Scope;
  w_msgid : Z;
  w_tracker : nat;
  w_socket : nat
}.

(** [this.reconnect], as the constructor leaves it:
    [initialDelay: parseInt(rOpts.initialDelay || 100, 10)], [maxDelay]
    likewise, and [failAfter: parseInt(rOpts.failAfter, 10) || Infinity].
    [parseInt] yields any integer, negative ones included, or [NaN]. *)
Record Reconnect : Type := {
  initialDelay : option Z;          (* milliseconds; [None] is [NaN] *)
  maxDelay : option Z;
  failAfter : option Z              (* [None] is [Infinity] *)
}.

Record Backoff : Type := {
  b_initialDelay : option Z;
  b_maxDelay : option Z;
  b_failAfter : option Z            (* [maxRetries]; [None] is [Infinity] *)
}.

(** An argument of a callback or of an event of the client. *)
Inductive CArg : Type :=
| CUndefined
| CNull
| CErr (e : error)
| CMsg (m : Message)
| CReq (messageID : option Z) (r : Request)
| CEmitter (e : Emitter).

(** What the client does to the outside, in order. *)
Inductive Effect : Type :=
| ClientEvent (name : string) (args : list CArg)       (* [self.emit] *)
| CallbackCall (cb : Callback) (args : list CArg)
| EmitterEvent (emitter : nat) (name : string) (data : CArg).

Record t : Type := {
  (* configuration *)
  timeout : nat;
  idleTimeout : nat;
  reconnect : option Reconnect;
  strictDN : bool;
  urls : nat;                       (* [this.urls.length] *)
  (* objects the client and its closures refer to, by index *)
  sockets : list Socket;
  trackers : list Tracker.t;
  (* the client's own fields *)
  queue : Queue.t;
  _socket : option nat;
  _tracker : option nat;
  connected : bool;
  connecting : bool;
  destroyed : bool;
  _starttls : bool;                 (* ['starting'] *)
  _idleTimer : bool;
  (* the event loop's view *)
  timers : list Timer;              (* request timers that are running *)
  nextTimer : nat;
  writes : list Write;              (* writes awaiting [onSent], oldest first *)
  retry : option Backoff;           (* the backoff [connect] started *)
  (* the search result streams on which an [error] event would be thrown
     now: those that are flowing (uncorked) and have no [error] listener,
     see [SearchResult.ee_emit]; the client itself never changes this *)
  deaf : list nat;
  trace : list Effect
}.

Definition set_sockets (x : list Socket) (c : t) : t :=
  {| timeout := timeout c; idleTimeout := idleTimeout c; reconnect := reconnect c;
     strictDN := strictDN c; urls := urls c; sockets := x; trackers := trackers c;
     queue := queue c; _socket := _socket c; _tracker := _tracker c;
     connected := connected c; connecting := connecting c; destroyed := destroyed c;
     _starttls := _starttls c; _idleTimer := _idleTimer c; timers := timers c;
     nextTimer := nextTimer c; writes := writes c; retry := retry c;
     deaf := deaf c; trace := trace c |}.

Definition set_trackers (x : list Tracker.t) (c : t) : t :=
  {| timeout := timeout c; idleTimeout := idleTimeout c; reconnect := reconnect c;
     strictDN := strictDN c; urls := urls c; sockets := sockets c; trackers := x;
     queue := queue c; _socket := _socket c; _tracker := _tracker c;
     connected := connected c; connecting := connecting c; destroyed := destroyed c;
     _starttls := _starttls c; _idleTimer := _idleTimer c; timers := timers c;
     nextTimer := nextTimer c; writes := writes c; retry := retry c;
     deaf := deaf c; trace := trace c |}.

Definition set_queue (x : Queue.t) (c : t) : t :=
  {| timeout := timeout c; idleTimeout := idleTimeout c; reconnect := reconnect c;
     strictDN := strictDN c; urls := urls c; sockets := sockets c; trackers := trackers c;
     queue := x; _socket := _socket c; _tracker := _tracker c;
     connected := connected c; connecting := connecting c; destroyed := destroyed c;
     _starttls := _starttls c; _idleTimer := _idleTimer c; timers := timers c;
     nextTimer := nextTimer c; writes := writes c; retry := retry c;
     deaf := deaf c; trace := trace c |}.

Definition set__socket (x : option nat) (c : t) : t :=
  {| timeout := timeout c; idleTimeout := idleTimeout c; reconnect := reconnect c;
     strictDN := strictDN c; urls := urls c; sockets := sockets c; trackers := trackers c;
     queue := queue c; _socket := x; _tracker := _tracker c;
     connected := connected c; connecting := connecting c; destroyed := destroyed c;
     _starttls := _starttls c; _idleTimer := _idleTimer c; timers := timers c;
     nextTimer := nextTimer c; writes := writes c; retry := retry c;
     deaf := deaf c; trace := trace c |}.

Definition set__tracker (x : option nat) (c : t) : t :=
  {| timeout := timeout c; idleTimeout := idleTimeout c; reconnect := reconnect c;
     strictDN := strictDN c; urls := urls c; sockets := sockets c; trackers := trackers c;
     queue := queue c; _socket := _socket c; _tracker := x;
     connected := connected c; connecting := connecting c; destroyed := destroyed c;
     _starttls := _starttls c; _idleTimer := _idleTimer c; timers := timers c;
     nextTimer := nextTimer c; writes := writes c; retry := retry c;
     deaf := deaf c; trace := trace c |}.

Definition set_connected (x : bool) (c : t) : t :=
  {| timeout := timeout c; idleTimeout := idleTimeout c; reconnect := reconnect c;
     strictDN := strictDN c; urls := urls c; sockets := sockets c; trackers := trackers c;
     queue := queue c; _socket := _socket c; _tracker := _tracker c;
     connected := x; connecting := connecting c; destroyed := destroyed c;
     _starttls := _starttls c; _idleTimer := _idleTimer c; timers := timers c;
     nextTimer := nextTimer c; writes := writes c; retry := retry c;
     deaf := deaf c; trace := trace c |}.

Definition set_connecting (x : bool) (c : t) : t :=
  {| timeout := timeout c; idleTimeout := idleTimeout c; reconnect := reconnect c;
     strictDN := strictDN c; urls := urls c; sockets := sockets c; trackers := trackers c;
     queue := queue c; _socket := _socket c; _tracker := _tracker c;
     connected := connected c; connecting := x; destroyed := destroyed c;
     _starttls := _starttls c; _idleTimer := _idleTimer c; timers := timers c;
     nextTimer := nextTimer c; writes := writes c; retry := retry c;
     deaf := deaf c; trace := trace c |}.

Definition set_destroyed (x : bool) (c : t) : t :=
  {| timeout := timeout c; idleTimeout := idleTimeout c; reconnect := reconnect c;
     strictDN := strictDN c; urls := urls c; sockets := sockets c; trackers := trackers c;
     queue := queue c; _socket := _socket c; _tracker := _tracker c;
     connected := connected c; connecting := connecting c; destroyed := x;
     _starttls := _starttls c; _idleTimer := _idleTimer c; timers := timers c;
     nextTimer := nextTimer c; writes := writes c; retry := retry c;
     deaf := deaf c; trace := trace c |}.

Definition set__starttls (x : bool) (c : t) : t :=
  {| timeout := timeout c; idleTimeout := idleTimeout c; reconnect := reconnect c;
     strictDN := strictDN c; urls := urls c; sockets := sockets c; trackers := trackers c;
     queue := queue c; _socket := _socket c; _tracker := _tracker c;
     connected := connected c; connecting := connecting c; destroyed := destroyed c;
     _starttls := x; _idleTimer := _idleTimer c; timers := timers c;
     nextTimer := nextTimer c; writes := writes c; retry := retry c;
     deaf := deaf c; trace := trace c |}.

Definition set__idleTimer (x : bool) (c : t) : t :=
  {| timeout := timeout c; idleTimeout := idleTimeout c; reconnect := reconnect c;
     strictDN := strictDN c; urls := urls c; sockets := sockets c; trackers := trackers c;
     queue := queue c; _socket := _socket c; _tracker := _tracker c;
     connected := connected c; connecting := connecting c; destroyed := destroyed c;
     _starttls := _starttls c; _idleTimer := x; timers := timers c;
     nextTimer := nextTimer c; writes := writes c; retry := retry c;
     deaf := deaf c; trace := trace c |}.

Definition set_timers (x : list Timer) (n : nat) (c : t) : t :=
  {| timeout := timeout c; idleTimeout := idleTimeout c; reconnect := reconnect c;
     strictDN := strictDN c; urls := urls c; sockets := sockets c; trackers := trackers c;
     queue := queue c; _socket := _socket c; _tracker := _tracker c;
     connected := connected c; connecting := connecting c; destroyed := destroyed c;
     _starttls := _starttls c; _idleTimer := _idleTimer c; timers := x;
     nextTimer := n; writes := writes c; retry := retry c;
     deaf := deaf c; trace := trace c |}.

Definition set_writes (x : list Write) (c : t) : t :=
  {| timeout := timeout c; idleTimeout := idleTimeout c; reconnect := reconnect c;
     strictDN := strictDN c; urls := urls c; sockets := sockets c; trackers := trackers c;
     queue := queue c; _socket := _socket c; _tracker := _tracker c;
     connected := connected c; connecting := connecting c; destroyed := destroyed c;
     _starttls := _starttls c; _idleTimer := _idleTimer c; timers := timers c;
     nextTimer := nextTimer c; writes := x; retry := retry c;
     deaf := deaf c; trace := trace c |}.

Definition set_retry (x : option Backoff) (c : t) : t :=
  {| timeout := timeout c; idleTimeout := idleTimeout c; reconnect := reconnect c;
     strictDN := strictDN c; urls := urls c; sockets := sockets c; trackers := trackers c;
     queue := queue c; _socket := _socket c; _tracker := _tracker c;
     connected := connected c; connecting := connecting c; destroyed := destroyed c;
     _starttls := _starttls c; _idleTimer := _idleTimer c; timers := timers c;
     nextTimer := nextTimer c; writes := writes c; retry := x;
     deaf := deaf c; trace := trace c |}.

Definition set_deaf (x : list nat) (c : t) : t :=
  {| timeout := timeout c; idleTimeout := idleTimeout c; reconnect := reconnect c;
     strictDN := strictDN c; urls := urls c; sockets := sockets c; trackers := trackers c;
     queue := queue c; _socket := _socket c; _tracker := _tracker c;
     connected := connected c; connecting := connecting c; destroyed := destroyed c;
     _starttls := _starttls c; _idleTimer := _idleTimer c; timers := timers c;
     nextTimer := nextTimer c; writes := writes c; retry := retry c;
     deaf := x; trace := trace c |}.

Definition set_trace (x : list Effect) (c : t) : t :=
  {| timeout := timeout c; idleTimeout := idleTimeout c; reconnect := reconnect c;
     strictDN := strictDN c; urls := urls c; sockets := sockets c; trackers := trackers c;
     queue := queue c; _socket := _socket c; _tracker := _tracker c;
     connected := connected c; connecting := connecting c; destroyed := destroyed c;
     _starttls := _starttls c; _idleTimer := _idleTimer c; timers := timers c;
     nextTimer := nextTimer c; writes := writes c; retry := retry c;
     deaf := deaf c; trace := x |}.

(** *** Stateful code: outcomes and sequencing *)

Inductive Outcome : Type :=
| Done (c : t)
| Thrown (e : error) (c : t).

Definition Act : Type := t -> Outcome.

Definition state_of (o : Outcome) : t :=
  match o with Done c => c | Thrown _ c => c end.

Definition seq (a b : Act) : Act :=
  fun c => match a c with
           | Done c1 => b c1
           | Thrown e c1 => Thrown e c1
           end.

Notation "a ;; b" := (seq a b) (at level 62, right associativity).

Definition skip : Act := fun c => Done c.
Definition lift (f : t -> t) : Act := fun c => Done (f c).

Fixpoint for_each {A} (l : list A) (f : A -> Act) : Act :=
  match l with
  | [] => skip
  | x :: rest => f x ;; for_each rest f
  end.

(** [list.forEach(function (x) { ... this ... })]: no [thisArg] is given
    and the code is strict, so the callback runs with [this] undefined. *)
Definition forEach_no_thisArg {A} (l : list A) (f : option nat -> A -> Act) : Act :=
  for_each l (f None).

Definition type_error (what : string) : error := Err KTypeError what.

Definition effect (e : Effect) : Act := lift (fun c => set_trace (trace c ++ [e]) c).

(** [self.emit(name, ...args)]. *)
Definition emit (name : string) (args : list CArg) : Act := effect (ClientEvent name args).

(** Calling a callback.  The [onSent] closure of [starttls] reacts to an
    error only: [if (err) { delete self._starttls; callback(err) }]. *)
Fixpoint call (cb : Callback) (args : list CArg) : Act :=
  match cb with
  | UserCallback _ | PromiseCallback _ => effect (CallbackCall cb args)
  | StartTlsSent callback =>
      match args with
      | CErr e :: _ => lift (set__starttls false) ;; call callback [CErr e]
      | _ => skip
      end
  end.

(** *** Sockets and trackers, by reference *)

Definition socket_at (i : nat) (c : t) : option Socket := nth_error (sockets c) i.
Definition tracker_at (i : nat) (c : t) : option Tracker.t := nth_error (trackers c) i.

Definition modify_socket (i : nat) (f : Socket -> Socket) : Act :=
  fun c => match socket_at i c with
           | Some s => Done (set_sockets (update (sockets c) i (f s)) c)
           | None => Done c
           end.

Definition modify_tracker (i : nat) (f : Tracker.t -> Tracker.t) : Act :=
  fun c => match tracker_at i c with
           | Some tr => Done (set_trackers (update (trackers c) i (f tr)) c)
           | None => Done c
           end.

Definition set_sock_listeners (x : list (string * SockListener)) (s : Socket) : Socket :=
  {| writable := writable s; stuffed := stuffed s; encrypted := encrypted s;
     sock_destroyed := sock_destroyed s; sock_ended := sock_ended s;
     unbindMessageID := unbindMessageID s; inner := inner s;
     sock_listeners := x; written := written s |}.

Definition set_written (x : list (Z * Request)) (s : Socket) : Socket :=
  {| writable := writable s; stuffed := stuffed s; encrypted := encrypted s;
     sock_destroyed := sock_destroyed s; sock_ended := sock_ended s;
     unbindMessageID := unbindMessageID s; inner := inner s;
     sock_listeners := sock_listeners s; written := x |}.

Definition set_unbindMessageID (x : option Z) (s : Socket) : Socket :=
  {| writable := writable s; stuffed := stuffed s; encrypted := encrypted s;
     sock_destroyed := sock_destroyed s; sock_ended := sock_ended s;
     unbindMessageID := x; inner := inner s;
     sock_listeners := sock_listeners s; written := written s |}.

(** [socket.destroy()]: the socket takes no more writes; its [close] event
    follows on a later turn of the event loop. *)
Definition destroyed_socket (s : Socket) : Socket :=
  {| writable := false; stuffed := stuffed s; encrypted := encrypted s;
     sock_destroyed := true; sock_ended := sock_ended s;
     unbindMessageID := unbindMessageID s; inner := inner s;
     sock_listeners := sock_listeners s; written := written s |}.

(** [socket.end()]. *)
Definition ended_socket (s : Socket) : Socket :=
  {| writable := false; stuffed := stuffed s; encrypted := encrypted s;
     sock_destroyed := sock_destroyed s; sock_ended := true;
     unbindMessageID := unbindMessageID s; inner := inner s;
     sock_listeners := sock_listeners s; written := written s |}.

(** [target.on(name, listener)], where [target] is [None] when the
    expression it is called on evaluates to [undefined]. *)
Definition sock_on (target : option nat) (name : string) (l : SockListener) : Act :=
  match target with
  | None => fun c => Thrown (type_error "Cannot read properties of undefined (reading 'on')") c
  | Some i => modify_socket i (fun s => set_sock_listeners (sock_listeners s ++ [(name, l)]) s)
  end.

Definition sock_removeAllListeners (i : nat) (name : string) : Act :=
  modify_socket i (fun s =>
    set_sock_listeners (filter (fun e => negb (fst e =? name)) (sock_listeners s)) s).

(** [socket.listeners(name)]. *)
Definition listeners_of (i : nat) (name : string) (c : t) : list SockListener :=
  match socket_at i c with
  | Some s => map snd (filter (fun e => fst e =? name) (sock_listeners s))
  | None => []
  end.

(** A boolean property of the socket, read for its truthiness. *)
Definition sock_flag (f : Socket -> bool) (i : nat) (c : t) : bool :=
  match socket_at i c with
  | Some s => f s
  | None => false
  end.

(** *** StartTLS: the handlers of the reply *)

(** [tls.connect(options, onSecureConnection).once('error', ...)]: a new
    socket object wrapping the TCP socket, with its two listeners. *)
Definition tls_connect (tcp : nat) (dataListeners : list SockListener) (callback : Callback)
  : Act :=
  lift (fun c =>
    set_sockets
      (sockets c ++
         [{| writable := true; stuffed := false; encrypted := true;
             sock_destroyed := false; sock_ended := false;
             unbindMessageID := None; inner := None;
             sock_listeners :=
               [("secureConnect", OnSecureConnection tcp dataListeners callback);
                ("error", OnSecureConnectError tcp dataListeners callback)];
             written := [] |}]) c).

(** [onStartTlsReply]: the listener of the emitter's [end] event. *)
Definition onStartTlsReply (callback : Callback) : Act :=
  fun c =>
    match _socket c with
    | None => Thrown (type_error "Cannot read properties of null (reading 'listeners')") c
    | Some socket =>
        let dataListeners := listeners_of socket "data" c in
        (sock_removeAllListeners socket "data" ;;
         tls_connect socket dataListeners callback) c
    end.

(** [onSecureConnection], called with [this] bound to the TLS socket
    [secure].  Inside the two [forEach] callbacks, [this] is the callback's
    own receiver. *)
Definition onSecureConnection (secure tcp : nat) (dataListeners : list SockListener)
    (callback : Callback) : Act :=
  forEach_no_thisArg dataListeners (fun this listener => sock_on this "data" listener) ;;
  sock_removeAllListeners secure "error" ;;
  (fun c => forEach_no_thisArg (listeners_of tcp "error" c)
              (fun this listener => sock_on this "error" listener) c) ;;
  lift (set__socket (Some secure)) ;;
  lift (set__starttls false) ;;
  call callback [].

(** [onSecureConnectError]. *)
Definition onSecureConnectError (tcp : nat) (dataListeners : list SockListener)
    (callback : Callback) (err : error) : Act :=
  for_each dataListeners (fun listener => sock_on (Some tcp) "data" listener) ;;
  lift (set__starttls false) ;;
  call callback [CErr err].

(** What [EventEmitter.prototype.emit] throws for an [error] event nobody
    listens to: the event's argument when that is an Error. *)
Definition unhandled (data : CArg) : error :=
  match data with
  | CErr e => e
  | _ => Err KError "Unhandled error."
  end.

(** The stream [i] throws [error] events now. *)
Definition is_deaf (i : nat) (c : t) : bool := existsb (Nat.eqb i) (deaf c).

(** [emitter.emit(name, data)] on the emitter of a request.  For a search
    result stream (directly, or through the [error] relay of its
    PageResult) the trace records the call; an [error] event is thrown
    when the stream is flowing and has no [error] listener. *)
Definition emitter_emit (em : Emitter) (name : string) (data : CArg) : Act :=
  match em with
  | StreamEmitter i =>
      effect (EmitterEvent i name data) ;;
      (fun c => if (name =? "error") && is_deaf i c
                then Thrown (unhandled data) c
                else Done c)
  | StartTlsEmitter callback =>
      if name =? "error" then lift (set__starttls false) ;; call callback [data]
      else if name =? "end" then onStartTlsReply callback
      else skip
  end.

(** *** [_sendRequest] and its closures *)

(** [clearRequestTimer]. *)
Definition clearRequestTimer (sc : Scope) : Act :=
  lift (fun c =>
    match s_timer sc with
    | Some i => set_timers (filter (fun tm => negb (tm_id tm =? i)%nat) (timers c))
                  (nextTimer c) c
    | None => c
    end).

(** [startIdleTimer]; [connectionIdle] reads [self._tracker.pending]. *)
Definition startIdleTimer : Act :=
  fun c =>
    match _socket c with
    | None => Done c
    | Some _ =>
        if connected c then
          match _tracker c with
          | None => Thrown (type_error "Cannot read properties of null (reading 'pending')") c
          | Some ti =>
              let idle := match tracker_at ti c with
                          | Some tr => (List.length (Tracker.pending tr) =? 0)%nat
                          | None => false
                          end in
              if idle && (0 <? idleTimeout c)%nat && negb (_idleTimer c)
              then Done (set__idleTimer true c)
              else Done c
          end
        else Done c
    end.

(** [dispatch (event, data)], local to the handler [onMessage];
    [event] is [None] where the source passes [null]. *)
Definition dispatch (sc : Scope) (event : option string) (data : CArg) : Act :=
  let is_error := match event with Some e => e =? "error" | None => false end in
  (if is_error then emit "resultError" [data] else skip) ;;
  match s_emitter sc with
  | Some em => emitter_emit em (match event with Some e => e | None => "end" end) data
  | None =>
      if is_error then call (s_callback sc) [data]
      else call (s_callback sc) [CNull; data]
  end.

(** [expect.indexOf(msg.status) !== -1]: membership in the array of codes,
    or, for the string 'unbind', a substring search for the status. *)
Definition expected (expect : Expect) (status : Status) : bool :=
  match expect, status with
  | ExpectCodes codes, StatusCode n => existsb (Z.eqb n) codes
  | ExpectCodes _, StatusUnbind => false
  | ExpectUnbind, StatusUnbind => true
  | ExpectUnbind, StatusCode _ => false
  | ExpectAbandon, _ => false
  end.

(** [errors.getError(msg)]. *)
Definition getError (r : LDAPResult) : error :=
  match rstatus r with
  | StatusCode n => Err (KLdapResult n) (rtype r)
  | StatusUnbind => Err KError (rtype r)
  end.

(** [onMessage]: the handler [_sendRequest] registers with the tracker
    [tracker] under the ID [msgid] that [track] stamped on the request. *)
Definition onMessage (tracker : nat) (msgid : Z) (sc : Scope) (msg : Message) : Act :=
  clearRequestTimer sc ;;
  match s_expect sc with
  | ExpectAbandon => dispatch sc (Some "end") CUndefined
  | _ =>
      match msg with
      | SearchEntry _ => dispatch sc (Some "searchEntry") (CMsg msg)
      | SearchReference _ => dispatch sc (Some "searchReference") (CMsg msg)
      | _ =>
          modify_tracker tracker (Tracker.remove msgid) ;;
          startIdleTimer ;;
          match msg with
          | ErrorMessage e => dispatch sc (Some "error") (CErr e)
          | ResultMessage r =>
              if expected (s_expect sc) (rstatus r)
              then dispatch sc None (CMsg msg)
              else dispatch sc (Some "error") (CErr (getError r))
          | OtherMessage type => dispatch sc (Some "error") (CErr (Err KProtocolError type))
          | _ => skip
          end
      end
  end.

(** [onTimeout]: the callback of the request timer [tm]. *)
Definition onTimeout (tm : Timer) : Act :=
  lift (fun c => set_timers (filter (fun x => negb (tm_id x =? tm_id tm)%nat) (timers c))
                   (nextTimer c) c) ;;
  emit "timeout" [CReq (tm_msgid tm) (tm_req tm)] ;;
  fun c =>
    match tm_tracker tm with
    | None => Thrown (type_error "Cannot read properties of null (reading 'fetch')") c
    | Some tracker =>
        match tracker_at tracker c, tm_msgid tm with
        | Some tr, Some msgid =>
            match Tracker.fetch msgid tr with
            | Some onMessageTracker =>
                (modify_tracker tracker (Tracker.abandon msgid) ;;
                 onMessage tracker msgid onMessageTracker
                   (ErrorMessage (Err KTimeoutError "request timeout (client interrupt)"))) c
            | None => Done c
            end
        | _, _ => Done c
        end
    end.

(** The event loop fires the running timer [i]. *)
Definition fire_timer (i : nat) : Act :=
  fun c => match find (fun tm => (tm_id tm =? i)%nat) (timers c) with
           | Some tm => onTimeout tm c
           | None => Done c
           end.

(** The listener of the parser's [message] event ([setupResponseTracker]):
    a message for an ID the tracker does not hold is logged and dropped. *)
Definition receive (tracker : nat) (msgid : Z) (msg : Message) : Act :=
  fun c =>
    match tracker_at tracker c with
    | Some tr =>
        match Tracker.fetch msgid tr with
        | Some callback => onMessage tracker msgid callback msg c
        | None => Done c
        end
    | None => Done c
    end.

(** [onSent]: the callback of [socket.write]. *)
Definition onSent (w : Write) : Act :=
  let sc := w_scope w in
  match s_expect sc with
  | ExpectAbandon =>
      (match s_req sc with
       | AbandonRequest abandonID _ => modify_tracker (w_tracker w) (Tracker.abandon abandonID)
       | _ => skip
       end) ;;
      modify_tracker (w_tracker w) (Tracker.remove (w_msgid w)) ;;
      call (s_callback sc) [CNull]
  | ExpectUnbind =>
      modify_socket (w_socket w) (set_unbindMessageID (Some (w_msgid w))) ;;
      sock_removeAllListeners (w_socket w) "error" ;;
      modify_socket (w_socket w) ended_socket
  | ExpectCodes _ =>
      match s_emitter sc with
      | Some em => call (s_callback sc) [CNull; CEmitter em; CReq (Some (w_msgid w)) (s_req sc)]
      | None => skip
      end
  end.

(** The event loop runs the oldest pending write callback. *)
Definition flush_write : Act :=
  fun c => match writes c with
           | w :: rest => onSent w (set_writes rest c)
           | [] => Done c
           end.

Definition _sendRequest (req : Request) (expect : Expect) (emitter : option Emitter)
    (callback : Callback) : Act :=
  fun c =>
    let socket := _socket c in
    let tracker := _tracker c in
    (* clearIdleTimer *)
    let c1 := set__idleTimer false c in
    (* startRequestTimer; the timer reads [req.messageID] when it fires *)
    let requestTimer := if (0 <? timeout c1)%nat then Some (nextTimer c1) else None in
    let start msgid c' :=
      match requestTimer with
      | Some i => set_timers (timers c' ++ [{| tm_id := i; tm_req := req; tm_msgid := msgid;
                                                tm_tracker := tracker |}]) (S i) c'
      | None => c'
      end in
    let sc := {| s_req := req; s_expect := expect; s_emitter := emitter;
                 s_callback := callback; s_timer := requestTimer |} in
    match tracker with
    | None =>
        Thrown (type_error "Cannot read properties of null (reading 'track')") (start None c1)
    | Some ti =>
        match tracker_at ti c1 with
        | None =>
            Thrown (type_error "Cannot read properties of null (reading 'track')")
              (start None c1)
        | Some tr =>
            let (msgid, tr') := Tracker.track sc tr in
            let c2 := start (Some msgid) (set_trackers (update (trackers c1) ti tr') c1) in
            (* try { socket.write(req.toBer(), onSent) } catch (err) { ... } *)
            match socket with
            | None =>
                (clearRequestTimer sc ;;
                 call callback
                   [CErr (type_error "Cannot read properties of null (reading 'write')")]) c2
            | Some si =>
                (modify_socket si (fun s => set_written (written s ++ [(msgid, req)]) s) ;;
                 lift (fun c' => set_writes (writes c' ++ [{| w_scope := sc; w_msgid := msgid;
                                                              w_tracker := ti; w_socket := si |}])
                                   c')) c2
            end
        end
    end.

(** *** [connect], [_dispatchRequest] and the operations *)

(** [connect], up to [retry.backoff()]: the socket is opened from the
    backoff's [ready] event, on a later turn of the event loop. *)
Definition connect : Act :=
  fun c =>
    if connected c || connecting c then Done c
    else if destroyed c then Done c
    else
      (* [this.urls.length || 1] *)
      let maxRetries := if (urls c =? 0)%nat then 1%Z else Z.of_nat (urls c) in
      let backoff :=
        match reconnect c with
        | Some r =>
            {| b_initialDelay := initialDelay r; b_maxDelay := maxDelay r;
               (* [if (this.reconnect.failAfter) maxRetries *= this.reconnect.failAfter] *)
               b_failAfter := match failAfter r with
                              | None => None
                              | Some n => if (n =? 0)%Z then Some maxRetries
                                          else Some (maxRetries * n)%Z
                              end |}
        | None => {| b_initialDelay := Some 1%Z; b_maxDelay := Some 2%Z;
                     b_failAfter := Some maxRetries |}
        end in
      Done (set_retry (Some backoff) (set_connecting true c)).

(** [this.queue.flush(sink)]. *)
Definition queue_flush (sink : Queue.entry -> Act) : Act :=
  fun c =>
    let entries := Queue._queue (queue c) in
    for_each entries sink (set_queue (Queue.drained (queue c)) c).

Definition resend (e : Queue.entry) : Act :=
  _sendRequest (Queue.q_req e) (Queue.q_expect e) (Queue.q_emitter e) (Queue.q_callback e).

Definition _dispatchRequest (req : Request) (expect : Expect) (emitter : option Emitter)
    (callback : Callback) : Act :=
  fun c =>
    if destroyed c
    then call callback [CErr (Err KConnectionError "client destroyed")] c
    else
      let has_socket := match _socket c with Some _ => true | None => false end in
      let flag f := match _socket c with Some si => sock_flag f si c | None => false end in
      if connecting c && has_socket && flag writable
      then _sendRequest req expect emitter callback c
      else if negb has_socket || negb (connected c) || flag stuffed
      then
        match Queue.enqueue {| Queue.q_req := req; Queue.q_expect := expect;
                               Queue.q_emitter := emitter; Queue.q_callback := callback |}
                (queue c) with
        | None => call callback [CErr (Err KConnectionError "request queue unavailable")] c
        | Some q =>
            let c1 := set_queue q c in
            if connected c1 || connecting c1 then Done c1
            else match reconnect c1 with
                 | Some _ => connect c1
                 | None =>
                     call callback [CErr (Err KConnectionError "connection unavailable")] c1
                 end
        end
      else (queue_flush resend ;; _sendRequest req expect emitter callback) c.

(** [callback || getPromiseCallback()]. *)
Definition or_promise (callback : option Callback) : Callback :=
  match callback with
  | Some cb => cb
  | None => PromiseCallback 0
  end.

Definition abandon (messageID : Z) (controls : list Control) (callback : option Callback)
  : Act :=
  _dispatchRequest (AbandonRequest messageID controls) ExpectAbandon None (or_promise callback).

Definition unbind (callback : option Callback) : Act :=
  fun c =>
    match _socket c with
    | Some _ =>
        if connected c
        then _dispatchRequest UnbindRequest ExpectUnbind None (or_promise callback) c
        else call (or_promise callback) [] c
    | None => call (or_promise callback) [] c
    end.

Definition destroy (err : CArg) : Act :=
  lift (fun c => set_queue (Queue.freeze (queue c)) c) ;;
  queue_flush (fun e =>
    call (Queue.q_callback e) [CErr (Err KConnectionError "client destroyed")]) ;;
  (fun c =>
     match _socket c with
     | Some _ =>
         ((if connected c then unbind None else skip) ;;
          (fun c' =>
             match _socket c' with
             | Some si => modify_socket si destroyed_socket c'
             | None =>
                 Thrown (type_error "Cannot read properties of null (reading 'destroy')") c'
             end)) c
     | None => Done c
     end) ;;
  lift (set_destroyed true) ;;
  emit "destroy" [err].

(** The synthetic reply the close handler gives an outstanding unbind. *)
Definition unbind_response (msgid : Z) : Message :=
  ResultMessage {| rtype := "UnbindResponse"; rmessageID := msgid;
                   rstatus := StatusUnbind; rcontrols := [] |}.

Definition closed_error (tracker_id : string) : error :=
  Err KConnectionError (tracker_id ++ " closed")%string.

(** [!socket.unbindMessageID]. *)
Definition no_unbind (s : Socket) : bool :=
  match unbindMessageID s with
  | None => true
  | Some i => (i =? 0)%Z
  end.

(** [tracker.purge(fn)]. *)
Definition purge (tracker : nat) (fn : Z -> Scope -> Act) : Act :=
  fun c =>
    match tracker_at tracker c with
    | None => Thrown (type_error "Cannot read properties of null (reading 'purge')") c
    | Some tr =>
        (for_each (Tracker.pending tr) (fun e => fn (fst e) (snd e)) ;;
         modify_tracker tracker Tracker.clear) c
    end.

(** The listeners the close handler removes: [close] from [socket.socket]
    when the socket has one and from the socket itself otherwise, then six
    more from the socket. *)
Definition detach_listeners (si : nat) : Act :=
  (fun c =>
     let target := match socket_at si c with
                   | Some s => match inner s with Some j => j | None => si end
                   | None => si
                   end in
     sock_removeAllListeners target "close" c) ;;
  sock_removeAllListeners si "connect" ;;
  sock_removeAllListeners si "data" ;;
  sock_removeAllListeners si "drain" ;;
  sock_removeAllListeners si "end" ;;
  sock_removeAllListeners si "error" ;;
  sock_removeAllListeners si "timeout".

Definition _onClose (closeError : CArg) : Act :=
  lift (set_connected false) ;;
  fun c =>
    let socket := _socket c in
    let tracker := _tracker c in
    match tracker, socket with
    | None, _ => Thrown (type_error "Cannot read properties of null (reading 'purge')") c
    | Some ti, None =>
        (* [socket.unbindMessageID] and [socket.socket] throw on [null] *)
        (purge ti (fun _ _ c' =>
           Thrown (type_error "Cannot read properties of null (reading 'unbindMessageID')") c') ;;
         lift (set__tracker None) ;;
         (fun c' => Thrown (type_error "Cannot read properties of null (reading 'socket')") c')) c
    | Some ti, Some si =>
        (purge ti (fun msgid cb c' =>
           let tracker_id := match tracker_at ti c' with
                             | Some tr => Tracker.id tr
                             | None => ""
                             end in
           let is_unbind := match socket_at si c' with
                            | Some s => match unbindMessageID s with
                                        | Some u => (msgid =? u)%Z
                                        | None => false
                                        end
                            | None => false
                            end in
           if is_unbind
           then onMessage ti msgid cb (unbind_response msgid) c'
           else onMessage ti msgid cb (ErrorMessage (closed_error tracker_id)) c') ;;
         lift (set__tracker None) ;;
         detach_listeners si ;;
         lift (set__socket None) ;;
         emit "close" [closeError] ;;
         (fun c' =>
            match reconnect c' with
            | Some _ => if sock_flag no_unbind si c' then connect c' else Done c'
            | None => Done c'
            end)) c
    end.

(** [StartTlsExOp.OID]. *)
Definition StartTlsOID : string := "1.3.6.1.4.1.1466.20037".

Definition starttls (controls : list Control) (callback : option Callback) : Act :=
  fun c =>
    let callback := or_promise callback in
    if _starttls c
    then call callback [CErr (Err KError "STARTTLS already in progress")] c
    else
      match _socket c with
      | None => Thrown (type_error "Cannot read properties of null (reading 'encrypted')") c
      | Some si =>
          if sock_flag encrypted si c
          then call callback [CErr (Err KError "Socket is already encrypted")] c
          else
            (lift (set__starttls true) ;;
             _dispatchRequest (ExtendedRequest StartTlsOID None controls)
               (ExpectCodes [LDAP_SUCCESS]) (Some (StartTlsEmitter callback))
               (StartTlsSent callback)) c
      end.

Section Operations.

(** [dn.parse], from lib/dn.js. *)
Variable dn_parse : dn_input -> result DN.

Definition submit (built : result Request) (expect : Expect) (callback : option Callback)
  : Act :=
  fun c =>
    match built with
    | Throw e => Thrown e c
    | Ok req => _dispatchRequest req expect None (or_promise callback) c
    end.

Definition add (name : dn_input) (entry : entry_arg) (controls : list Control)
    (callback : option Callback) : Act :=
  fun c => submit (add_request dn_parse (strictDN c) name entry controls)
             (ExpectCodes [LDAP_SUCCESS]) callback c.

(** The wrapper [compare] puts around the caller's callback, to hand it the
    comparison as a boolean, is left out. *)
Definition compare (name : dn_input) (attr value : string) (controls : list Control)
    (callback : option Callback) : Act :=
  fun c => submit (compare_request dn_parse (strictDN c) name attr value controls)
             (ExpectCodes [LDAP_COMPARE_TRUE; LDAP_COMPARE_FALSE]) callback c.

Definition del (name : dn_input) (controls : list Control) (callback : option Callback)
  : Act :=
  fun c => submit (del_request dn_parse (strictDN c) name controls)
             (ExpectCodes [LDAP_SUCCESS]) callback c.

Definition modify (name : dn_input) (change : change_arg) (controls : list Control)
    (callback : option Callback) : Act :=
  fun c => submit (modify_request dn_parse (strictDN c) name change controls)
             (ExpectCodes [LDAP_SUCCESS]) callback c.

End Operations.

End Client.

(** ** Optional arguments and callback wrappers (lib/client/client.js) *)

Module Arguments.
Import JS Requests Client.

(** *** [validateControls] *)

(** An element of a controls array: [c instanceof Control ||
    c instanceof LdapControl] holds of [IsControl] only. *)
Inductive control_item : Type :=
| IsControl (c : Control)
| NotControl (v : value).

(** What a caller passes in the [controls] position of an operation. *)
Inductive controls_arg : Type :=
| ControlArray (items : list control_item)
| ControlOne (c : Control)             (* a single control, not in an array *)
| ControlFunction (callback : Callback)  (* [typeof controls === 'function'] *)
| ControlUndefined                     (* the argument was left out *)
| ControlOther (v : value).            (* any other value that is not an array *)

Definition controls_error : error := Err KTypeError "controls must be [Control]".

Definition validateControls (controls : controls_arg) : result (list Control) :=
  match controls with
  | ControlArray items =>
      rmap_list (fun c => match c with
                          | IsControl c => Ok c
                          | NotControl _ => Throw controls_error
                          end) items
  | ControlOne c => Ok [c]
  | _ => Throw controls_error
  end.

(** The prologue every operation shares:
    [if (typeof controls === 'function') { callback = controls; controls = [] }
     else { controls = validateControls(controls) }], then
    [callback || getPromiseCallback()]. *)
Definition optional_arguments (controls : controls_arg) (callback : option Callback)
  : result (list Control * Callback) :=
  match controls with
  | ControlFunction cb => Ok ([], cb)
  | _ => cs <-- validateControls controls ;;; Ok (cs, or_promise callback)
  end.

Section Calls.

Variable dn_parse : dn_input -> result DN.

(** [del (name, controls, callback)] as a caller invokes it. *)
Definition del_call (name : dn_input) (controls : controls_arg) (callback : option Callback)
  : Act :=
  fun c =>
    match (_ <-- assert_defined name "name" ;;; optional_arguments controls callback) with
    | Throw e => Thrown e c
    | Ok (cs, cb) => del dn_parse name cs (Some cb) c
    end.

(** [abandon (messageID, controls, callback)]; [assert.number] holds of
    every [messageID] of the model. *)
Definition abandon_call (messageID : Z) (controls : controls_arg)
    (callback : option Callback) : Act :=
  fun c =>
    match optional_arguments controls callback with
    | Throw e => Thrown e c
    | Ok (cs, cb) => abandon messageID cs (Some cb) c
    end.

End Calls.

(** *** The callback of [compare] *)

(** What the caller's own callback is handed: a literal of the wrapper,
    or one of the wrapper's own arguments passed on as it came. *)
Inductive UserArg : Type :=
| UNull
| UBool (b : bool)
| UArg (a : CArg).

(** Truthiness of an argument of a callback. *)
Definition arg_truthy (a : CArg) : bool :=
  match a with
  | CUndefined | CNull => false
  | _ => true
  end.

(** The [n]th argument of a call; a missing argument is [undefined]. *)
Definition nth_arg (n : nat) (args : list CArg) : CArg := nth n args CUndefined.

(** [res.status === code]; reading a property of [undefined] or [null]
    throws, and only a result message has a [status]. *)
Definition status_is (code : Z) (res : CArg) : result bool :=
  match res with
  | CUndefined =>
      Throw (Err KTypeError "Cannot read properties of undefined (reading 'status')")
  | CNull =>
      Throw (Err KTypeError "Cannot read properties of null (reading 'status')")
  | CMsg (ResultMessage r) =>
      Ok (match rstatus r with
          | StatusCode n => (n =? code)%Z
          | StatusUnbind => false
          end)
  | _ => Ok false
  end.

(** The function [compare] hands to the dispatcher in place of the
    caller's callback, [function (err, res) { ... }]: what it calls the
    caller's callback with. *)
Definition compare_callback (args : list CArg) : result (list UserArg) :=
  let err := nth_arg 0 args in
  let res := nth_arg 1 args in
  if arg_truthy err then Ok [UArg err]
  else b <-- status_is LDAP_COMPARE_TRUE res ;;; Ok [UNull; UBool b; UArg res].

(** *** The page size of a paged search *)

(** [x > n] for an option that may be missing ([undefined > n] is false). *)
Definition exceeds (x : option Z) (n : Z) : bool :=
  match x with
  | Some v => (n <? v)%Z
  | None => false
  end.

(** [options.paged.pageSize > 0 ? options.paged.pageSize
     : options.sizeLimit > 1 ? options.sizeLimit - 1 : 100]. *)
Definition page_size (pageSize sizeLimit : option Z) : Z :=
  if exceeds pageSize 0 then match pageSize with Some v => v | None => 100 end
  else if exceeds sizeLimit 1 then match sizeLimit with Some v => v - 1 | None => 100 end
  else 100%Z.

(** [controls.find(c => c.type === PagedResultsControl.OID)]. *)
Definition is_paged (c : Control) : bool := ctype c =? PagedResult.PagedResultsOID.

(** [pagedControl.value.cookie = null] on the control object [find]
    returned: the first paging control of the list. *)
Fixpoint reset_cookie (controls : list Control) : list Control :=
  match controls with
  | [] => []
  | c :: rest =>
      if is_paged c
      then {| ctype := ctype c; csize := csize c; ccookie := None |} :: rest
      else c :: reset_cookie rest
  end.

(** [options.paged], as [search] has normalised it: [None] when it is
    falsy, and otherwise the [pageSize] of the object (missing when
    [paged] is [true] or has none). *)
Definition paged_option : Type := option (option Z).

(** The controls of the request a search sends first, and whether the
    search is paged. *)
Definition search_controls (paged : paged_option) (sizeLimit : option Z)
    (controls : list Control) : list Control * bool :=
  match find is_paged controls, paged with
  | Some _, _ => (reset_cookie controls, true)
  | None, Some pageSize =>
      (controls ++ [{| ctype := PagedResult.PagedResultsOID;
                       csize := page_size pageSize sizeLimit;
                       ccookie := None |}], true)
  | None, None => (controls, false)
  end.

(** *** The [onSent] callbacks of [search] *)

(** What a search does to the outside when its request has been handed to
    the socket, or could not be. *)
Inductive SearchEffect : Type :=
| CallerCallback (err res : CArg)                     (* [callback(err, res)] *)
| ResultEvent (em : Emitter) (name : string) (data : CArg).  (* [em.emit(name, data)] *)

(** [onSent] of a paged search: [searchResult] is the stream the caller
    gets, [called] the [callback.called] flag of the [once] wrapper.  It
    returns the flag as the call leaves it. *)
Definition paged_onSent (searchResult : Emitter) (args : list CArg) (called : bool)
  : bool * list SearchEffect :=
  let err := nth_arg 0 args in
  let first := if called then [] else [CallerCallback err (CEmitter searchResult)] in
  (true,
   first ++ (if arg_truthy err then [ResultEvent searchResult "error" err]
             else [ResultEvent searchResult "searchRequest" (nth_arg 2 args)])).

(** Every call of [onSent] a paged search sees, one per page request. *)
Definition paged_onSents (searchResult : Emitter) (calls : list (list CArg))
  : bool * list SearchEffect :=
  fold_left (fun st args =>
               let (called, out) := paged_onSent searchResult args (fst st) in
               (called, snd st ++ out))
    calls (false, []).

(** [onSent] of a search that is not paged:
    [callback(err, emitter); emitter.emit('searchRequest', request)], where
    [emitter] is the second argument the dispatcher passed. *)
Definition plain_onSent (args : list CArg) : list SearchEffect * option error :=
  let err := nth_arg 0 args in
  let emitter := nth_arg 1 args in
  ([CallerCallback err emitter] ++
     match emitter with
     | CEmitter em => [ResultEvent em "searchRequest" (nth_arg 2 args)]
     | _ => []
     end,
   match emitter with
   | CEmitter _ => None
   | CUndefined =>
       Some (Err KTypeError "Cannot read properties of undefined (reading 'emit')")
   | CNull => Some (Err KTypeError "Cannot read properties of null (reading 'emit')")
   | _ => Some (Err KTypeError "emitter.emit is not a function")
   end).

End Arguments.

(** ** [modifyDN] *)

Module ModifyDN.
Import JS Requests.

(** Modelled from the spec: the ModifyDNRequest (lib/messages is not among
    the sources; section 4.7 leaves building the message to the codec).
    The record holds the options [modifyDN] calls the constructor with,
    [entry], [deleteOldRdn] and [controls], and the two properties it
    assigns afterwards, [newRdn] and [newSuperior]; whatever the
    constructor checks or does with them is not modelled. *)
Record Request : Type := {
  entry : dn_ref;
  deleteOldRdn : bool;
  newRdn : DN;
  newSuperior : option DN;     (* [None] when the property is never assigned *)
  controls : list Control
}.

Section Build.

(** [dn.parse], from lib/dn.js. *)
Variable dn_parse : dn_input -> result DN.

(** The request [modifyDN (name, newName, controls, callback)] dispatches.
    [ensureDN(name)] is called without its second argument, [newDN.length]
    is the number of RDNs, and [newDN.rdns.shift()] takes the first RDN off
    the parsed name before that name becomes [newSuperior]; an RDN is held
    as the string its [toString] gives. *)
Definition modifyDN_request (name : dn_input) (newName : string) (controls : list Control)
  : result Request :=
  _ <-- assert_defined name "name" ;;;
  DN <-- ensureDN dn_parse name false ;;;
  newDN <-- dn_parse (InValue (VStr newName)) ;;;
  if (List.length (rdns newDN) =? 1)%nat
  then Ok {| entry := DN; deleteOldRdn := true; newRdn := newDN;
             newSuperior := None; controls := controls |}
  else match rdns newDN with
       | [] => Throw (Err KTypeError
                        "Cannot read properties of undefined (reading 'toString')")
       | first :: rest =>
           rdn <-- dn_parse (InValue (VStr first)) ;;;
           Ok {| entry := DN; deleteOldRdn := true; newRdn := rdn;
                 newSuperior := Some {| rdns := rest |}; controls := controls |}
       end.

End Build.

End ModifyDN.

(** ** Connecting: servers, failures and the promise of [createClient] *)

Module Connect.

(** *** [getNextServer] *)

Section Servers.

Variable server : Type.

(** [getNextServer], local to [connect]: [urls] is [self.urls] and the
    index [self._nextServer], a number; [None] stands for [NaN], which
    [% 0] gives and which indexes nothing. *)
Definition getNextServer (urls : list server) (_nextServer : option nat)
  : option server * option nat :=
  (match _nextServer with
   | Some i => nth_error urls i
   | None => None
   end,
   match _nextServer, List.length urls with
   | Some i, S n => Some ((i + 1) mod S n)
   | _, _ => None
   end).

(** [k] calls in a row: the servers they return, and the index left. *)
Fixpoint servers (k : nat) (urls : list server) (_nextServer : option nat)
  : list (option server) * option nat :=
  match k with
  | O => ([], _nextServer)
  | S k' =>
      let (s, next) := getNextServer urls _nextServer in
      let (rest, last) := servers k' urls next in
      (s :: rest, last)
  end.

End Servers.

(** *** The [fail] handler of the backoff *)

(** The error a connection attempt ended with. *)
Record ConnectError : Type := {
  is_timeout : bool;         (* [err instanceof ConnectionTimeout] *)
  code : option string;      (* [err.code] *)
  cmessage : string          (* [err.message] *)
}.

Inductive FailData : Type :=
| FailString (s : string)
| FailError (e : ConnectError).

Definition data_truthy (d : FailData) : bool :=
  match d with
  | FailString s => negb (s =? "")
  | FailError _ => true
  end.

(** [dispatchError (event, data)], local to [onBackoffFail]: the event and
    the data it hands to [self.emit].  [listenerCount] is
    [self.listenerCount]. *)
Definition dispatchError (listenerCount : string -> nat) (event : string) (data : FailData)
  : string * FailData :=
  if negb (event =? "error") && (listenerCount event =? 0)%nat && data_truthy data
  then ("error",
        match data with
        | FailString s => FailString (event ++ ": " ++ s)%string
        | FailError e =>
            if negb (cmessage e =? "")
            then FailError {| is_timeout := is_timeout e; code := code e;
                              cmessage := (event ++ ": " ++ cmessage e)%string |}
            else data
        end)
  else (event, data).

(** [onBackoffFail (err)]; [None] is a falsy [err]. *)
Definition onBackoffFail (listenerCount : string -> nat) (err : option ConnectError)
  : string * FailData :=
  match err with
  | Some e =>
      if is_timeout e then dispatchError listenerCount "connectTimeout" (FailError e)
      else if match code e with Some c => c =? "ECONNREFUSED" | None => false end
           then dispatchError listenerCount "connectRefused" (FailError e)
           else dispatchError listenerCount "error" (FailError e)
  | None => dispatchError listenerCount "error" (FailString "max retries")
  end.

(** *** The promise of [createClient] (lib/promises/index.js) *)

(** The argument of an event of the client. *)
Inductive EventArg : Type :=
| ArgSocket (socket : nat)
| ArgError (e : error)
| ArgNone.

Definition event_truthy (a : EventArg) : bool :=
  match a with
  | ArgSocket _ | ArgError _ => true
  | ArgNone => false
  end.

Inductive ClientEmit : Type :=
| EmitError (a : EventArg)
| EmitConnect (a : EventArg)     (* [afterSetup] emits [connect] with the socket *)
| EmitOther (name : string).

Inductive Settled : Type :=
| StillPending
| FulfilledWithClient
| RejectedWithArg (reason : EventArg).

(** The promise and the two [once] listeners that settle it. *)
Record Waiting : Type := {
  once_error : bool;      (* [once('error', reject)] is still attached *)
  once_connect : bool;
  outcome : Settled
}.

Definition createClient : Waiting :=
  {| once_error := true; once_connect := true; outcome := StillPending |}.

(** Settling a settled promise does nothing. *)
Definition settle (s new : Settled) : Settled :=
  match s with StillPending => new | _ => s end.

Definition on_emit (w : Waiting) (ev : ClientEmit) : Waiting :=
  match ev with
  | EmitError a =>
      if once_error w
      then {| once_error := false; once_connect := once_connect w;
              outcome := settle (outcome w) (RejectedWithArg a) |}
      else w
  | EmitConnect a =>
      if once_connect w
      then {| once_error := once_error w; once_connect := false;
              outcome := settle (outcome w)
                           (if event_truthy a then RejectedWithArg a
                            else FulfilledWithClient) |}
      else w
  | EmitOther _ => w
  end.

Definition after_events (evs : list ClientEmit) : Waiting :=
  fold_left on_emit evs createClient.

(** What the client itself emits as [connect]: always the socket. *)
Definition from_client (ev : ClientEmit) : Prop :=
  match ev with
  | EmitConnect (ArgSocket _) => True
  | EmitConnect _ => False
  | _ => True
  end.

End Connect.

(** * Properties *)

(** ** [modify]: itemizing a plain change object *)

Module RequestsFacts.
Import JS Requests.

Lemma map_index_length {A B} (f : A -> nat -> B) (l : list A) (i : nat) :
  List.length (map_index f i l) = List.length l.
Proof.
  revert i; induction l as [|x rest IH]; intro i; simpl.
  - reflexivity.
  - now rewrite IH.
Qed.

(** What [changesFromObject] returns on an object [{operation, modification}]
    whose modification is an object that is not in the [{type, vals}]
    shape: the branch that itemizes. *)
Lemma changesFromObject_itemizes (op : value) (attrs : list (string * value)) :
  truthy op = true ->
  ((List.length attrs =? 2)%nat && (typeof (assoc "type" attrs) =? "string")
     && isArray (assoc "vals" attrs)) = false ->
  changesFromObject (VObj [("operation", op); ("modification", VObj attrs)])
  = Ok (map_index
          (fun k i => {| operation := op;
                         modification := VObj [(toString k, VNum (Z.of_nat i))] |})
          0 (map entry_pair attrs)).
Proof.
  intros Hop Hshape.
  unfold changesFromObject; simpl.
  rewrite Hop; simpl.
  rewrite length_map, Hshape.
  unfold or_else; rewrite Hop.
  reflexivity.
Qed.

(** One Change per attribute: this much of the documented itemization the
    code does deliver. *)
Lemma changesFromObject_one_per_attribute (op : value) (attrs : list (string * value)) :
  truthy op = true ->
  ((List.length attrs =? 2)%nat && (typeof (assoc "type" attrs) =? "string")
     && isArray (assoc "vals" attrs)) = false ->
  exists changes,
    changesFromObject (VObj [("operation", op); ("modification", VObj attrs)]) = Ok changes
    /\ List.length changes = List.length attrs.
Proof.
  intros Hop Hshape.
  eexists; split.
  - apply changesFromObject_itemizes; assumption.
  - now rewrite map_index_length, length_map.
Qed.

(** A change replacing two attributes, as a caller writes it:
    [{ operation: 'replace', modification: { cn: ['foo'], sn: ['bar', 'baz'] } }]. *)
Definition replace_cn_sn : value :=
  VObj [("operation", VStr "replace");
        ("modification", VObj [("cn", VArr [VStr "foo"]);
                               ("sn", VArr [VStr "bar"; VStr "baz"])])].

(** C2 (code defect).  [modify(dn, change)] with the plain object
    [replace_cn_sn] builds a ModifyRequest with one Change per attribute,
    but no Change pairs an attribute name with its values: the [map]
    callback receives the [[name, values]] pair as its first parameter and
    the index as its second, so the first Change modifies a property named
    'cn,foo' with value 0 and the second one named 'sn,bar,baz' with value
    1.  The result differs from the per-attribute itemization
    [itemize_by_attribute] that the comment in the code announces. *)
Theorem modify_plain_object_pairs_entry_with_index :
  forall (dn_parse : dn_input -> result DN) (controls : list Control),
    modify_request dn_parse false (InValue (VStr "cn=x,dc=y"))
      (OneChange (ItemPlain replace_cn_sn)) controls
    = Ok (ModifyRequest (DnString "cn=x,dc=y")
            [ {| operation := VStr "replace";
                 modification := VObj [("cn,foo", VNum 0)] |};
              {| operation := VStr "replace";
                 modification := VObj [("sn,bar,baz", VNum 1)] |} ]
            controls)
    /\ itemizeChanges (OneChange (ItemPlain replace_cn_sn))
       <> Ok (itemize_by_attribute (VStr "replace")
                [("cn", VArr [VStr "foo"]); ("sn", VArr [VStr "bar"; VStr "baz"])]).
Proof.
  intros dn_parse controls; split.
  - reflexivity.
  - intro H. vm_compute in H. discriminate H.
Qed.

(** ** [ensureDN] *)

(** C10.  A DN object handed to [ensureDN] comes back as the [dn] module
    object, whatever [strictDN] is, so [add], [compare], [del] and [modify]
    call the constructor of their request with the module object as the
    entry, in place of the caller's DN: the request is built from the
    module object.  Every other input is handed to [dn.parse] when [strictDN] is
    true; when it is false a string is passed through unchanged and
    anything else is rejected as an invalid DN. *)
Theorem ensureDN_DN_object_yields_dn_module :
  forall (dn_parse : dn_input -> result DN) (d : DN) (strict : bool),
    ensureDN dn_parse (InDN d) strict = Ok DnModule
    /\ (forall entry controls,
           add_request dn_parse strict (InDN d) entry controls
           = (attrs <-- entry_attributes entry ;;;
              new_request (AddRequest DnModule attrs controls)))
    /\ (forall attr value controls,
           compare_request dn_parse strict (InDN d) attr value controls
           = new_request (CompareRequest DnModule attr value controls))
    /\ (forall controls,
           del_request dn_parse strict (InDN d) controls
           = new_request (DeleteRequest DnModule controls))
    /\ (forall change controls,
           modify_request dn_parse strict (InDN d) change controls
           = (changes <-- itemizeChanges change ;;;
              new_request (ModifyRequest DnModule changes controls)))
    /\ (forall v,
           ensureDN dn_parse (InValue v) true
           = (parsed <-- dn_parse (InValue v) ;;; Ok (DnObject parsed)))
    /\ (forall s, ensureDN dn_parse (InValue (VStr s)) false = Ok (DnString s))
    /\ (forall v, (forall s, v <> VStr s) ->
           ensureDN dn_parse (InValue v) false = Throw (Err KError "invalid DN")).
Proof.
  intros dn_parse d strict.
  split; [reflexivity|].
  split.
  { intros entry controls. unfold add_request; simpl.
    destruct (entry_attributes entry); reflexivity. }
  split; [reflexivity|].
  split; [reflexivity|].
  split.
  { intros change controls. unfold modify_request; simpl.
    destruct (itemizeChanges change); reflexivity. }
  split; [reflexivity|].
  split; [reflexivity|].
  intros v Hv. unfold ensureDN; simpl.
  destruct v; try reflexivity.
  exfalso; eapply Hv; reflexivity.
Qed.

End RequestsFacts.

(** ** The corked emitter *)

Module SearchResultFacts.
Import JS SearchResult.

(** Calling listeners changes nothing but the registrations. *)
Lemma react_frame (l : listener) (s : t) :
  eventQueue (react l s) = eventQueue s /\ hook (react l s) = hook s
  /\ scheduled (react l s) = scheduled s /\ delivered (react l s) = delivered s
  /\ iterators (react l s) = iterators s.
Proof. destruct l; simpl; repeat split. Qed.

Lemma reacts_frame (regs : list registration) (s : t) :
  let s' := fold_left (fun acc r => react (rlistener r) acc) regs s in
  eventQueue s' = eventQueue s /\ hook s' = hook s
  /\ scheduled s' = scheduled s /\ delivered s' = delivered s
  /\ iterators s' = iterators s.
Proof.
  revert s; induction regs as [|r rest IH]; intro s; simpl.
  - repeat split.
  - destruct (IH (react (rlistener r) s)) as (Hq & Hh & Hs & Hd & Hi).
    destruct (react_frame (rlistener r) s) as (Hq' & Hh' & Hs' & Hd' & Hi').
    cbv zeta in *. repeat split; congruence.
Qed.

(** [EventEmitter.prototype.emit] records the delivery and leaves the cork
    and the scheduler alone, also when it throws. *)
Lemma ee_emit_frame (ev : event) (s : t) :
  let s' := state_of (ee_emit ev s) in
  eventQueue s' = eventQueue s
  /\ scheduled s' = scheduled s
  /\ hook s' = hook s
  /\ delivered s' = delivered s ++ [(ev, listeners (ename ev) s)].
Proof.
  unfold ee_emit, listeners.
  destruct (listening (ename ev) s) as [|r regs] eqn:Hregs.
  - destruct (ename ev =? "error"); simpl; repeat split.
  - cbv zeta. unfold state_of.
    match goal with
    | |- context [fold_left ?f ?l ?a] =>
        pose proof (reacts_frame l a) as H; cbv zeta in H;
        destruct H as (Hq & Hh & Hs & Hd & _); remember (fold_left f l a) as s'
    end.
    rewrite Hq, Hs, Hh, Hd. simpl. repeat split.
Qed.

Lemma ee_emit_returns (ev : event) (s : t) :
  (ename ev =? "error") = false -> exists s', ee_emit ev s = Done s'.
Proof.
  intro Hname. unfold ee_emit.
  destruct (listening (ename ev) s).
  - rewrite Hname. eexists; reflexivity.
  - eexists; reflexivity.
Qed.

(** An [error] event is thrown exactly by a stream that is uncorked and
    has no [error] listener; a corked stream buffers it. *)
Lemma error_event_outcome (args : list arg) (s : t) :
  emit {| ename := "error"; eargs := args |} s
  = if deaf s
    then Thrown (first_error args) (state_of (emit {| ename := "error"; eargs := args |} s))
    else Done (state_of (emit {| ename := "error"; eargs := args |} s)).
Proof.
  unfold emit, deaf. destruct (eventQueue s) as [q|]; [reflexivity|].
  unfold ee_emit. simpl ename.
  destruct (listening "error" s); reflexivity.
Qed.

(** Order is kept: whatever is emitted goes behind everything emitted
    before it, delivered or buffered. *)
Lemma emitted_emit (ev : event) (s : t) :
  (ename ev =? "newListener") = false ->
  emitted (state_of (emit ev s)) = emitted s ++ [ev].
Proof.
  intro Hname. unfold emit, emitted.
  destruct (eventQueue s) as [q|] eqn:Hq.
  - rewrite Hname; simpl. now rewrite app_assoc.
  - destruct (ee_emit_frame ev s) as (Hq' & _ & _ & Hd). cbv zeta in *.
    rewrite Hq', Hd, Hq, map_app. simpl. now rewrite !app_nil_r.
Qed.

(** A turn of the event loop moves the oldest buffered event to the
    deliveries and never reorders. *)
Lemma emitted_tick (s : t) : emitted (state_of (tick s)) = emitted s.
Proof.
  unfold tick. destruct (scheduled s) eqn:Hs; [|reflexivity].
  unfold emitOneEvent. simpl eventQueue.
  destruct (eventQueue s) as [[|ev rest]|] eqn:Hq.
  - unfold emitted; simpl. now rewrite Hq.
  - destruct (ee_emit_frame ev (set_queue (Some rest) (set_scheduled false s)))
      as (Hq' & _ & _ & Hd). cbv zeta in *. simpl in Hq', Hd.
    destruct (ee_emit ev (set_queue (Some rest) (set_scheduled false s))) as [s1|e s1];
      simpl in *.
    + rewrite Hq'. unfold emitted.
      destruct rest as [|ev' rest']; simpl; rewrite Hd, Hq, map_app; simpl;
        rewrite <- app_assoc; simpl; try rewrite Hq'; reflexivity.
    + unfold emitted. rewrite Hq', Hd, Hq, map_app. simpl.
      now rewrite <- app_assoc.
  - unfold emitted; simpl. now rewrite Hq.
Qed.

(** Once the cork is out it stays out, and an emit is delivered at once. *)
Lemma uncorked_emit_is_immediate (ev : event) (s : t) :
  eventQueue s = None ->
  eventQueue (state_of (emit ev s)) = None
  /\ delivered (state_of (emit ev s)) = delivered s ++ [(ev, listeners (ename ev) s)].
Proof.
  intro Hq. unfold emit. rewrite Hq.
  destruct (ee_emit_frame ev s) as (Hq' & _ & _ & Hd). cbv zeta in *.
  split; congruence.
Qed.

(** The drain of a non-empty queue: [n] buffered events, none of them an
    [error], are delivered in [n] turns, in the order they were emitted,
    and the last turn removes the cork. *)
Lemma drain_replays_in_order (evs : list event) :
  forall s,
    evs <> [] ->
    eventQueue s = Some evs ->
    scheduled s = true ->
    Forall (fun ev => (ename ev =? "error") = false) evs ->
    exists s',
      ticks (List.length evs) s = Done s'
      /\ map fst (delivered s') = map fst (delivered s) ++ evs
      /\ eventQueue s' = None
      /\ scheduled s' = false.
Proof.
  induction evs as [|ev rest IH]; intros s Hne Hq Hs Hall; [congruence|].
  inversion Hall as [|? ? Hev Hrest]; subst.
  simpl ticks. unfold tick at 1. rewrite Hs.
  unfold emitOneEvent. simpl eventQueue. rewrite Hq.
  destruct (ee_emit_returns ev (set_queue (Some rest) (set_scheduled false s)) Hev)
    as [s1 Hs1].
  destruct (ee_emit_frame ev (set_queue (Some rest) (set_scheduled false s)))
    as (Hq1 & Hsch1 & _ & Hd1).
  rewrite Hs1 in *. cbv zeta in *. simpl in Hq1, Hsch1, Hd1. simpl andThen.
  rewrite Hq1.
  destruct rest as [|ev' rest'].
  - simpl. eexists; split; [reflexivity|]. simpl.
    rewrite Hd1, map_app, Hsch1. auto.
  - simpl andThen.
    destruct (IH (set_scheduled true s1)) as (s' & Hrun & Hdel & Hq' & Hsch');
      [discriminate | exact Hq1 | reflexivity | exact Hrest |].
    exists s'. split; [exact Hrun|]. simpl in Hdel.
    rewrite Hdel, Hd1, map_app. simpl. rewrite <- app_assoc. auto.
Qed.

(** Attaching a listener appends it to the listeners of its own event and
    leaves the listeners of every other event alone. *)
Lemma listeners_attach (name : string) (l : listener) (once_ : bool) (n : string) (s : t) :
  listeners n (attach name l once_ s)
  = listeners n s ++ (if name =? n then [l] else []).
Proof.
  unfold listeners, listening, attach.
  destruct (hook s); simpl; rewrite filter_app, map_app; simpl;
    destruct (name =? n); reflexivity.
Qed.

End SearchResultFacts.

Module StreamClaims.
Import JS SearchResult SearchResultFacts.

(** C9.  When the first listener is attached to a corked emitter whose
    queue is empty, the drain is scheduled all the same; if nothing is
    emitted before it runs, [self.eventQueue.shift()()] calls [undefined]
    and throws a TypeError.  The emitter is left corked (its queue is still
    the empty array, not [false]), with no further drain scheduled. *)
Theorem first_listener_on_empty_queue_drain_throws :
  forall (s : t) (name : string) (l : listener) (once_ : bool),
    hook s = true ->
    eventQueue s = Some [] ->
    scheduled (attach name l once_ s) = true
    /\ exists stuck,
         tick (attach name l once_ s)
         = Thrown (Err KTypeError "self.eventQueue.shift(...) is not a function") stuck
         /\ eventQueue stuck = Some []
         /\ scheduled stuck = false
         /\ delivered stuck = delivered s.
Proof.
  intros s name l once_ Hhook Hq.
  unfold attach, tick. rewrite Hhook. simpl.
  split; [reflexivity|].
  unfold emitOneEvent. simpl. rewrite Hq.
  eexists; split; [reflexivity|]. simpl. auto.
Qed.

(** A fresh stream whose caller attaches a [searchEntry] listener before
    the server has answered. *)
Lemma first_listener_on_empty_queue_drain_throws_witness :
  exists stuck,
    tick (on "searchEntry" (UserListener 0) create)
    = Thrown (Err KTypeError "self.eventQueue.shift(...) is not a function") stuck
    /\ eventQueue stuck = Some [].
Proof.
  destruct (first_listener_on_empty_queue_drain_throws create "searchEntry"
              (UserListener 0) false eq_refl eq_refl) as [_ [stuck [Htick [Hq _]]]].
  exists stuck. split; [exact Htick | exact Hq].
Defined.

(** C7 (code defect).  A listener attached before anything was emitted:
    the drain throws on the empty queue (see C9) and never clears
    [eventQueue], so an event emitted afterwards is buffered, and since no
    drain is scheduled any more, no number of turns of the event loop ever
    delivers it. *)
Theorem emit_after_empty_drain_is_buffered_for_ever :
  forall (name : string) (l : listener) (ev : event) (n : nat),
    (ename ev =? "newListener") = false ->
    exists s,
      emit ev (state_of (tick (on name l create))) = Done s
      /\ eventQueue s = Some [ev]
      /\ delivered s = []
      /\ ticks n s = Done s.
Proof.
  intros name l ev n Hname.
  unfold emit; simpl. rewrite Hname; simpl.
  eexists; split; [reflexivity|]. simpl.
  repeat split.
  induction n as [|n IH]; simpl; [reflexivity | exact IH].
Qed.

(** An [end] emitted after the failed drain is still buffered five turns
    of the event loop later. *)
Lemma emit_after_empty_drain_is_buffered_for_ever_witness :
  exists s,
    emit {| ename := "end"; eargs := [] |}
      (state_of (tick (on "end" (UserListener 0) create))) = Done s
    /\ eventQueue s = Some [ {| ename := "end"; eargs := [] |} ]
    /\ delivered s = []
    /\ ticks 5 s = Done s.
Proof.
  exact (emit_after_empty_drain_is_buffered_for_ever "end" (UserListener 0)
           {| ename := "end"; eargs := [] |} 5 eq_refl).
Defined.

(** *** [entries] and [toArray] *)

Definition search_entry (dn : string) : event :=
  {| ename := "searchEntry";
     eargs := [AMessage (SearchEntry [("objectName", VStr dn)])] |}.

Definition search_done : event :=
  {| ename := "end";
     eargs := [AMessage (ResultMessage {| rtype := "SearchResultDone"; rmessageID := 1;
                                          rstatus := StatusCode 0; rcontrols := [] |})] |}.

Definition emit_all (evs : list event) (s : t) : t :=
  fold_left (fun acc ev => state_of (emit ev acc)) evs s.

(** The stream of a search whose server returned three entries, then done. *)
Definition three_entries_then_done : t :=
  emit_all [search_entry "cn=a,dc=x"; search_entry "cn=b,dc=x"; search_entry "cn=c,dc=x";
            search_done] create.

(** The emitter's half of the scenario does hold: with a listener attached,
    four turns of the event loop deliver the three entries and then [end]. *)
Lemma three_entries_then_end_are_delivered :
  exists s,
    ticks 4 (on "searchEntry" (UserListener 0) three_entries_then_done) = Done s
    /\ map fst (delivered s)
       = [search_entry "cn=a,dc=x"; search_entry "cn=b,dc=x"; search_entry "cn=c,dc=x";
          search_done]
    /\ eventQueue s = None.
Proof.
  exists (state_of (ticks 4 (on "searchEntry" (UserListener 0) three_entries_then_done))).
  split; [vm_compute; reflexivity|].
  split; vm_compute; reflexivity.
Qed.

(** [inject] settles the promise with the [value] property of what it is
    given, which a SearchEntry does not have. *)
Lemma inject_resolves_value_property (fields : list (string * value)) :
  inject ErrNone (Some (AMessage (SearchEntry fields))) [Pending]
  = Ok [Resolved (assoc "value" fields); Pending].
Proof. reflexivity. Qed.

(** C1 (code defect).  [toArray()] never resolves to the entries.  Called
    without an argument it attaches its listeners and then reads
    [options.includeSearchReferences] of [undefined]: the promise is
    rejected with a TypeError, also for the stream of three entries and a
    done result.  Called with an options object, the first [next()] of the
    iterator runs the generator body with [this] undefined and rejects
    with a TypeError as well. *)
Theorem toArray_rejects_with_TypeError :
  (forall s,
      fst (toArray None s)
      = RejectedWith
          (ReasonError
             (Err KTypeError
                "Cannot read properties of undefined (reading 'includeSearchReferences')"))
      /\ listeners "searchEntry" (snd (toArray None s))
         = listeners "searchEntry" s ++ [InjectEntry (iterators s)])
  /\ (forall o s,
         fst (toArray (Some o) s)
         = RejectedWith
             (ReasonError
                (Err KTypeError "Cannot read properties of undefined (reading 'eventStream')")))
  /\ (forall entries, fst (toArray None three_entries_then_done) <> Fulfilled entries).
Proof.
  split; [|split].
  - intro s. split; [reflexivity|].
    unfold toArray, entries, on; simpl snd.
    rewrite !listeners_attach; simpl.
    rewrite !app_nil_r. reflexivity.
  - intros o s. reflexivity.
  - intros entries H. discriminate H.
Qed.

End StreamClaims.

(** ** The end-of-page handler and the stream *)

Module PagedClaims.
Import JS SearchResult SearchResultFacts PagedResult.

Lemma filter_implied {A} (f g : A -> bool) (l : list A) :
  (forall x, f x = true -> g x = true) ->
  filter f (filter g l) = filter f l.
Proof.
  intro H. induction l as [|x rest IH]; simpl; [reflexivity|].
  destruct (g x) eqn:Hg; simpl.
  - now rewrite IH.
  - destruct (f x) eqn:Hf; [|exact IH].
    apply H in Hf. congruence.
Qed.

Lemma listening_removeAll (n m : string) (s : SearchResult.t) :
  (n =? m) = false ->
  listening n (removeAllListeners m s) = listening n s.
Proof.
  intro Hnm. unfold listening, removeAllListeners; simpl.
  apply filter_implied. intros r Hr.
  apply String.eqb_eq in Hr. rewrite Hr, Hnm. reflexivity.
Qed.

Lemma listening_react (l : listener) (s : SearchResult.t) :
  listening "pageError" (react l s) = listening "pageError" s.
Proof.
  destruct l; simpl; try reflexivity.
  now rewrite !listening_removeAll.
Qed.

Lemma listening_reacts (regs : list registration) (s : SearchResult.t) :
  listening "pageError" (fold_left (fun acc r => react (rlistener r) acc) regs s)
  = listening "pageError" s.
Proof.
  revert s; induction regs as [|r rest IH]; intro s; simpl; [reflexivity|].
  now rewrite IH, listening_react.
Qed.

(** Emitting another event leaves the [pageError] listeners in place. *)
Lemma pageError_listeners_kept (ev : event) (s : SearchResult.t) :
  ("pageError" =? ename ev) = false ->
  listeners "pageError" (SearchResult.state_of (emit ev s)) = listeners "pageError" s.
Proof.
  intro Hname. unfold listeners. f_equal.
  unfold emit.
  destruct (eventQueue s); [destruct (negb (ename ev =? "newListener")); [reflexivity|]|];
    unfold ee_emit;
    (destruct (listening (ename ev) s) as [|r regs];
     [ destruct (ename ev =? "error"); reflexivity
     | unfold SearchResult.state_of; rewrite listening_reacts;
       unfold listening; simpl; apply filter_implied; intros x Hx;
       apply String.eqb_eq in Hx; rewrite Hx, Hname; reflexivity ]).
Qed.

Lemma emit_returns (ev : event) (s : SearchResult.t) :
  (ename ev =? "error") = false -> exists s', emit ev s = SearchResult.Done s'.
Proof.
  intro Hname. unfold emit.
  destruct (eventQueue s); [destruct (negb (ename ev =? "newListener"))|];
    try (eexists; reflexivity); now apply ee_emit_returns.
Qed.

Lemma emit_to_state (name : string) (args : list arg) (s : state) :
  emitter (state_of (emit_to name args s))
  = SearchResult.state_of (emit {| ename := name; eargs := args |} (emitter s))
  /\ control (state_of (emit_to name args s)) = control s
  /\ requested (state_of (emit_to name args s)) = requested s.
Proof.
  unfold emit_to. destruct (emit _ (emitter s)); simpl; auto.
Qed.

Lemma emit_to_returns (name : string) (args : list arg) (s : state) :
  (name =? "error") = false -> exists s', emit_to name args s = Done s'.
Proof.
  intro Hname. unfold emit_to.
  destruct (emit_returns {| ename := name; eargs := args |} (emitter s) Hname) as [e He].
  rewrite He. eexists; reflexivity.
Qed.

End PagedClaims.

(** ** The client *)

Module ClientFacts.
Import JS Requests Client.

(** *** Sequencing *)

Lemma seq_done (a b : Act) (c c1 : t) : a c = Done c1 -> (a ;; b) c = b c1.
Proof. intro H. unfold seq. now rewrite H. Qed.

Lemma seq_inv (a b : Act) (c c2 : t) :
  (a ;; b) c = Done c2 -> exists c1, a c = Done c1 /\ b c1 = Done c2.
Proof.
  unfold seq. destruct (a c) as [c1|e c1]; intro H; [|discriminate].
  exists c1; auto.
Qed.

(** *** The object store *)

Lemma nth_error_update_same {A} (l : list A) (i : nat) (x y : A) :
  nth_error l i = Some y -> nth_error (update l i x) i = Some x.
Proof.
  revert i; induction l as [|z rest IH]; intros [|i] H; simpl in *;
    try discriminate; auto.
Qed.

Lemma nth_error_update_other {A} (l : list A) (i j : nat) (x : A) :
  i <> j -> nth_error (update l i x) j = nth_error l j.
Proof.
  revert i j; induction l as [|z rest IH]; intros [|i] [|j] H; simpl; auto.
  congruence.
Qed.

Lemma update_unchanged {A} (l : list A) (i : nat) (x : A) :
  nth_error l i = Some x -> update l i x = l.
Proof.
  revert i; induction l as [|z rest IH]; intros [|i] H; simpl in *;
    try discriminate.
  - congruence.
  - f_equal; auto.
Qed.

(** *** What a callback call adds to the trace *)

Fixpoint call_effects (cb : Callback) (args : list CArg) : list Effect :=
  match cb with
  | UserCallback _ | PromiseCallback _ => [CallbackCall cb args]
  | StartTlsSent callback =>
      match args with
      | CErr e :: _ => call_effects callback [CErr e]
      | _ => []
      end
  end.

(** Calling a callback never throws; it extends the trace and, for the
    closure of [starttls], clears the StartTLS marker. *)
Lemma call_spec (cb : Callback) :
  forall args c,
  exists c',
    call cb args c = Done c'
    /\ trace c' = trace c ++ call_effects cb args
    /\ set__starttls false (set_trace [] c') = set__starttls false (set_trace [] c).
Proof.
  induction cb as [i|i|cb IH]; intros args c; simpl.
  - eexists; split; [reflexivity|]. split; reflexivity.
  - eexists; split; [reflexivity|]. split; reflexivity.
  - destruct args as [|[| |e| | |] rest];
      try (eexists; split; [reflexivity|]; split; [now rewrite app_nil_r | reflexivity]).
    destruct (IH [CErr e] (set__starttls false c)) as (c' & Hrun & Htr & Hst).
    exists c'. split; [exact Hrun|]. split; [exact Htr|]. exact Hst.
Qed.

(** *** Streams that throw *)

(** An [error] event for the request would be thrown by its stream. *)
Definition unheard (sc : Scope) (c : t) : bool :=
  match s_emitter sc with
  | Some (StreamEmitter i) => is_deaf i c
  | _ => false
  end.

(** Returning normally, or throwing [e], in the state [c]. *)
Definition finish (throws : bool) (e : error) (c : t) : Outcome :=
  if throws then Thrown e c else Done c.

Lemma seq_finish (a b : Act) (c c1 : t) (throws : bool) (e : error) (c2 : t) :
  a c = Done c1 -> b c1 = finish throws e c2 -> (a ;; b) c = finish throws e c2.
Proof. intros Ha Hb. unfold seq. now rewrite Ha. Qed.

Lemma emitter_emit_stream (i : nat) (name : string) (data : CArg) (c : t) :
  emitter_emit (StreamEmitter i) name data c
  = finish ((name =? "error") && is_deaf i c) (unhandled data)
      (set_trace (trace c ++ [EmitterEvent i name data]) c).
Proof. reflexivity. Qed.

End ClientFacts.

Module TimeoutClaims.
Import JS Requests Client ClientFacts.

(** Everything of the client but its trackers, its running timers, the
    idle timer, the StartTLS marker and the trace. *)
Definition connection (c : t) : t :=
  set_trackers [] (set_timers [] 0 (set__idleTimer false
    (set__starttls false (set_trace [] c)))).

(** What handing an error to a request adds to the trace after the
    [resultError] event: the stream's [error] event, or the callback. *)
Definition error_delivery (sc : Scope) (e : error) : list Effect :=
  match s_emitter sc with
  | Some (StreamEmitter i) => [EmitterEvent i "error" (CErr e)]
  | Some (StartTlsEmitter callback) => call_effects callback [CErr e]
  | None => call_effects (s_callback sc) [CErr e]
  end.

Lemma startIdleTimer_spec (c : t) :
  _tracker c <> None ->
  exists c', startIdleTimer c = Done c'
             /\ connection c' = connection c
             /\ trackers c' = trackers c /\ trace c' = trace c.
Proof.
  intro Htr. unfold startIdleTimer.
  destruct (_socket c); [|eexists; repeat split; reflexivity].
  destruct (connected c); [|eexists; repeat split; reflexivity].
  destruct (_tracker c) as [ti|]; [|congruence].
  match goal with |- context [if ?b then _ else _] => destruct b end;
    eexists; repeat split; reflexivity.
Qed.

Lemma dispatch_error_spec (sc : Scope) (e : error) (c : t) :
  exists c', dispatch sc (Some "error") (CErr e) c = finish (unheard sc c) e c'
             /\ connection c' = connection c
             /\ trackers c' = trackers c
             /\ trace c' = trace c ++ ClientEvent "resultError" [CErr e] :: error_delivery sc e.
Proof.
  unfold dispatch, error_delivery, unheard. simpl.
  unfold seq at 1. unfold emit, effect, lift.
  set (c1 := set_trace (trace c ++ [ClientEvent "resultError" [CErr e]]) c).
  assert (Hcut : forall l, (trace c ++ [ClientEvent "resultError" [CErr e]]) ++ l
                           = trace c ++ ClientEvent "resultError" [CErr e] :: l).
  { intro l. now rewrite <- app_assoc. }
  destruct (s_emitter sc) as [[i|callback]|].
  - rewrite emitter_emit_stream. simpl.
    eexists; split; [reflexivity|]. simpl. rewrite Hcut. repeat split.
  - simpl. unfold seq, lift.
    destruct (call_spec callback [CErr e] (set__starttls false c1)) as (c' & Hrun & Htr & Hst).
    exists c'. split; [exact Hrun|]. rewrite Htr. simpl. rewrite Hcut.
    split; [|split; [|reflexivity]].
    + unfold connection. destruct c', c; simpl in *. inversion Hst; subst. reflexivity.
    + destruct c', c; simpl in *. inversion Hst; subst. reflexivity.
  - destruct (call_spec (s_callback sc) [CErr e] c1) as (c' & Hrun & Htr & Hst).
    exists c'. split; [exact Hrun|]. rewrite Htr. simpl. rewrite Hcut.
    split; [|split; [|reflexivity]].
    + unfold connection. destruct c', c; simpl in *. inversion Hst; subst. reflexivity.
    + destruct c', c; simpl in *. inversion Hst; subst. reflexivity.
Qed.

Lemma connection_fields (c c' : t) :
  connection c' = connection c ->
  sockets c' = sockets c /\ writes c' = writes c /\ queue c' = queue c
  /\ _socket c' = _socket c /\ _tracker c' = _tracker c
  /\ connected c' = connected c /\ destroyed c' = destroyed c
  /\ deaf c' = deaf c.
Proof.
  intro H. unfold connection in H. destruct c, c'; simpl in *.
  inversion H; subst. repeat split.
Qed.

Lemma clearRequestTimer_spec (sc : Scope) (c : t) :
  exists c', clearRequestTimer sc c = Done c'
             /\ connection c' = connection c
             /\ trackers c' = trackers c /\ trace c' = trace c.
Proof.
  unfold clearRequestTimer, lift.
  destruct (s_timer sc); eexists; repeat split; reflexivity.
Qed.

Lemma modify_tracker_spec (ti : nat) (f : Tracker.t -> Tracker.t) (c : t) :
  exists c', modify_tracker ti f c = Done c'
             /\ connection c' = connection c /\ trace c' = trace c.
Proof.
  unfold modify_tracker.
  destruct (tracker_at ti c); eexists; repeat split; reflexivity.
Qed.

Lemma unheard_connection (sc : Scope) (c c' : t) :
  connection c' = connection c -> unheard sc c' = unheard sc c.
Proof.
  intro H. destruct (connection_fields _ _ H) as (_ & _ & _ & _ & _ & _ & _ & Hd).
  unfold unheard, is_deaf. now rewrite Hd.
Qed.

(** A request that is not an abandon, handed an error: its timer is
    cleared, its entry leaves the tracker, [resultError] is emitted and the
    error goes to its stream or its callback.  Nothing is written. *)
Lemma onMessage_error_spec (ti : nat) (msgid : Z) (sc : Scope) (e : error) (c : t) :
  s_expect sc <> ExpectAbandon ->
  _tracker c <> None ->
  exists c',
    onMessage ti msgid sc (ErrorMessage e) c = finish (unheard sc c) e c'
    /\ connection c' = connection c
    /\ trackers c' = trackers (state_of (modify_tracker ti (Tracker.remove msgid) c))
    /\ trace c' = trace c ++ ClientEvent "resultError" [CErr e] :: error_delivery sc e.
Proof.
  intros Hexp Htr.
  assert (Hbody :
    exists c',
      (clearRequestTimer sc ;; modify_tracker ti (Tracker.remove msgid) ;; startIdleTimer ;;
       dispatch sc (Some "error") (CErr e)) c = finish (unheard sc c) e c'
      /\ connection c' = connection c
      /\ trackers c' = trackers (state_of (modify_tracker ti (Tracker.remove msgid) c))
      /\ trace c' = trace c ++ ClientEvent "resultError" [CErr e] :: error_delivery sc e).
  { destruct (clearRequestTimer_spec sc c) as (c1 & Hrun1 & Hcon1 & Htrk1 & Htr1).
    rewrite (seq_done _ _ _ _ Hrun1).
    destruct (modify_tracker_spec ti (Tracker.remove msgid) c1)
      as (c2 & Hrun2 & Hcon2 & Htr2).
    rewrite (seq_done _ _ _ _ Hrun2).
    assert (Htrk2 : trackers c2
                    = trackers (state_of (modify_tracker ti (Tracker.remove msgid) c))).
    { revert Hrun2. unfold modify_tracker, tracker_at. rewrite Htrk1.
      destruct (nth_error (trackers c) ti); intro H; inversion H; subst; simpl;
        congruence. }
    destruct (startIdleTimer_spec c2) as (c3 & Hrun3 & Hcon3 & Htrk3 & Htr3).
    { destruct (connection_fields _ _ Hcon1) as (_ & _ & _ & _ & Hk1 & _).
      destruct (connection_fields _ _ Hcon2) as (_ & _ & _ & _ & Hk2 & _).
      congruence. }
    rewrite (seq_done _ _ _ _ Hrun3).
    destruct (dispatch_error_spec sc e c3) as (c4 & Hrun4 & Hcon4 & Htrk4 & Htr4).
    exists c4. split.
    { rewrite Hrun4. f_equal. apply unheard_connection. congruence. }
    repeat split; congruence. }
  unfold onMessage.
  destruct (clearRequestTimer_spec sc c) as (c1 & Hrun1 & _).
  destruct (s_expect sc); try exact Hbody. congruence.
Qed.

(** A pending abandon without an emitter, handed anything: its callback
    is called with [(null, undefined)], and nothing else happens. *)
Lemma onMessage_abandon_spec (ti : nat) (msgid : Z) (sc : Scope) (msg : Message) (c : t) :
  s_expect sc = ExpectAbandon ->
  s_emitter sc = None ->
  exists c',
    onMessage ti msgid sc msg c = Done c'
    /\ connection c' = connection c
    /\ trackers c' = trackers c
    /\ trace c' = trace c ++ call_effects (s_callback sc) [CNull; CUndefined].
Proof.
  intros Hexp Hem. unfold onMessage. rewrite Hexp.
  destruct (clearRequestTimer_spec sc c) as (c1 & Hrun1 & Hcon1 & Htrk1 & Htr1).
  rewrite (seq_done _ _ _ _ Hrun1).
  unfold dispatch. rewrite Hem. simpl. unfold seq at 1, skip.
  destruct (call_spec (s_callback sc) [CNull; CUndefined] c1) as (c' & Hrun & Htr & Hst).
  exists c'. split; [exact Hrun|].
  assert (Hsame : connection c' = connection c1 /\ trackers c' = trackers c1).
  { unfold connection. destruct c', c1; simpl in *. inversion Hst; subst. split; reflexivity. }
  destruct Hsame as (Hcon & Htrk).
  repeat split; congruence.
Qed.

Lemma lookup_removed (i : Z) (l : list (Z * Scope)) :
  Tracker.lookup i (filter (fun e => negb (fst e =? i)%Z) l) = None.
Proof.
  induction l as [|[j h] rest IH]; simpl; [reflexivity|].
  destruct (j =? i)%Z eqn:Hji; simpl; [exact IH|].
  rewrite Z.eqb_sym, Hji. exact IH.
Qed.

Definition timeout_error : error := Err KTimeoutError "request timeout (client interrupt)".

(** *** A connected client *)

(** [dn.parse], as far as the scenarios need it: strings only. *)
Definition parse_string (input : dn_input) : result DN :=
  match input with
  | InValue (VStr s) => Ok {| rdns := [s] |}
  | _ => Throw (Err KTypeError "name (string) required")
  end.

(** The socket of a connection that has finished its setup. *)
Definition tcp_socket : Socket :=
  {| writable := true; stuffed := false; encrypted := false;
     sock_destroyed := false; sock_ended := false;
     unbindMessageID := None; inner := None;
     sock_listeners := [("data", OnData 0); ("close", OnClose); ("end", OnEnd);
                        ("timeout", OnSocketTimeout); ("error", OnSocketError)];
     written := [] |}.

Definition fresh_tracker : Tracker.t :=
  {| Tracker.id := "1__ldap://ldap.example.com"; Tracker.pending := [];
     Tracker.nextID := 1; Tracker.abandonedIDs := [] |}.

(** A client connected to one server, nothing in flight. *)
Definition connected_client (timeout_ : nat) (reconnect_ : option Reconnect) : t :=
  {| timeout := timeout_; idleTimeout := 0; reconnect := reconnect_; strictDN := true;
     urls := 1; sockets := [tcp_socket]; trackers := [fresh_tracker];
     queue := Queue.create 0 0; _socket := Some 0; _tracker := Some 0;
     connected := true; connecting := false; destroyed := false;
     _starttls := false; _idleTimer := false; timers := []; nextTimer := 0;
     writes := []; retry := None; deaf := []; trace := [] |}.

(** [del('cn=a,dc=x', callback)] on a client with [timeout: 50]. *)
Definition delete_sent : t :=
  state_of (del parse_string (InValue (VStr "cn=a,dc=x")) [] (Some (UserCallback 1))
              (connected_client 50 None)).

Definition delete_request : Request := DeleteRequest (DnObject {| rdns := ["cn=a,dc=x"] |}) [].

Definition delete_timer : Timer :=
  {| tm_id := 0; tm_req := delete_request; tm_msgid := Some 1%Z; tm_tracker := Some 0 |}.

(** The claim fails where it says that the client sends an AbandonRequest:
    when the timer of the delete request (messageID 1) fires, the callback
    gets the TimeoutError and the tracker records 1 as abandoned, but the
    only request ever written to the socket is the delete itself. *)
Lemma timeout_writes_no_AbandonRequest :
  trace (state_of (fire_timer 0 delete_sent))
  = [ClientEvent "timeout" [CReq (Some 1%Z) delete_request];
     ClientEvent "resultError" [CErr timeout_error];
     CallbackCall (UserCallback 1) [CErr timeout_error]]
  /\ option_map Tracker.abandonedIDs (tracker_at 0 (state_of (fire_timer 0 delete_sent)))
     = Some [1%Z]
  /\ ~ (exists s msgid controls,
          socket_at 0 (state_of (fire_timer 0 delete_sent)) = Some s
          /\ In (msgid, AbandonRequest 1 controls) (written s)).
Proof.
  split; [reflexivity|]. split; [reflexivity|].
  intros (s & msgid & controls & Hs & Hin).
  vm_compute in Hs. inversion Hs; subst; clear Hs.
  simpl in Hin. destruct Hin as [H|[]]. discriminate H.
Qed.

(** C3, amended.  When the timer of a request that is pending on the
    current connection fires, the client emits [timeout], marks the
    messageID abandoned in the tracker and invokes the pending handler
    with a TimeoutError.  For every request but an abandon the handler
    emits [resultError] and hands the error to the request's stream as an
    [error] event, or else to its callback; a stream that is flowing
    without an [error] listener throws it, out of the timer callback.  The
    handler of a pending abandon (which has no stream) swallows the error
    and calls its callback with [null].  Nothing is written to any socket:
    no AbandonRequest is sent. *)
Theorem request_timeout_abandons_locally :
  forall (c : t) (tm : Timer) (ti : nat) (tr : Tracker.t) (msgid : Z) (sc : Scope),
    (0 < timeout c)%nat ->
    In tm (timers c) ->
    tm_tracker tm = Some ti ->
    tm_msgid tm = Some msgid ->
    _tracker c = Some ti ->
    tracker_at ti c = Some tr ->
    Tracker.fetch msgid tr = Some sc ->
    (s_expect sc = ExpectAbandon -> s_emitter sc = None) ->
    let timed_out := Err KTimeoutError "request timeout (client interrupt)" in
    exists c' tr',
      onTimeout tm c = (if unheard sc c then Thrown timed_out c' else Done c')
      /\ trace c'
         = trace c
           ++ ClientEvent "timeout" [CReq (Some msgid) (tm_req tm)]
              :: match s_expect sc with
                 | ExpectAbandon => call_effects (s_callback sc) [CNull; CUndefined]
                 | _ => ClientEvent "resultError" [CErr timed_out]
                          :: match s_emitter sc with
                             | Some (StreamEmitter i) =>
                                 [EmitterEvent i "error" (CErr timed_out)]
                             | Some (StartTlsEmitter callback) =>
                                 call_effects callback [CErr timed_out]
                             | None => call_effects (s_callback sc) [CErr timed_out]
                             end
                 end
      /\ tracker_at ti c' = Some tr'
      /\ In msgid (Tracker.abandonedIDs tr')
      /\ sockets c' = sockets c
      /\ writes c' = writes c.
Proof.
  intros c tm ti tr msgid sc _ _ Htm_tr Htm_id Htracker Hat Hfetch Habandon. cbv zeta.
  unfold onTimeout. unfold seq at 1, lift at 1.
  set (c1 := set_timers _ _ c).
  unfold seq at 1, emit, effect, lift.
  set (c2 := set_trace _ c1).
  rewrite Htm_tr, Htm_id.
  assert (Hat2 : tracker_at ti c2 = Some tr) by exact Hat.
  rewrite Hat2, Hfetch.
  unfold seq, modify_tracker. rewrite Hat2.
  set (c3 := set_trackers _ c2).
  assert (Hat3 : tracker_at ti c3 = Some (Tracker.abandon msgid tr)).
  { subst c3. unfold tracker_at. simpl. eapply nth_error_update_same. exact Hat. }
  assert (Htr3 : trace c3 = trace c ++ [ClientEvent "timeout" [CReq (Some msgid) (tm_req tm)]]).
  { subst c3 c2 c1. simpl. now rewrite Htm_id. }
  assert (Hun3 : unheard sc c3 = unheard sc c) by reflexivity.
  assert (Hs3 : sockets c3 = sockets c /\ writes c3 = writes c) by (split; reflexivity).
  destruct (s_expect sc) eqn:Hexp.
  - destruct (onMessage_error_spec ti msgid sc
                (Err KTimeoutError "request timeout (client interrupt)") c3)
      as (c' & Hrun & Hcon & Htrk & Htr).
    { congruence. }
    { subst c3 c2 c1. simpl. congruence. }
    exists c', (Tracker.remove msgid (Tracker.abandon msgid tr)).
    split; [rewrite Hrun, Hun3; reflexivity|].
    split; [rewrite Htr, Htr3, <- app_assoc; reflexivity|].
    split.
    { unfold tracker_at. rewrite Htrk. unfold modify_tracker. rewrite Hat3. simpl.
      eapply nth_error_update_same. exact Hat3. }
    split; [simpl; apply in_or_app; right; now left|].
    destruct (connection_fields _ _ Hcon) as (Hs & Hw & _).
    destruct Hs3 as (Hs3 & Hw3). split; congruence.
  - destruct (onMessage_abandon_spec ti msgid sc
                (ErrorMessage (Err KTimeoutError "request timeout (client interrupt)")) c3
                Hexp (Habandon eq_refl))
      as (c' & Hrun & Hcon & Htrk & Htr).
    exists c', (Tracker.abandon msgid tr).
    assert (Hun : unheard sc c = false).
    { unfold unheard. now rewrite (Habandon eq_refl). }
    split; [rewrite Hrun, Hun; reflexivity|].
    split; [rewrite Htr, Htr3, <- app_assoc; reflexivity|].
    split; [unfold tracker_at; rewrite Htrk; exact Hat3|].
    split; [simpl; apply in_or_app; right; now left|].
    destruct (connection_fields _ _ Hcon) as (Hs & Hw & _).
    destruct Hs3 as (Hs3 & Hw3). split; congruence.
  - destruct (onMessage_error_spec ti msgid sc
                (Err KTimeoutError "request timeout (client interrupt)") c3)
      as (c' & Hrun & Hcon & Htrk & Htr).
    { congruence. }
    { subst c3 c2 c1. simpl. congruence. }
    exists c', (Tracker.remove msgid (Tracker.abandon msgid tr)).
    split; [rewrite Hrun, Hun3; reflexivity|].
    split; [rewrite Htr, Htr3, <- app_assoc; reflexivity|].
    split.
    { unfold tracker_at. rewrite Htrk. unfold modify_tracker. rewrite Hat3. simpl.
      eapply nth_error_update_same. exact Hat3. }
    split; [simpl; apply in_or_app; right; now left|].
    destruct (connection_fields _ _ Hcon) as (Hs & Hw & _).
    destruct Hs3 as (Hs3 & Hw3). split; congruence.
Qed.

(** The timer of the delete request sent with [timeout: 50]. *)
Lemma request_timeout_abandons_locally_witness :
  exists c' tr',
    onTimeout delete_timer delete_sent = Done c'
    /\ tracker_at 0 c' = Some tr'
    /\ In 1%Z (Tracker.abandonedIDs tr')
    /\ sockets c' = sockets delete_sent.
Proof.
  destruct (request_timeout_abandons_locally delete_sent delete_timer 0
              {| Tracker.id := "1__ldap://ldap.example.com";
                 Tracker.pending :=
                   [(1%Z, {| s_req := delete_request;
                             s_expect := ExpectCodes [LDAP_SUCCESS];
                             s_emitter := None; s_callback := UserCallback 1;
                             s_timer := Some 0 |})];
                 Tracker.nextID := 2; Tracker.abandonedIDs := [] |}
              1%Z
              {| s_req := delete_request; s_expect := ExpectCodes [LDAP_SUCCESS];
                 s_emitter := None; s_callback := UserCallback 1; s_timer := Some 0 |})
    as (c' & tr' & Hrun & _ & Hat & Hin & Hs & _).
  - simpl. lia.
  - left. reflexivity.
  - reflexivity.
  - reflexivity.
  - reflexivity.
  - reflexivity.
  - reflexivity.
  - discriminate.
  - exists c', tr'. auto.
Defined.

End TimeoutClaims.

Module StartTlsClaims.
Import JS Requests Client ClientFacts TimeoutClaims.

(** [starttls(callback)] on a connected client, and the server's reply
    accepting the extended operation (messageID 1, result code 0). *)
Definition starttls_requested : t :=
  state_of (starttls [] (Some (UserCallback 2)) (connected_client 0 None)).

Definition starttls_accepted : t :=
  state_of (receive 0 1
              (ResultMessage {| rtype := "ExtendedResponse"; rmessageID := 1;
                                rstatus := StatusCode 0; rcontrols := [] |})
              starttls_requested).

(** The reply detaches the [data] listener from the TCP socket (socket 0)
    and starts the handshake on a new TLS socket (socket 1), which waits
    for [secureConnect] with the detached listener in its closure. *)
Lemma starttls_reply_starts_handshake :
  listeners_of 0 "data" starttls_accepted = []
  /\ listeners_of 1 "secureConnect" starttls_accepted
     = [OnSecureConnection 0 [OnData 0] (UserCallback 2)]
  /\ _starttls starttls_accepted = true
  /\ _socket starttls_accepted = Some 0.
Proof. repeat split. Qed.

(** C6 (code defect).  When the TLS handshake completes, the success
    handler does none of what the claim lists.  Its first statement,
    [dataListeners.forEach(function (listener) { this.on('data', listener) })],
    runs the callback with [this] undefined, so it throws a TypeError on
    the first detached listener and leaves the client as it was: in the
    scenario the TLS socket gets no [data] listener, [_socket] is still the
    TCP socket, the StartTLS marker is still set and the caller's callback
    is never called. *)
Theorem secure_connection_handler_throws :
  (forall (c : t) (secure tcp : nat) (listener : SockListener) (rest : list SockListener)
          (callback : Callback),
      onSecureConnection secure tcp (listener :: rest) callback c
      = Thrown (type_error "Cannot read properties of undefined (reading 'on')") c)
  /\ onSecureConnection 1 0 [OnData 0] (UserCallback 2) starttls_accepted
     = Thrown (type_error "Cannot read properties of undefined (reading 'on')")
         starttls_accepted
  /\ listeners_of 1 "data" starttls_accepted = []
  /\ _socket starttls_accepted = Some 0
  /\ _starttls starttls_accepted = true
  /\ trace starttls_accepted = [].
Proof.
  split; [|repeat split].
  intros c secure tcp listener rest callback. reflexivity.
Qed.

(** With no [data] listener to move, the handler fails in the same way on
    the first [error] listener of the TCP socket, after it has removed the
    handshake's own [error] listener from the TLS socket. *)
Lemma secure_connection_handler_throws_on_error_listeners :
  exists c',
    onSecureConnection 1 0 [] (UserCallback 2) starttls_accepted
    = Thrown (type_error "Cannot read properties of undefined (reading 'on')") c'
    /\ listeners_of 1 "error" c' = []
    /\ _socket c' = Some 0
    /\ _starttls c' = true.
Proof.
  exists (state_of (onSecureConnection 1 0 [] (UserCallback 2) starttls_accepted)).
  split; [vm_compute; reflexivity|].
  split; [vm_compute; reflexivity|].
  split; vm_compute; reflexivity.
Qed.

End StartTlsClaims.

Module CloseFacts.
Import JS Requests Client ClientFacts.

(** What the close handler relies on while it walks the pending requests:
    the client still holds its socket, that socket's [unbindMessageID] and
    [socket] properties, the tracker's name, and the fields [connect]
    looks at. *)
Definition view (si ti : nat) (c : t) :=
  (_socket c, _tracker c, connected c, connecting c, destroyed c, reconnect c, urls c,
   retry c,
   option_map unbindMessageID (socket_at si c),
   option_map inner (socket_at si c),
   option_map Tracker.id (tracker_at ti c),
   deaf c).

(** The client is closing its socket [si]; [D] are the streams that throw
    [error] events. *)
Definition closing (si : nat) (D : list nat) (c : t) : Prop :=
  _socket c = Some si /\ connected c = false /\ socket_at si c <> None /\ deaf c = D.

(** [a] returns normally on a closing client and keeps the view. *)
Definition steady (si ti : nat) (D : list nat) (a : Act) : Prop :=
  forall c, closing si D c -> exists c', a c = Done c' /\ view si ti c' = view si ti c.

(** With the streams in [D] throwing, the request's stream takes an
    [error] event. *)
Definition listens (D : list nat) (sc : Scope) : bool :=
  match s_emitter sc with
  | Some (StreamEmitter i) => negb (existsb (Nat.eqb i) D)
  | _ => true
  end.

Lemma closing_kept (si ti : nat) (D : list nat) (c c' : t) :
  closing si D c -> view si ti c' = view si ti c -> closing si D c'.
Proof.
  intros (Hs & Hc & Hat & Hd) Hv. unfold view in Hv.
  inversion Hv as [[H1 H2 H3 H4 H5 H6 H7 H8 H9 H10 H11 H12]].
  unfold closing. rewrite H1, H3, H12. repeat split; auto.
  intro Hnone. rewrite Hnone in H9. simpl in H9.
  destruct (socket_at si c); [discriminate | congruence].
Qed.

Lemma steady_seq (si ti : nat) (D : list nat) (a b : Act) :
  steady si ti D a -> steady si ti D b -> steady si ti D (a ;; b).
Proof.
  intros Ha Hb c Hc.
  destruct (Ha c Hc) as (c1 & Hrun1 & Hv1).
  destruct (Hb c1 (closing_kept _ _ _ _ _ Hc Hv1)) as (c2 & Hrun2 & Hv2).
  exists c2. split; [now rewrite (seq_done _ _ _ _ Hrun1) | congruence].
Qed.

Lemma steady_skip (si ti : nat) (D : list nat) : steady si ti D skip.
Proof. intros c _. exists c. split; reflexivity. Qed.

Lemma steady_effect (si ti : nat) (D : list nat) (e : Effect) : steady si ti D (effect e).
Proof. intros c _. eexists. split; reflexivity. Qed.

Lemma steady_starttls_cleared (si ti : nat) (D : list nat) :
  steady si ti D (lift (set__starttls false)).
Proof. intros c _. eexists. split; reflexivity. Qed.

Lemma steady_call (si ti : nat) (D : list nat) (cb : Callback) (args : list CArg) :
  steady si ti D (call cb args).
Proof.
  intros c _.
  destruct (call_spec cb args c) as (c' & Hrun & _ & Hsame).
  exists c'. split; [exact Hrun|].
  destruct c, c'; simpl in *. inversion Hsame; subst. reflexivity.
Qed.

Lemma steady_clearRequestTimer (si ti : nat) (D : list nat) (sc : Scope) :
  steady si ti D (clearRequestTimer sc).
Proof.
  intros c _. unfold clearRequestTimer, lift.
  destruct (s_timer sc); eexists; split; reflexivity.
Qed.

Lemma steady_startIdleTimer (si ti : nat) (D : list nat) : steady si ti D startIdleTimer.
Proof.
  intros c (Hs & Hc & _). unfold startIdleTimer. rewrite Hs, Hc.
  exists c. split; reflexivity.
Qed.

Lemma steady_modify_tracker (si ti tj : nat) (D : list nat) (f : Tracker.t -> Tracker.t) :
  (forall tr, Tracker.id (f tr) = Tracker.id tr) ->
  steady si ti D (modify_tracker tj f).
Proof.
  intros Hf c _. unfold modify_tracker.
  destruct (tracker_at tj c) as [tr|] eqn:Hat; eexists; (split; [reflexivity|]);
    [|reflexivity].
  unfold view; simpl.
  assert (Hkeep : option_map Tracker.id (nth_error (update (trackers c) tj (f tr)) ti)
                  = option_map Tracker.id (tracker_at ti c)).
  { unfold tracker_at in *.
    destruct (Nat.eq_dec tj ti) as [->|Hne].
    - rewrite (nth_error_update_same _ _ _ _ Hat), Hat. simpl. now rewrite Hf.
    - now rewrite nth_error_update_other. }
  unfold tracker_at at 1. simpl. rewrite Hkeep. reflexivity.
Qed.

Lemma steady_modify_socket (si ti sj : nat) (D : list nat) (f : Socket -> Socket) :
  (forall s, unbindMessageID (f s) = unbindMessageID s /\ inner (f s) = inner s) ->
  steady si ti D (modify_socket sj f).
Proof.
  intros Hf c _. unfold modify_socket.
  destruct (socket_at sj c) as [s|] eqn:Hat; eexists; (split; [reflexivity|]);
    [|reflexivity].
  unfold view; simpl.
  assert (Hkeep : option_map unbindMessageID (nth_error (update (sockets c) sj (f s)) si)
                  = option_map unbindMessageID (socket_at si c)
                  /\ option_map inner (nth_error (update (sockets c) sj (f s)) si)
                     = option_map inner (socket_at si c)).
  { unfold socket_at in *.
    destruct (Nat.eq_dec sj si) as [->|Hne].
    - rewrite (nth_error_update_same _ _ _ _ Hat), Hat. simpl.
      destruct (Hf s) as [-> ->]. split; reflexivity.
    - rewrite nth_error_update_other by exact Hne. split; reflexivity. }
  destruct Hkeep as [Hu Hi]. unfold socket_at at 1 2. simpl. rewrite Hu, Hi. reflexivity.
Qed.

Lemma steady_tls_connect (si ti tcp : nat) (D : list nat) (dataListeners : list SockListener)
    (callback : Callback) :
  steady si ti D (tls_connect tcp dataListeners callback).
Proof.
  intros c (_ & _ & Hat & _). unfold tls_connect, lift.
  eexists; split; [reflexivity|].
  unfold view, socket_at in *; simpl.
  rewrite nth_error_app1; [reflexivity|].
  now apply nth_error_Some.
Qed.

Lemma steady_onStartTlsReply (si ti : nat) (D : list nat) (callback : Callback) :
  steady si ti D (onStartTlsReply callback).
Proof.
  intros c Hc. unfold onStartTlsReply.
  pose proof Hc as (Hs & Hcon & Hat & Hd). rewrite Hs.
  apply (steady_seq si ti D); [|apply steady_tls_connect|exact Hc].
  apply steady_modify_socket. intro s; split; reflexivity.
Qed.

(** An emit that is not an [error] event on a stream in [D]. *)
Definition taken (D : list nat) (em : Emitter) (name : string) : bool :=
  match em with
  | StreamEmitter i => negb ((name =? "error") && existsb (Nat.eqb i) D)
  | StartTlsEmitter _ => true
  end.

Lemma steady_emitter_emit (si ti : nat) (D : list nat) (em : Emitter) (name : string)
    (data : CArg) :
  taken D em name = true ->
  steady si ti D (emitter_emit em name data).
Proof.
  intro Htaken. destruct em as [i|callback].
  - intros c (_ & _ & _ & Hd). rewrite emitter_emit_stream. unfold is_deaf. rewrite Hd.
    simpl in Htaken. apply negb_true_iff in Htaken. rewrite Htaken.
    eexists. split; reflexivity.
  - simpl. destruct (name =? "error").
    + apply steady_seq; [apply steady_starttls_cleared | apply steady_call].
    + destruct (name =? "end"); [apply steady_onStartTlsReply | apply steady_skip].
Qed.

Lemma listens_taken (D : list nat) (sc : Scope) (em : Emitter) (name : string) :
  listens D sc = true -> s_emitter sc = Some em -> taken D em name = true.
Proof.
  unfold listens, taken. intros H Hem. rewrite Hem in H. destruct em; [|reflexivity].
  apply negb_true_iff in H. rewrite H. now rewrite andb_false_r.
Qed.

Lemma steady_dispatch (si ti : nat) (D : list nat) (sc : Scope) (event : option string)
    (data : CArg) :
  listens D sc = true ->
  steady si ti D (dispatch sc event data).
Proof.
  intro Hl. unfold dispatch. apply steady_seq.
  - destruct (match event with Some e => e =? "error" | None => false end);
      [apply steady_effect | apply steady_skip].
  - destruct (s_emitter sc) as [em|] eqn:Hem.
    + apply steady_emitter_emit. eapply listens_taken; eassumption.
    + destruct (match event with Some e => e =? "error" | None => false end);
        apply steady_call.
Qed.

(** Whatever a handler whose stream listens is given, on a closing client
    it returns normally and keeps the view. *)
Lemma steady_onMessage (si ti tj : nat) (D : list nat) (msgid : Z) (sc : Scope)
    (msg : Message) :
  listens D sc = true ->
  steady si ti D (onMessage tj msgid sc msg).
Proof.
  intro Hl.
  unfold onMessage. apply steady_seq; [apply steady_clearRequestTimer|].
  assert (Htail : forall m, steady si ti D m ->
    steady si ti D (modify_tracker tj (Tracker.remove msgid) ;; startIdleTimer ;; m)).
  { intros m Hm. apply steady_seq; [|apply steady_seq; [apply steady_startIdleTimer|exact Hm]].
    apply steady_modify_tracker. reflexivity. }
  destruct (s_expect sc); try (apply steady_dispatch; exact Hl);
    destruct msg; try (apply steady_dispatch; exact Hl); apply Htail;
      try (apply steady_dispatch; exact Hl); try apply steady_skip;
      destruct (expected _ _); apply steady_dispatch; exact Hl.
Qed.

End CloseFacts.

Module CloseClaims.
Import JS Requests Client ClientFacts CloseFacts TimeoutClaims.

(** [a] returns normally on every client, keeps the view and touches
    neither the trace nor the trackers. *)
Definition quiet (si ti : nat) (a : Act) : Prop :=
  forall c, exists c',
    a c = Done c' /\ view si ti c' = view si ti c
    /\ trace c' = trace c /\ trackers c' = trackers c.

Lemma quiet_seq (si ti : nat) (a b : Act) :
  quiet si ti a -> quiet si ti b -> quiet si ti (a ;; b).
Proof.
  intros Ha Hb c.
  destruct (Ha c) as (c1 & Hrun1 & Hv1 & Ht1 & Hk1).
  destruct (Hb c1) as (c2 & Hrun2 & Hv2 & Ht2 & Hk2).
  exists c2. rewrite (seq_done _ _ _ _ Hrun1). repeat split; congruence.
Qed.

Lemma quiet_removeAllListeners (si ti sj : nat) (name : string) :
  quiet si ti (sock_removeAllListeners sj name).
Proof.
  intro c. unfold sock_removeAllListeners, modify_socket.
  destruct (socket_at sj c) as [s|] eqn:Hat; eexists; (split; [reflexivity|]);
    [|repeat split].
  split; [|split; reflexivity].
  unfold view; simpl.
  assert (Hkeep :
    forall f : Socket -> Socket,
      (forall s, unbindMessageID (f s) = unbindMessageID s /\ inner (f s) = inner s) ->
      option_map unbindMessageID (nth_error (update (sockets c) sj (f s)) si)
      = option_map unbindMessageID (socket_at si c)
      /\ option_map inner (nth_error (update (sockets c) sj (f s)) si)
         = option_map inner (socket_at si c)).
  { intros f Hf. unfold socket_at in *.
    destruct (Nat.eq_dec sj si) as [->|Hne].
    - rewrite (nth_error_update_same _ _ _ _ Hat), Hat. simpl.
      destruct (Hf s) as [-> ->]. split; reflexivity.
    - rewrite nth_error_update_other by exact Hne. split; reflexivity. }
  match goal with
  | |- context [update (sockets c) sj (?f s)] =>
      destruct (Hkeep f) as [Hu Hi]; [intro; split; reflexivity|]
  end.
  unfold socket_at at 1 2. simpl. rewrite Hu, Hi. reflexivity.
Qed.

(** The walk over the pending requests, with the socket's and tracker's
    properties read afresh for every entry ([f]) or once and for all ([g]). *)
Lemma purge_loop (si ti : nat) (D : list nat) (f g : Z * Scope -> Act) (c0 : t) :
  (forall x c, closing si D c -> view si ti c = view si ti c0 -> f x c = g x c) ->
  forall l,
    (forall x, In x l -> steady si ti D (g x)) ->
    forall c,
      closing si D c -> view si ti c = view si ti c0 ->
      exists c1,
        for_each l f c = Done c1 /\ for_each l g c = Done c1
        /\ closing si D c1 /\ view si ti c1 = view si ti c0.
Proof.
  intros Hfg l. induction l as [|x rest IH]; intros Hg c Hc Hv; simpl.
  - exists c. split; [reflexivity|]. split; [reflexivity|]. split; assumption.
  - destruct (Hg x (or_introl eq_refl) c Hc) as (c' & Hrun & Hv').
    assert (Hc' : closing si D c') by (eapply closing_kept; eassumption).
    destruct (IH (fun y Hy => Hg y (or_intror Hy)) c' Hc') as (c1 & Hf1 & Hg1 & Hc1 & Hv1);
      [congruence|].
    exists c1. unfold seq. rewrite (Hfg x c Hc Hv), Hrun. auto.
Qed.

(** What the close handler hands to the handler of message [msgid]. *)
Definition close_reply (sock : Socket) (tr : Tracker.t) (msgid : Z) : Message :=
  if match unbindMessageID sock with
     | Some u => (msgid =? u)%Z
     | None => false
     end
  then ResultMessage {| rtype := "UnbindResponse"; rmessageID := msgid;
                        rstatus := StatusUnbind; rcontrols := [] |}
  else ErrorMessage (Err KConnectionError (Tracker.id tr ++ " closed")).

(** No pending request of the tracker has a stream that would throw the
    error the close handler gives it. *)
Definition all_heard (tr : Tracker.t) (c : t) : Prop :=
  Forall (fun e => unheard (snd e) c = false) (Tracker.pending tr).

Definition reconnect_configured (c : t) : bool :=
  match reconnect c with Some _ => true | None => false end.

(** Reconnection is enabled when the client was configured with
    [reconnect] and [destroy] has not disabled it: [connect] returns at
    once on a destroyed client. *)
Definition reconnect_enabled (c : t) : bool :=
  reconnect_configured c && negb (destroyed c).

Lemma quiet_step (si ti : nat) (a b : Act) (c : t) :
  quiet si ti a ->
  exists c', (a ;; b) c = b c' /\ view si ti c' = view si ti c
             /\ trace c' = trace c /\ trackers c' = trackers c.
Proof.
  intro Ha. destruct (Ha c) as (c' & Hrun & Hv & Ht & Hk).
  exists c'. split; [now apply seq_done | auto].
Qed.

Lemma view_fields (si ti : nat) (c c' : t) :
  view si ti c' = view si ti c ->
  _socket c' = _socket c /\ _tracker c' = _tracker c /\ connected c' = connected c
  /\ connecting c' = connecting c /\ destroyed c' = destroyed c
  /\ reconnect c' = reconnect c /\ urls c' = urls c /\ retry c' = retry c
  /\ option_map unbindMessageID (socket_at si c') = option_map unbindMessageID (socket_at si c)
  /\ option_map Tracker.id (tracker_at ti c') = option_map Tracker.id (tracker_at ti c).
Proof.
  unfold view. intro H. inversion H. repeat split; assumption.
Qed.

(** The close handler, run to its last statement: the walk over the
    pending requests ends in [c1], the clean-up in [c2], and what remains
    is the decision to reconnect. *)
Lemma onClose_runs :
  forall (c : t) (closeError : CArg) (si ti : nat) (sock : Socket) (tr : Tracker.t),
    _socket c = Some si ->
    socket_at si c = Some sock ->
    _tracker c = Some ti ->
    tracker_at ti c = Some tr ->
    all_heard tr c ->
    exists c1 c2,
      for_each (Tracker.pending tr)
        (fun e => onMessage ti (fst e) (snd e) (close_reply sock tr (fst e)))
        (set_connected false c) = Done c1
      /\ _tracker c2 = None
      /\ option_map Tracker.pending (tracker_at ti c2) = Some []
      /\ _socket c2 = None
      /\ connected c2 = false
      /\ trace c2 = trace c1 ++ [ClientEvent "close" [closeError]]
      /\ _onClose closeError c
         = (if reconnect_configured c && no_unbind sock then connect c2 else Done c2)
      /\ connecting c2 = connecting c
      /\ destroyed c2 = destroyed c.
Proof.
  intros c closeError si ti sock tr Hsock Hsat Htrk Htat Hheard.
  set (c0 := set_connected false c).
  assert (Hc0 : closing si (deaf c) c0).
  { unfold closing. split; [exact Hsock|]. split; [reflexivity|].
    split; [|reflexivity]. unfold socket_at in *. simpl. congruence. }
  unfold _onClose. unfold seq at 1, lift at 1. fold c0.
  assert (Hs0 : _socket c0 = Some si) by exact Hsock.
  assert (Ht0 : _tracker c0 = Some ti) by exact Htrk.
  rewrite Hs0, Ht0.
  unfold seq at 1. unfold purge at 1.
  assert (Htat0 : tracker_at ti c0 = Some tr) by exact Htat.
  assert (Hsat0 : socket_at si c0 = Some sock) by exact Hsat.
  rewrite Htat0.
  unfold seq at 1.
  match goal with
  | |- context [match for_each _ ?f c0 with Done _ => _ | Thrown _ _ => _ end] =>
      set (F := f)
  end.
  destruct (purge_loop si ti (deaf c) F
              (fun e => onMessage ti (fst e) (snd e) (close_reply sock tr (fst e))) c0)
    with (l := Tracker.pending tr) (c := c0) as (c1 & Hf1 & Hg1 & Hc1 & Hv1);
    [ | | exact Hc0 | reflexivity | ].
  2:{ intros x Hx. apply steady_onMessage.
      unfold all_heard in Hheard. rewrite Forall_forall in Hheard.
      specialize (Hheard x Hx). unfold unheard, is_deaf in Hheard. unfold listens.
      destruct (s_emitter (snd x)) as [[i|cb]|]; try reflexivity.
      now rewrite Hheard. }
  { intros x c' _ Hv. destruct (view_fields _ _ _ _ Hv) as (_ & _ & _ & _ & _ & _ & _ & _ & Hu & Hid).
    rewrite Hsat0 in Hu. rewrite Htat0 in Hid. subst F. cbv beta.
    unfold close_reply.
    destruct (socket_at si c') as [s'|]; [|discriminate].
    destruct (tracker_at ti c') as [tr'|]; [|discriminate].
    simpl in Hu, Hid. inversion Hu as [Hu']. inversion Hid as [Hid'].
    destruct (match unbindMessageID s' with Some u => (fst x =? u)%Z | None => false end);
      reflexivity. }
  exists c1.
  rewrite Hf1.
  destruct (view_fields _ _ _ _ Hv1)
    as (Hs1 & Hk1 & Hcon1 & Hcing1 & Hd1 & Hr1 & Hurl1 & Hretry1 & Hu1 & Hid1).
  rewrite Htat0 in Hid1. rewrite Hsat0 in Hu1.
  destruct (tracker_at ti c1) as [tr1|] eqn:Htat1; [|discriminate].
  unfold modify_tracker at 1. rewrite Htat1.
  set (c1a := set_trackers _ c1).
  unfold seq at 1. unfold lift at 1.
  set (c1b := set__tracker None c1a).
  destruct (quiet_step si ti (detach_listeners si)
              (lift (set__socket None) ;; emit "close" [closeError] ;;
               (fun c' => match reconnect c' with
                          | Some _ => if sock_flag no_unbind si c' then connect c' else Done c'
                          | None => Done c'
                          end)) c1b) as (c1c & Hrun & Hvc & Htc & Hkc).
  { unfold detach_listeners.
    repeat (apply quiet_seq;
            [first [apply quiet_removeAllListeners
                   | intro c'; apply quiet_removeAllListeners]|]).
    apply quiet_removeAllListeners. }
  rewrite Hrun. clear Hrun.
  unfold seq, emit, effect, lift. cbv beta iota.
  exists (set_trace (trace (set__socket None c1c) ++ [ClientEvent "close" [closeError]])
            (set__socket None c1c)).
  destruct (view_fields _ _ _ _ Hvc)
    as (Hsc & Hkc' & Hconc & Hcingc & Hdc & Hrc & Hurlc & Hretryc & Huc & Hidc).
  split; [exact Hg1|].
  split; [simpl; rewrite Hkc'; reflexivity|].
  split.
  { unfold tracker_at. simpl. rewrite Hkc. subst c1b c1a. simpl.
    unfold tracker_at in Htat1. rewrite (nth_error_update_same _ _ _ _ Htat1). reflexivity. }
  split; [reflexivity|].
  split; [simpl; rewrite Hconc; subst c1b c1a; simpl; rewrite Hcon1; reflexivity|].
  split; [simpl; rewrite Htc; reflexivity|].
  split.
  { simpl reconnect. rewrite Hrc. subst c1b c1a. simpl reconnect. rewrite Hr1.
    unfold reconnect_configured. simpl reconnect.
    destruct (reconnect c); [|reflexivity]. simpl andb.
    assert (Hflag : sock_flag no_unbind si
                      (set_trace (trace (set__socket None c1c)
                                  ++ [ClientEvent "close" [closeError]])
                         (set__socket None c1c)) = no_unbind sock).
    { unfold sock_flag. change (socket_at si (set_trace _ (set__socket None c1c)))
        with (socket_at si c1c).
      assert (Hu : option_map unbindMessageID (socket_at si c1c)
                   = Some (unbindMessageID sock)).
      { rewrite Huc. exact Hu1. }
      destruct (socket_at si c1c) as [s|]; [|discriminate].
      simpl in Hu. inversion Hu as [Hu']. unfold no_unbind. now rewrite Hu'. }
    rewrite Hflag. reflexivity. }
  split.
  { simpl. rewrite Hcingc. subst c1b c1a. simpl. exact Hcing1. }
  simpl. rewrite Hdc. subst c1b c1a. simpl. exact Hd1.
Qed.

(** C4, amended.  On socket close the handlers of the pending requests
    are called in the order the requests were tracked: with a synthetic
    UnbindResponse (status 'unbind') when the messageID is the socket's
    [unbindMessageID], with the ConnectionError '<tracker id> closed'
    otherwise.  When no pending request has a stream that throws the error
    (one that is flowing without an [error] listener), every handler
    returns; afterwards the tracker holds nothing and the client has
    dropped it and the socket, and [close] has been emitted.  The handler
    then calls [connect] exactly when the client was configured to
    reconnect and the socket carries no [unbindMessageID]; a client that
    is not already connecting re-enters the connect loop exactly when
    reconnection is enabled and the close was not the result of an
    unbind. *)
Theorem close_fails_pending_and_reconnects :
  forall (c : t) (closeError : CArg) (si ti : nat) (sock : Socket) (tr : Tracker.t),
    _socket c = Some si ->
    socket_at si c = Some sock ->
    _tracker c = Some ti ->
    tracker_at ti c = Some tr ->
    Forall (fun e => unheard (snd e) c = false) (Tracker.pending tr) ->
    let reply (msgid : Z) : Message :=
      if match unbindMessageID sock with
         | Some u => (msgid =? u)%Z
         | None => false
         end
      then ResultMessage {| rtype := "UnbindResponse"; rmessageID := msgid;
                            rstatus := StatusUnbind; rcontrols := [] |}
      else ErrorMessage (Err KConnectionError (Tracker.id tr ++ " closed")) in
    exists c1 c2,
      for_each (Tracker.pending tr)
        (fun e => onMessage ti (fst e) (snd e) (reply (fst e)))
        (set_connected false c) = Done c1
      /\ _tracker c2 = None
      /\ option_map Tracker.pending (tracker_at ti c2) = Some []
      /\ _socket c2 = None
      /\ trace c2 = trace c1 ++ [ClientEvent "close" [closeError]]
      /\ _onClose closeError c
         = (if reconnect_configured c && no_unbind sock then connect c2 else Done c2)
      /\ (connecting c = false ->
          (connecting (state_of (_onClose closeError c)) = true
           <-> reconnect_enabled c = true /\ no_unbind sock = true)).
Proof.
  intros c closeError si ti sock tr Hsock Hsat Htrk Htat Hheard. cbv zeta.
  destruct (onClose_runs c closeError si ti sock tr Hsock Hsat Htrk Htat Hheard)
    as (c1 & c2 & Hloop & Hk2 & Hp2 & Hs2 & Hcon2 & Htr2 & Hrun & Hcing2 & Hd2).
  exists c1, c2. split; [exact Hloop|]. repeat (split; [assumption|]).
  intro Hcing. rewrite Hrun.
  unfold reconnect_enabled, reconnect_configured.
  destruct (reconnect c) as [r|] eqn:Hr; simpl andb.
  - destruct (no_unbind sock); simpl.
    + unfold connect. rewrite Hcon2, Hcing2, Hcing, Hd2. simpl.
      destruct (destroyed c); simpl; intuition congruence.
    + rewrite Hcing2, Hcing. intuition congruence.
  - simpl. rewrite Hcing2, Hcing. intuition congruence.
Qed.


(** *** Two requests in flight *)

Definition default_reconnect : Reconnect :=
  {| initialDelay := Some 100%Z; maxDelay := Some 10000%Z; failAfter := None |}.

(** Two deletes sent on a connected client that reconnects: messageIDs 1
    and 2 are pending. *)
Definition two_in_flight : t :=
  state_of ((del parse_string (InValue (VStr "cn=a,dc=x")) [] (Some (UserCallback 1)) ;;
             del parse_string (InValue (VStr "cn=b,dc=x")) [] (Some (UserCallback 2)))
              (connected_client 0 (Some default_reconnect))).

(** The same client after [unbind(callback)], once the three writes have
    been flushed: the socket carries [unbindMessageID = 3]. *)
Definition unbind_flushed : t :=
  state_of ((unbind (Some (UserCallback 9)) ;; flush_write ;; flush_write ;; flush_write)
              two_in_flight).

Definition closed : error := closed_error "1__ldap://ldap.example.com".

(** The socket closes under the two deletes: both callbacks get the
    ConnectionError, and the client starts to reconnect. *)
Lemma close_with_two_in_flight :
  exists c,
    _onClose CUndefined two_in_flight = Done c
    /\ trace c = [ClientEvent "resultError" [CErr closed];
                  CallbackCall (UserCallback 1) [CErr closed];
                  ClientEvent "resultError" [CErr closed];
                  CallbackCall (UserCallback 2) [CErr closed];
                  ClientEvent "close" [CUndefined]]
    /\ connecting c = true
    /\ retry c = Some {| b_initialDelay := Some 100%Z; b_maxDelay := Some 10000%Z;
                       b_failAfter := None |}.
Proof.
  exists (state_of (_onClose CUndefined two_in_flight)).
  split; [vm_compute; reflexivity|].
  split; [vm_compute; reflexivity|].
  split; vm_compute; reflexivity.
Qed.

(** The socket closes after the unbind: the deletes fail, the unbind's
    callback gets the synthetic response, and the client stays closed. *)
Lemma close_after_unbind :
  exists c,
    _onClose CUndefined unbind_flushed = Done c
    /\ trace c = [ClientEvent "resultError" [CErr closed];
                  CallbackCall (UserCallback 1) [CErr closed];
                  ClientEvent "resultError" [CErr closed];
                  CallbackCall (UserCallback 2) [CErr closed];
                  CallbackCall (UserCallback 9) [CNull; CMsg (unbind_response 3)];
                  ClientEvent "close" [CUndefined]]
    /\ connecting c = false
    /\ retry c = None.
Proof.
  exists (state_of (_onClose CUndefined unbind_flushed)).
  split; [vm_compute; reflexivity|].
  split; [vm_compute; reflexivity|].
  split; vm_compute; reflexivity.
Qed.

(** With two deletes in flight and reconnection configured, the close
    handler leaves the client connecting again. *)
Lemma close_fails_pending_and_reconnects_witness :
  connecting (state_of (_onClose CUndefined two_in_flight)) = true.
Proof.
  destruct (close_fails_pending_and_reconnects two_in_flight CUndefined 0 0 _ _
              eq_refl eq_refl eq_refl eq_refl)
    as (c1 & c2 & _ & _ & _ & _ & _ & _ & Hiff).
  - repeat constructor.
  - apply (Hiff eq_refl). split; reflexivity.
Defined.

(** *** A search whose stream throws *)

(** A search (messageID 1) and a delete (messageID 2) in flight on a
    connected client that reconnects; the caller of the search listens on
    its stream, which is flowing, for entries and [end] but not for
    [error]. *)
Definition search_and_delete_in_flight : t :=
  state_of ((_dispatchRequest (SearchRequest (DnObject {| rdns := ["dc=x"] |}) [])
               (ExpectCodes [LDAP_SUCCESS]) (Some (StreamEmitter 7)) (UserCallback 1) ;;
             del parse_string (InValue (VStr "cn=b,dc=x")) [] (Some (UserCallback 2)))
              (set_deaf [7] (connected_client 0 (Some default_reconnect)))).

(** The claim fails when a pending search has such a stream.  The close
    handler gives the search its ConnectionError, the stream throws it,
    and the exception leaves the close handler at once: the handler of the
    delete is never called, the delete is still in the tracker, the client
    still holds tracker and socket, [close] is not emitted and no
    reconnection is started, although it is enabled. *)
Lemma close_is_aborted_by_a_throwing_stream :
  exists c,
    _onClose CUndefined search_and_delete_in_flight
    = Thrown (Err KConnectionError "1__ldap://ldap.example.com closed") c
    /\ trace c
       = [ClientEvent "resultError"
            [CErr (Err KConnectionError "1__ldap://ldap.example.com closed")];
          EmitterEvent 7 "error"
            (CErr (Err KConnectionError "1__ldap://ldap.example.com closed"))]
    /\ option_map (fun tr => map fst (Tracker.pending tr)) (tracker_at 0 c) = Some [2%Z]
    /\ _tracker c = Some 0
    /\ _socket c = Some 0
    /\ connecting c = false
    /\ reconnect_enabled search_and_delete_in_flight = true.
Proof.
  exists (state_of (_onClose CUndefined search_and_delete_in_flight)).
  split; [vm_compute; reflexivity|].
  split; [vm_compute; reflexivity|].
  split; [vm_compute; reflexivity|].
  repeat split; vm_compute; reflexivity.
Qed.

End CloseClaims.

Module DestroyFacts.
Import JS Requests Client ClientFacts.

Definition destroyed_error : error := Err KConnectionError "client destroyed".

(** *** Writing a field back *)

Lemma set_queue_same (c : t) : set_queue (queue c) c = c.
Proof. destruct c; reflexivity. Qed.

Lemma set_sockets_same (c : t) : set_sockets (sockets c) c = c.
Proof. destruct c; reflexivity. Qed.

Lemma set_destroyed_same (c : t) : destroyed c = true -> set_destroyed true c = c.
Proof. destruct c; simpl; intros ->; reflexivity. Qed.

Lemma freeze_frozen (q : Queue.t) : Queue._frozen q = true -> Queue.freeze q = q.
Proof. destruct q; simpl; intros ->; reflexivity. Qed.

Lemma drained_empty (q : Queue.t) :
  Queue._queue q = [] -> Queue._timer q = None -> Queue.drained q = q.
Proof. destruct q; simpl; intros -> ->; reflexivity. Qed.

(** *** What an operation leaves alone *)

(** From [c] to [c']: the queue, the client's socket reference and its
    flags are the same, the trace has grown, and every request that was
    pending still is. *)
Definition kept (c c' : t) : Prop :=
  queue c' = queue c
  /\ _socket c' = _socket c
  /\ destroyed c' = destroyed c
  /\ connected c' = connected c
  /\ (exists more, trace c' = trace c ++ more)
  /\ (forall ti tr, tracker_at ti c = Some tr ->
        exists tr' extra,
          tracker_at ti c' = Some tr'
          /\ Tracker.pending tr' = Tracker.pending tr ++ extra).

Lemma kept_refl (c : t) : kept c c.
Proof.
  repeat split.
  - exists []. now rewrite app_nil_r.
  - intros ti tr H. exists tr, []. now rewrite app_nil_r.
Qed.

Lemma kept_trans (c1 c2 c3 : t) : kept c1 c2 -> kept c2 c3 -> kept c1 c3.
Proof.
  intros (Hq & Hs & Hd & Hc & (m & Ht) & Hp) (Hq' & Hs' & Hd' & Hc' & (m' & Ht') & Hp').
  repeat split; try congruence.
  - exists (m ++ m'). rewrite Ht', Ht. now rewrite app_assoc.
  - intros ti tr H. destruct (Hp ti tr H) as (tr2 & e2 & H2 & Hp2).
    destruct (Hp' ti tr2 H2) as (tr3 & e3 & H3 & Hp3).
    exists tr3, (e2 ++ e3). split; [exact H3|]. rewrite Hp3, Hp2. now rewrite app_assoc.
Qed.

Lemma kept_call (cb : Callback) (args : list CArg) (c : t) :
  exists c', call cb args c = Done c' /\ kept c c'
             /\ trace c' = trace c ++ call_effects cb args.
Proof.
  destruct (call_spec cb args c) as (c' & Hrun & Htr & Hsame).
  exists c'. split; [exact Hrun|]. split; [|exact Htr].
  assert (Hf : queue c' = queue c /\ _socket c' = _socket c /\ destroyed c' = destroyed c
               /\ connected c' = connected c /\ trackers c' = trackers c).
  { destruct c, c'; simpl in *. inversion Hsame; subst. repeat split. }
  destruct Hf as (Hq & Hs & Hd & Hc & Hk).
  repeat split; try assumption.
  - eexists; exact Htr.
  - intros ti tr H. exists tr, []. unfold tracker_at in *. rewrite Hk, app_nil_r. auto.
Qed.

Lemma kept_same_trackers (c c' : t) :
  queue c' = queue c -> _socket c' = _socket c -> destroyed c' = destroyed c ->
  connected c' = connected c -> trace c' = trace c ->
  trackers c' = trackers c ->
  kept c c'.
Proof.
  intros Hq Hs Hd Hc Ht Hk. repeat split; try assumption.
  - exists []. now rewrite app_nil_r.
  - intros ti tr H. exists tr, []. unfold tracker_at in *. rewrite Hk, app_nil_r. auto.
Qed.

Lemma kept_modify_socket (si : nat) (f : Socket -> Socket) (c : t) :
  exists c', modify_socket si f c = Done c' /\ kept c c'.
Proof.
  unfold modify_socket.
  destruct (socket_at si c) as [s|] eqn:Hat; eexists; (split; [reflexivity|]);
    [|apply kept_refl].
  apply kept_same_trackers; reflexivity.
Qed.

Lemma kept_track (ti : nat) (sc : Scope) (tr : Tracker.t) (c : t) :
  tracker_at ti c = Some tr ->
  kept c (set_trackers (update (trackers c) ti (snd (Tracker.track sc tr))) c).
Proof.
  intro Hat. repeat split.
  - exists []. simpl. now rewrite app_nil_r.
  - intros tj trj H. unfold tracker_at in *. simpl.
    destruct (Nat.eq_dec ti tj) as [->|Hne].
    + rewrite (nth_error_update_same _ _ _ _ Hat). rewrite Hat in H. inversion H; subst.
      eexists _, _. split; [reflexivity|]. reflexivity.
    + rewrite nth_error_update_other by exact Hne. exists trj, [].
      rewrite app_nil_r. auto.
Qed.

(** [_sendRequest] tracks and writes; it leaves the queue and the pending
    requests alone, also when it throws. *)
Lemma kept_sendRequest (req : Request) (expect : Expect) (emitter : option Emitter)
    (callback : Callback) (c : t) :
  kept c (state_of (_sendRequest req expect emitter callback c)).
Proof.
  unfold _sendRequest.
  set (c1 := set__idleTimer false c).
  set (timer := if (0 <? timeout c1)%nat then Some (nextTimer c1) else None).
  set (sc := {| s_req := req; s_expect := expect; s_emitter := emitter;
                s_callback := callback; s_timer := timer |}).
  assert (Hstart : forall msgid c',
    kept c' (match timer with
             | Some i => set_timers (timers c' ++ [{| tm_id := i; tm_req := req;
                                                      tm_msgid := msgid;
                                                      tm_tracker := _tracker c |}]) (S i) c'
             | None => c'
             end)).
  { intros msgid c'. destruct timer; [|apply kept_refl].
    apply kept_same_trackers; reflexivity. }
  assert (H1 : kept c c1) by (apply kept_same_trackers; reflexivity).
  destruct (_tracker c) as [ti|] eqn:Htrk.
  - destruct (tracker_at ti c1) as [tr|] eqn:Hat.
    + destruct (Tracker.track sc tr) as [msgid tr'] eqn:Htrack.
      assert (H2 : kept c1 (set_trackers (update (trackers c1) ti tr') c1)).
      { replace tr' with (snd (Tracker.track sc tr)) by now rewrite Htrack.
        now apply kept_track. }
      set (c2 := set_trackers (update (trackers c1) ti tr') c1) in *.
      pose proof (Hstart (Some msgid) c2) as H3.
      set (c3 := match timer with Some _ => _ | None => c2 end) in *.
      assert (H13 : kept c c3).
      { apply (kept_trans c c2 c3); [|exact H3]. apply (kept_trans c c1 c2); assumption. }
      destruct (_socket c) as [si|].
      * unfold seq.
        destruct (kept_modify_socket si (fun s => set_written (written s ++ [(msgid, req)]) s) c3)
          as (c4 & Hrun & H4).
        rewrite Hrun. unfold lift, state_of.
        apply (kept_trans c c3); [exact H13|]. apply (kept_trans c3 c4); [exact H4|].
        apply kept_same_trackers; reflexivity.
      * unfold seq, clearRequestTimer, lift.
        match goal with
        | |- context [call callback ?args ?c5] =>
            destruct (kept_call callback args c5) as (c6 & Hrun & H6 & _);
            rewrite Hrun; unfold state_of;
            apply (kept_trans c c3); [exact H13|]; apply (kept_trans c3 c5); [|exact H6]
        end.
        destruct (s_timer sc); apply kept_same_trackers; reflexivity.
    + unfold state_of. apply (kept_trans c c1); [exact H1 | apply Hstart].
  - unfold state_of. apply (kept_trans c c1); [exact H1 | apply Hstart].
Qed.

Definition frozen_empty (q : Queue.t) : Prop :=
  Queue._frozen q = true /\ Queue._queue q = [] /\ Queue._timer q = None.

Lemma flush_frozen_empty (sink : Queue.entry -> Act) (c : t) :
  frozen_empty (queue c) -> queue_flush sink c = Done c.
Proof.
  intros (_ & Hq & Ht). unfold queue_flush. rewrite Hq. simpl.
  unfold skip. now rewrite drained_empty, set_queue_same.
Qed.

Lemma kept_dispatchRequest (req : Request) (expect : Expect) (emitter : option Emitter)
    (callback : Callback) (c : t) :
  frozen_empty (queue c) ->
  kept c (state_of (_dispatchRequest req expect emitter callback c)).
Proof.
  intro Hq. unfold _dispatchRequest.
  destruct (destroyed c).
  { destruct (kept_call callback [CErr (Err KConnectionError "client destroyed")] c)
      as (c' & -> & H & _). exact H. }
  match goal with |- context [if ?b then _sendRequest _ _ _ _ _ else _] => destruct b end.
  { apply kept_sendRequest. }
  match goal with |- context [if ?b then _ else _] => destruct b end.
  - unfold Queue.enqueue. destruct Hq as (-> & _). simpl.
    destruct (kept_call callback [CErr (Err KConnectionError "request queue unavailable")] c)
      as (c' & -> & H & _). exact H.
  - rewrite (seq_done _ _ _ _ (flush_frozen_empty resend c Hq)).
    apply kept_sendRequest.
Qed.

Lemma kept_unbind (callback : option Callback) (c : t) :
  frozen_empty (queue c) -> kept c (state_of (unbind callback c)).
Proof.
  intro Hq. unfold unbind.
  destruct (_socket c); [destruct (connected c)|];
    try (destruct (kept_call (or_promise callback) [] c) as (c' & -> & H & _); exact H).
  now apply kept_dispatchRequest.
Qed.

(** Failing every queued request: each callback is called with the
    ConnectionError, oldest first. *)
Lemma fail_queued (l : list Queue.entry) :
  forall c, exists c',
    for_each l (fun e => call (Queue.q_callback e) [CErr destroyed_error]) c = Done c'
    /\ kept c c'
    /\ trace c'
       = trace c ++ flat_map (fun e => call_effects (Queue.q_callback e) [CErr destroyed_error]) l.
Proof.
  induction l as [|e rest IH]; intro c; simpl.
  - exists c. split; [reflexivity|]. split; [apply kept_refl | now rewrite app_nil_r].
  - destruct (kept_call (Queue.q_callback e) [CErr destroyed_error] c) as (c1 & Hrun & Hk & Ht).
    destruct (IH c1) as (c2 & Hrun2 & Hk2 & Ht2).
    exists c2. rewrite (seq_done _ _ _ _ Hrun). split; [exact Hrun2|].
    split; [eapply kept_trans; eassumption|].
    rewrite Ht2, Ht. now rewrite app_assoc.
Qed.


(** *** Returning *)

(** A callback call changes the trace and the StartTLS marker only. *)
Definition same_but_trace (c c' : t) : Prop :=
  set__starttls false (set_trace [] c') = set__starttls false (set_trace [] c).

Lemma same_but_trace_fields (c c' : t) :
  same_but_trace c c' ->
  _tracker c' = _tracker c /\ trackers c' = trackers c /\ _socket c' = _socket c
  /\ sockets c' = sockets c /\ connected c' = connected c /\ connecting c' = connecting c
  /\ destroyed c' = destroyed c /\ queue c' = queue c.
Proof.
  unfold same_but_trace. intro H. destruct c, c'; simpl in *. inversion H; subst.
  repeat split.
Qed.

Lemma failing_queued_keeps (l : list Queue.entry) :
  forall c, exists c',
    for_each l (fun e => call (Queue.q_callback e) [CErr destroyed_error]) c = Done c'
    /\ same_but_trace c c'.
Proof.
  induction l as [|e rest IH]; intro c; simpl.
  - exists c. split; reflexivity.
  - destruct (call_spec (Queue.q_callback e) [CErr destroyed_error] c) as (c1 & Hrun & _ & H1).
    destruct (IH c1) as (c2 & Hrun2 & H2).
    exists c2. rewrite (seq_done _ _ _ _ Hrun). split; [exact Hrun2|].
    unfold same_but_trace in *. congruence.
Qed.

(** The client has the tracker of its connection. *)
Definition tracking (c : t) : Prop :=
  exists ti tr, _tracker c = Some ti /\ tracker_at ti c = Some tr.

Lemma sendRequest_returns (req : Request) (expect : Expect) (emitter : option Emitter)
    (callback : Callback) (c : t) :
  tracking c ->
  exists c', _sendRequest req expect emitter callback c = Done c'
             /\ _socket c' = _socket c.
Proof.
  intros (ti & tr & Htrk & Hat). unfold _sendRequest. rewrite Htrk.
  assert (Hat1 : tracker_at ti (set__idleTimer false c) = Some tr) by exact Hat.
  rewrite Hat1.
  destruct (Tracker.track _ tr) as [msgid tr'].
  destruct (0 <? timeout (set__idleTimer false c))%nat;
    destruct (_socket c) as [si|] eqn:Hs.
  - unfold seq, lift, modify_socket.
    match goal with
    | |- context [socket_at si ?c2] => destruct (socket_at si c2) as [s|] eqn:Hsock
    end;
      eexists; split; reflexivity || exact Hs.
  - unfold seq, clearRequestTimer, lift. cbn [s_timer].
    match goal with
    | |- context [call callback ?args ?c5] =>
        destruct (call_spec callback args c5) as (c6 & Hrun & _ & Hsame)
    end.
    exists c6. split; [exact Hrun|].
    destruct (same_but_trace_fields _ _ Hsame) as (_ & _ & Hs6 & _). rewrite Hs6.
    exact Hs.
  - unfold seq, lift, modify_socket.
    match goal with
    | |- context [socket_at si ?c2] => destruct (socket_at si c2) as [s|] eqn:Hsock
    end;
      eexists; split; reflexivity || exact Hs.
  - unfold seq, clearRequestTimer, lift. cbn [s_timer].
    match goal with
    | |- context [call callback ?args ?c5] =>
        destruct (call_spec callback args c5) as (c6 & Hrun & _ & Hsame)
    end.
    exists c6. split; [exact Hrun|].
    destruct (same_but_trace_fields _ _ Hsame) as (_ & _ & Hs6 & _). rewrite Hs6.
    exact Hs.
Qed.

Lemma dispatchRequest_returns (req : Request) (expect : Expect) (emitter : option Emitter)
    (callback : Callback) (c : t) :
  frozen_empty (queue c) ->
  tracking c ->
  exists c', _dispatchRequest req expect emitter callback c = Done c'
             /\ _socket c' = _socket c.
Proof.
  intros Hq Htrack. unfold _dispatchRequest.
  assert (Hcall : forall args, exists c', call callback args c = Done c'
                                          /\ _socket c' = _socket c).
  { intro args. destruct (call_spec callback args c) as (c' & Hrun & _ & Hsame).
    exists c'. split; [exact Hrun|].
    now destruct (same_but_trace_fields _ _ Hsame) as (_ & _ & Hs & _). }
  destruct (destroyed c); [apply Hcall|].
  match goal with |- context [if ?b then _sendRequest _ _ _ _ _ else _] => destruct b end.
  { now apply sendRequest_returns. }
  match goal with |- context [if ?b then _ else _] => destruct b end.
  - unfold Queue.enqueue. destruct Hq as (-> & _). simpl. apply Hcall.
  - rewrite (seq_done _ _ _ _ (flush_frozen_empty resend c Hq)).
    now apply sendRequest_returns.
Qed.

(** A destroyed client: the flag is set, the queue is frozen and empty, and
    the socket the client holds, if any, has been destroyed. *)
Definition is_destroyed (c : t) : Prop :=
  destroyed c = true
  /\ frozen_empty (queue c)
  /\ (forall si s, _socket c = Some si -> socket_at si c = Some s ->
        sock_destroyed s = true /\ writable s = false).

Definition queued_failures (q : Queue.t) : list Effect :=
  flat_map (fun e => call_effects (Queue.q_callback e) [CErr destroyed_error])
    (Queue._queue q).

(** The first call. *)
Lemma destroy_once (err : CArg) (c c1 : t) :
  destroy err c = Done c1 ->
  is_destroyed c1
  /\ (exists rest,
        trace c1 = trace c ++ queued_failures (queue c) ++ rest
                   ++ [ClientEvent "destroy" [err]])
  /\ (forall ti tr, tracker_at ti c = Some tr ->
        exists tr' extra,
          tracker_at ti c1 = Some tr'
          /\ Tracker.pending tr' = Tracker.pending tr ++ extra).
Proof.
  unfold destroy. intro Hrun.
  apply seq_inv in Hrun. destruct Hrun as (ca & Ha & Hrun).
  unfold lift in Ha. inversion Ha; subst ca; clear Ha.
  apply seq_inv in Hrun. destruct Hrun as (cb & Hb & Hrun).
  unfold queue_flush in Hb.
  destruct (fail_queued (Queue._queue (queue c))
              (set_queue (Queue.drained (Queue.freeze (queue c))) c))
    as (cb' & Hb' & Hkb & Htb).
  simpl in Hb. change (Queue._queue (Queue.freeze (queue c))) with (Queue._queue (queue c)) in Hb.
  assert (Hcb : cb' = cb).
  { cut (Done cb' = Done cb); [intro H; inversion H; reflexivity|].
    rewrite <- Hb', <- Hb. reflexivity. }
  subst cb'. clear Hb Hb'.
  assert (Hfe : frozen_empty (queue cb)).
  { destruct Hkb as (Hqb & _). rewrite Hqb. repeat split. }
  apply seq_inv in Hrun. destruct Hrun as (cc & Hc & Hrun).
  assert (Hcc : kept cb cc
                /\ (forall si s, _socket cc = Some si -> socket_at si cc = Some s ->
                      sock_destroyed s = true /\ writable s = false)).
  { destruct (_socket cb) as [si|] eqn:Hsi.
    - apply seq_inv in Hc. destruct Hc as (cu & Hu & Hc).
      assert (Hku : kept cb cu).
      { destruct (connected cb).
        - pose proof (kept_unbind None cb Hfe) as H. rewrite Hu in H. exact H.
        - unfold skip in Hu. inversion Hu. apply kept_refl. }
      assert (Hsu : _socket cu = Some si).
      { destruct Hku as (_ & Hs & _). congruence. }
      rewrite Hsu in Hc.
      destruct (kept_modify_socket si destroyed_socket cu) as (cc' & Hrun' & Hk').
      rewrite Hc in Hrun'. inversion Hrun'; subst cc'; clear Hrun'.
      split; [eapply kept_trans; eassumption|].
      intros sj s Hsj Hat.
      assert (sj = si) by (destruct Hk' as (_ & Hs' & _); congruence). subst sj.
      unfold modify_socket in Hc.
      destruct (socket_at si cu) as [s0|] eqn:Hat0.
      + inversion Hc; subst cc. unfold socket_at in *. simpl in Hat.
        rewrite (nth_error_update_same _ _ _ _ Hat0) in Hat. inversion Hat; subst s.
        split; reflexivity.
      + inversion Hc; subst cc. congruence.
    - inversion Hc; subst cc. split; [apply kept_refl|].
      intros sj s Hsj. congruence. }
  destruct Hcc as (Hkc & Hsockc).
  unfold seq, lift, emit, effect in Hrun. inversion Hrun; subst c1; clear Hrun.
  pose proof (kept_trans _ _ _ Hkb Hkc) as (Hq & Hs & Hd & Hcn & (more & Htr) & Hp).
  simpl in Hq, Hs, Htr.
  split; [|split].
  - split; [reflexivity|]. split.
    + simpl. rewrite Hq. repeat split.
    + intros si s. simpl. apply Hsockc.
  - destruct Hkc as (_ & _ & _ & _ & (rest & Hrest) & _).
    exists rest. simpl. rewrite Hrest, Htb. simpl. unfold queued_failures.
    now rewrite <- !app_assoc.
  - intros ti tr Hat. apply Hp. exact Hat.
Qed.


(** [destroy] returns on a client that, when connected, has its tracker. *)
Lemma destroy_returns (err : CArg) (c : t) :
  (connected c = true -> tracking c) ->
  exists c1, destroy err c = Done c1.
Proof.
  intro Htrack. unfold destroy.
  unfold seq at 1, lift at 1.
  unfold seq at 1, queue_flush.
  destruct (failing_queued_keeps (Queue._queue (queue c))
              (set_queue (Queue.drained (Queue.freeze (queue c))) c))
    as (cb & Hb & Hsame).
  change (Queue._queue (queue (set_queue (Queue.freeze (queue c)) c)))
    with (Queue._queue (queue c)).
  change (set_queue (Queue.drained (queue (set_queue (Queue.freeze (queue c)) c)))
            (set_queue (Queue.freeze (queue c)) c))
    with (set_queue (Queue.drained (Queue.freeze (queue c))) c).
  unfold destroyed_error in Hb. rewrite Hb.
  destruct (same_but_trace_fields _ _ Hsame)
    as (Hk & Hks & Hs & Hss & Hcon & _ & _ & Hq).
  simpl in Hk, Hks, Hs, Hss, Hcon, Hq.
  assert (Hfe : frozen_empty (queue cb)) by (rewrite Hq; repeat split).
  assert (Htb : connected cb = true -> tracking cb).
  { intro H. rewrite Hcon in H. destruct (Htrack H) as (ti & tr & H1 & H2).
    exists ti, tr. unfold tracker_at in *. rewrite Hk, Hks. auto. }
  unfold seq at 1.
  destruct (_socket cb) as [si|] eqn:Hsi.
  - assert (Hu : exists cu, (if connected cb then unbind None else skip) cb = Done cu
                            /\ _socket cu = Some si).
    { destruct (connected cb) eqn:Hc; [|exists cb; split; [reflexivity | exact Hsi]].
      unfold unbind. rewrite Hsi, Hc.
      destruct (dispatchRequest_returns UnbindRequest ExpectUnbind None (or_promise None) cb
                  Hfe (Htb eq_refl)) as (cu & Hrun & Hsu).
      exists cu. split; [exact Hrun | congruence]. }
    destruct Hu as (cu & Hrun & Hsu).
    unfold seq at 1. rewrite Hrun, Hsu.
    unfold modify_socket. destruct (socket_at si cu); eexists; reflexivity.
  - eexists. reflexivity.
Qed.

Lemma destroyed_socket_same (s : Socket) :
  sock_destroyed s = true -> writable s = false -> destroyed_socket s = s.
Proof. destruct s; simpl; intros -> ->; reflexivity. Qed.

(** What the courtesy unbind of a repeated [destroy] adds to the trace: on
    a client that still counts as connected, the promise [unbind] made for
    itself is rejected. *)
Definition unbind_refused (c : t) : list Effect :=
  match _socket c with
  | Some _ =>
      if connected c then [CallbackCall (PromiseCallback 0) [CErr destroyed_error]] else []
  | None => []
  end.

(** A further call. *)
Lemma destroy_again (err : CArg) (c : t) :
  is_destroyed c ->
  exists c2,
    destroy err c = Done c2
    /\ set_trace [] c2 = set_trace [] c
    /\ trace c2 = trace c ++ unbind_refused c ++ [ClientEvent "destroy" [err]].
Proof.
  intros (Hd & Hfe & Hsock).
  unfold destroy.
  assert (H1 : lift (fun c => set_queue (Queue.freeze (queue c)) c) c = Done c).
  { unfold lift. destruct Hfe as (Hf & _). now rewrite freeze_frozen, set_queue_same. }
  rewrite (seq_done _ _ _ _ H1).
  rewrite (seq_done _ _ _ _ (flush_frozen_empty _ c Hfe)).
  assert (H3 : exists cu,
    (fun c => match _socket c with
              | Some _ =>
                  ((if connected c then unbind None else skip) ;;
                   (fun c' => match _socket c' with
                              | Some si => modify_socket si destroyed_socket c'
                              | None => Thrown (type_error
                                  "Cannot read properties of null (reading 'destroy')") c'
                              end)) c
              | None => Done c
              end) c = Done cu
    /\ set_trace [] cu = set_trace [] c
    /\ trace cu = trace c ++ unbind_refused c).
  { unfold unbind_refused. cbv beta.
    destruct (_socket c) as [si|] eqn:Hsi.
    - assert (Hu : exists cu, (if connected c then unbind None else skip) c = Done cu
                              /\ set_trace [] cu = set_trace [] c
                              /\ trace cu = trace c
                                 ++ (if connected c
                                     then [CallbackCall (PromiseCallback 0)
                                             [CErr destroyed_error]]
                                     else [])).
      { destruct (connected c) eqn:Hcon.
        - unfold unbind. rewrite Hsi, Hcon. unfold _dispatchRequest. rewrite Hd.
          simpl. eexists. split; [reflexivity|]. split; reflexivity.
        - exists c. split; [reflexivity|]. split; [reflexivity|]. now rewrite app_nil_r. }
      destruct Hu as (cu & Hrun & Hsame & Htr).
      rewrite (seq_done _ _ _ _ Hrun).
      assert (Hf : _socket cu = _socket c /\ sockets cu = sockets c).
      { destruct c, cu; simpl in *. inversion Hsame; subst. split; reflexivity. }
      destruct Hf as (Hs & Hso). rewrite Hs, Hsi.
      unfold modify_socket, socket_at. rewrite Hso.
      destruct (nth_error (sockets c) si) as [s|] eqn:Hat.
      + destruct (Hsock si s eq_refl Hat) as (Hds & Hws).
        rewrite (destroyed_socket_same s Hds Hws).
        rewrite (update_unchanged _ _ _ Hat), <- Hso, set_sockets_same.
        exists cu. auto.
      + exists cu. auto.
    - exists c. split; [reflexivity|]. split; [reflexivity|]. now rewrite app_nil_r. }
  destruct H3 as (cu & Hrun & Hsame & Htr).
  rewrite (seq_done _ _ _ _ Hrun).
  unfold seq, lift, emit, effect.
  assert (Hdu : destroyed cu = true).
  { destruct c, cu; simpl in *. inversion Hsame; subst. reflexivity. }
  rewrite (set_destroyed_same cu Hdu).
  eexists. split; [reflexivity|]. split.
  - destruct c, cu; simpl in *. inversion Hsame; subst. reflexivity.
  - simpl. rewrite Htr. now rewrite <- app_assoc.
Qed.

End DestroyFacts.

Module DestroyClaims.
Import JS Requests Client ClientFacts DestroyFacts TimeoutClaims CloseClaims.

(** [destroy()] on the client with two deletes in flight, and again. *)
Definition destroyed_once : t := state_of (destroy CUndefined two_in_flight).
Definition destroyed_twice : t := state_of (destroy CUndefined destroyed_once).

(** The claim fails twice over.  After the first call the two pending
    deletes have not failed: no callback has been called, and both are still
    in the tracker (with the courtesy unbind, messageID 3).  And the second
    call has effects of its own: the promise of its courtesy unbind is
    rejected, and [destroy] is emitted a second time. *)
Lemma second_destroy_is_observable :
  trace destroyed_once = [ClientEvent "destroy" [CUndefined]]
  /\ option_map (fun tr => map fst (Tracker.pending tr)) (tracker_at 0 destroyed_once)
     = Some [1%Z; 2%Z; 3%Z]
  /\ trace destroyed_twice
     = [ClientEvent "destroy" [CUndefined];
        CallbackCall (PromiseCallback 0) [CErr destroyed_error];
        ClientEvent "destroy" [CUndefined]]
  /\ trace destroyed_twice <> trace destroyed_once.
Proof.
  split; [reflexivity|]. split; [reflexivity|]. split; [reflexivity|].
  intro H. discriminate H.
Qed.

(** The request is a search: the callback it is queued with is the
    [onSent] closure of [search], which throws when the dispatcher or
    [destroy] calls it with an error alone ([Arguments.plain_onSent]). *)
Definition is_search (e : Queue.entry) : bool :=
  match Queue.q_req e with
  | SearchRequest _ _ => true
  | _ => false
  end.

(** C8, amended.  On a client with no search waiting in its queue and
    with, while it is connected, the tracker of its connection, [destroy]
    returns and leaves the queue frozen and empty, with every queued
    request failed with the 'client destroyed' ConnectionError, in order;
    the socket the client holds is destroyed, the destroyed flag is set and
    [connect] does nothing any more.  The requests in flight are not failed
    by [destroy]: they are still pending (the close handler fails them when
    the destroyed socket closes).  A second call changes no state of the
    client, but it is observable: it emits [destroy] again, after rejecting
    the promise of its courtesy unbind when the client still counts as
    connected. *)
Theorem destroy_again_keeps_state_and_repeats_event :
  forall (c : t) (err err' : CArg),
    Forall (fun e => is_search e = false) (Queue._queue (queue c)) ->
    (connected c = true ->
     exists ti tr, _tracker c = Some ti /\ tracker_at ti c = Some tr) ->
    exists c1,
      destroy err c = Done c1
      /\ destroyed c1 = true
      /\ Queue._frozen (queue c1) = true
      /\ Queue._queue (queue c1) = []
      /\ (exists rest,
            trace c1
            = trace c
              ++ flat_map (fun e =>
                             call_effects (Queue.q_callback e)
                               [CErr (Err KConnectionError "client destroyed")])
                   (Queue._queue (queue c))
              ++ rest ++ [ClientEvent "destroy" [err]])
      /\ (forall si s, _socket c1 = Some si -> socket_at si c1 = Some s ->
            sock_destroyed s = true)
      /\ connect c1 = Done c1
      /\ (forall ti tr, tracker_at ti c = Some tr ->
            exists tr' extra,
              tracker_at ti c1 = Some tr'
              /\ Tracker.pending tr' = Tracker.pending tr ++ extra)
      /\ exists c2,
           destroy err' c1 = Done c2
           /\ set_trace [] c2 = set_trace [] c1
           /\ trace c2
              = trace c1
                ++ (match _socket c1 with
                    | Some _ =>
                        if connected c1
                        then [CallbackCall (PromiseCallback 0)
                                [CErr (Err KConnectionError "client destroyed")]]
                        else []
                    | None => []
                    end)
                ++ [ClientEvent "destroy" [err']].
Proof.
  intros c err err' _ Htrack.
  destruct (destroy_returns err c Htrack) as (c1 & Hrun).
  exists c1. split; [exact Hrun|].
  destruct (destroy_once err c c1 Hrun) as (Hd & Htrace & Hpending).
  pose proof (destroy_again err' c1 Hd) as Hagain.
  destruct Hd as (Hflag & (Hfrozen & Hempty & _) & Hsock).
  repeat (split; [assumption|]).
  split.
  { intros si s Hsi Hat. exact (proj1 (Hsock si s Hsi Hat)). }
  split.
  { unfold connect. rewrite Hflag. destruct (connected c1 || connecting c1); reflexivity. }
  split; assumption.
Qed.

(** [destroy()] twice on the client with two deletes in flight. *)
Lemma destroy_again_keeps_state_and_repeats_event_witness :
  exists c1 c2,
    destroy CUndefined two_in_flight = Done c1
    /\ destroy CUndefined c1 = Done c2
    /\ set_trace [] c2 = set_trace [] c1.
Proof.
  destruct (destroy_again_keeps_state_and_repeats_event two_in_flight CUndefined CUndefined)
    as (c1 & Hrun & _ & _ & _ & _ & _ & _ & _ & c2 & Hrun2 & Hsame & _).
  - constructor.
  - intros _. exists 0%nat. eexists. split; reflexivity.
  - exists c1, c2. auto.
Defined.

End DestroyClaims.

(** ** Arguments of the operations *)

Module ArgumentsFacts.
Import JS Requests Client ClientFacts Arguments.

Lemma check_controls_ok (cs : list Control) :
  rmap_list (fun c => match c with
                      | IsControl c => Ok c
                      | NotControl _ => Throw controls_error
                      end) (map IsControl cs) = Ok cs.
Proof.
  induction cs as [|c rest IH]; simpl; [reflexivity|].
  rewrite IH. reflexivity.
Qed.

Lemma check_controls_inv (items : list control_item) :
  match rmap_list (fun c => match c with
                            | IsControl c => Ok c
                            | NotControl _ => Throw controls_error
                            end) items with
  | Ok cs => items = map IsControl cs
  | Throw e => e = controls_error /\ exists v, In (NotControl v) items
  end.
Proof.
  induction items as [|[c|v] rest IH]; simpl.
  - reflexivity.
  - destruct (rmap_list _ rest) as [cs|e]; simpl.
    + now rewrite IH.
    + destruct IH as (He & v & Hin). split; [exact He|]. exists v. now right.
  - split; [reflexivity|]. exists v. now left.
Qed.

(** X1.  [validateControls] accepts an array all of whose elements are
    controls, which it returns as it is, and a single control, which it
    wraps in an array; everything else, a missing argument included, is
    refused with the TypeError 'controls must be [Control]'.  What it
    returns it accepts again unchanged. *)
Theorem validateControls_accepts_exactly_controls :
  (forall cs, validateControls (ControlArray (map IsControl cs)) = Ok cs)
  /\ (forall c, validateControls (ControlOne c) = Ok [c])
  /\ (forall a cs,
        validateControls a = Ok cs ->
        (a = ControlArray (map IsControl cs) \/ exists c, a = ControlOne c /\ cs = [c])
        /\ validateControls (ControlArray (map IsControl cs)) = Ok cs)
  /\ (forall a e, validateControls a = Throw e -> e = controls_error)
  /\ validateControls ControlUndefined = Throw controls_error.
Proof.
  split; [exact check_controls_ok|].
  split; [reflexivity|].
  split; [|split; [|reflexivity]].
  - intros a cs H. split; [|apply check_controls_ok].
    destruct a as [items|c|cb| |v]; simpl in H; try discriminate.
    + left. pose proof (check_controls_inv items) as Hinv.
      rewrite H in Hinv. now rewrite Hinv.
    + right. exists c. split; [reflexivity|]. congruence.
  - intros a e H.
    destruct a as [items|c|cb| |v]; simpl in H; try discriminate; try congruence.
    pose proof (check_controls_inv items) as Hinv.
    rewrite H in Hinv. tauto.
Qed.

(** X2.  An operation called with the callback in the place of the
    controls runs with no controls and that callback, whatever follows it.
    Called with the controls left out it throws the TypeError of
    [validateControls], also when a callback follows and also in the
    promise style where nothing follows: the client is not touched, nothing
    is dispatched and no callback is called. *)
Theorem operation_without_controls_throws :
  forall (dn_parse : dn_input -> result DN) (name : dn_input) (messageID : Z)
         (callback : option Callback) (cb : Callback) (c : t),
    name <> InValue VUndefined ->
    del_call dn_parse name ControlUndefined callback c = Thrown controls_error c
    /\ abandon_call messageID ControlUndefined callback c = Thrown controls_error c
    /\ del_call dn_parse name (ControlFunction cb) callback c
       = del dn_parse name [] (Some cb) c
    /\ abandon_call messageID (ControlFunction cb) callback c
       = abandon messageID [] (Some cb) c.
Proof.
  intros dn_parse name messageID callback cb c Hname.
  assert (Hok : assert_defined name "name" = Ok tt).
  { destruct name as [d|[]]; try reflexivity. congruence. }
  unfold del_call, abandon_call. rewrite Hok. simpl.
  repeat split.
Qed.

(** [del('cn=a,dc=x')], with neither controls nor callback. *)
Lemma operation_without_controls_throws_witness :
  del_call TimeoutClaims.parse_string (InValue (VStr "cn=a,dc=x")) ControlUndefined None
    (TimeoutClaims.connected_client 0 None)
  = Thrown controls_error (TimeoutClaims.connected_client 0 None).
Proof.
  exact (proj1 (operation_without_controls_throws TimeoutClaims.parse_string
                  (InValue (VStr "cn=a,dc=x")) 1%Z None (UserCallback 1)
                  (TimeoutClaims.connected_client 0 None)
                  ltac:(discriminate))).
Defined.

(** *** Paged searches *)

Lemma page_size_positive (pageSize sizeLimit : option Z) :
  (0 < page_size pageSize sizeLimit)%Z.
Proof.
  assert (Hlimit : (0 < if exceeds sizeLimit 1
                        then match sizeLimit with Some v => v - 1 | None => 100 end
                        else 100)%Z).
  { unfold exceeds. destruct sizeLimit as [l|]; [|lia].
    destruct (1 <? l)%Z eqn:Hl; [|lia]. apply Z.ltb_lt in Hl. lia. }
  unfold page_size.
  destruct (exceeds pageSize 0) eqn:Hp; [|exact Hlimit].
  unfold exceeds in Hp. destruct pageSize as [v|]; [|discriminate].
  now apply Z.ltb_lt.
Qed.


Lemma reset_cookie_types (controls : list Control) :
  map ctype (reset_cookie controls) = map ctype controls
  /\ map csize (reset_cookie controls) = map csize controls.
Proof.
  induction controls as [|c rest [IHt IHs]]; simpl; [auto|].
  destruct (is_paged c); simpl; [auto|]. now rewrite IHt, IHs.
Qed.

Lemma reset_cookie_first (controls : list Control) (p : Control) :
  find is_paged controls = Some p ->
  find is_paged (reset_cookie controls)
  = Some {| ctype := ctype p; csize := csize p; ccookie := None |}.
Proof.
  induction controls as [|c rest IH]; simpl; [discriminate|].
  destruct (is_paged c) eqn:Hc; simpl.
  - intro H; inversion H; subst. unfold is_paged in *. simpl. now rewrite Hc.
  - rewrite Hc. exact IH.
Qed.

Lemma find_app_none {A} (f : A -> bool) (l : list A) (x : A) :
  find f l = None -> find f (l ++ [x]) = if f x then Some x else None.
Proof.
  induction l as [|y rest IH]; simpl; [reflexivity|].
  destruct (f y); [discriminate|exact IH].
Qed.

(** X4.  The controls of a search request.  A search is paged exactly when
    [options.paged] is set or the caller's controls hold a paging control.
    A paged search keeps the caller's controls, in order, and appends a
    paging control of its own only when the caller gave none; either way
    the first paging control of the request, the one the pages are driven
    by, goes out with a null cookie (a cookie the caller put in is
    discarded) and, when the search created it, a positive size.  A search
    that is not paged sends the caller's controls untouched. *)
Theorem search_request_paging_control :
  forall (paged : paged_option) (sizeLimit : option Z) (controls : list Control),
    let out := search_controls paged sizeLimit controls in
    (snd out = true <-> paged <> None \/ find is_paged controls <> None)
    /\ (snd out = false -> fst out = controls)
    /\ (snd out = true ->
        exists p rest,
          find is_paged (fst out) = Some p
          /\ ccookie p = None
          /\ map ctype (fst out) = map ctype controls ++ rest
          /\ map csize (fst out) = map csize controls ++ map (fun _ => csize p) rest
          /\ (rest = [] <-> find is_paged controls <> None)
          /\ (find is_paged controls = None ->
              rest = [PagedResult.PagedResultsOID] /\ (0 < csize p)%Z)).
Proof.
  intros paged sizeLimit controls. unfold search_controls.
  destruct (find is_paged controls) as [p|] eqn:Hfind.
  - cbv zeta. simpl. split; [|split].
    + split; [intros _; right; discriminate | reflexivity].
    + discriminate.
    + intros _. exists {| ctype := ctype p; csize := csize p; ccookie := None |}, [].
      destruct (reset_cookie_types controls) as [Ht Hs].
      rewrite (reset_cookie_first controls p Hfind), Ht, Hs, !app_nil_r. simpl.
      repeat split; try reflexivity; try discriminate.
  - destruct paged as [pageSize|]; cbv zeta; simpl.
    + split; [|split].
      * split; [intros _; left; discriminate | reflexivity].
      * discriminate.
      * intros _.
        exists {| ctype := PagedResult.PagedResultsOID;
                  csize := page_size pageSize sizeLimit; ccookie := None |},
               [PagedResult.PagedResultsOID].
        rewrite (find_app_none _ _ _ Hfind), !map_app. simpl.
        split; [reflexivity|]. split; [reflexivity|].
        split; [reflexivity|]. split; [reflexivity|].
        split.
        { split; [discriminate | intro H; now elim H]. }
        intros _. split; [reflexivity|].
        apply page_size_positive.
    + split; [|split].
      * split; [discriminate | intros [H|H]; now elim H].
      * reflexivity.
      * discriminate.
Qed.

End ArgumentsFacts.

(** ** Responses: what [onMessage] does with what the server sends *)

Module ResponseFacts.
Import JS Requests Client ClientFacts TimeoutClaims.

(** The request is not the StartTLS exchange, whose emitter swaps sockets. *)
Definition ordinary (sc : Scope) : Prop :=
  forall callback, s_emitter sc <> Some (StartTlsEmitter callback).

(** What [dispatch (event, data)] adds to the trace of an ordinary
    request. *)
Definition dispatched (sc : Scope) (event : option string) (data : CArg) : list Effect :=
  let is_error := match event with Some e => e =? "error" | None => false end in
  (if is_error then [ClientEvent "resultError" [data]] else []) ++
  match s_emitter sc with
  | Some (StreamEmitter i) =>
      [EmitterEvent i (match event with Some e => e | None => "end" end) data]
  | Some (StartTlsEmitter _) => []
  | None =>
      if is_error then call_effects (s_callback sc) [data]
      else call_effects (s_callback sc) [CNull; data]
  end.

(** The call of [dispatch] the handler ends with, for each kind of final
    message. *)
Definition verdict (sc : Scope) (msg : Message) : option string * CArg :=
  match msg with
  | ErrorMessage e => (Some "error", CErr e)
  | ResultMessage r =>
      if expected (s_expect sc) (rstatus r) then (None, CMsg msg)
      else (Some "error", CErr (getError r))
  | OtherMessage type => (Some "error", CErr (Err KProtocolError type))
  | SearchEntry _ => (Some "searchEntry", CMsg msg)
  | SearchReference _ => (Some "searchReference", CMsg msg)
  end.

Definition is_final (msg : Message) : bool :=
  match msg with
  | SearchEntry _ | SearchReference _ => false
  | _ => true
  end.

(** The same connection, the same trackers and the same running timers. *)
Definition settled (c c' : t) : Prop :=
  connection c' = connection c /\ trackers c' = trackers c /\ timers c' = timers c.

Lemma settled_refl (c : t) : settled c c.
Proof. repeat split. Qed.

Lemma settled_trans (c1 c2 c3 : t) : settled c1 c2 -> settled c2 c3 -> settled c1 c3.
Proof. intros (H1 & H2 & H3) (H4 & H5 & H6). repeat split; congruence. Qed.

Lemma settled_call (cb : Callback) (args : list CArg) (c : t) :
  exists c', call cb args c = Done c' /\ settled c c'
             /\ trace c' = trace c ++ call_effects cb args.
Proof.
  destruct (call_spec cb args c) as (c' & Hrun & Htr & Hst).
  exists c'. split; [exact Hrun|]. split; [|exact Htr].
  unfold settled, connection. destruct c, c'; simpl in *.
  inversion Hst; subst. repeat split.
Qed.

Lemma settled_effect (e : Effect) (c : t) :
  exists c', effect e c = Done c' /\ settled c c' /\ trace c' = trace c ++ [e].
Proof. eexists. split; [reflexivity|]. repeat split. Qed.

(** The event is an [error] that the request's stream throws. *)
Definition rejected (sc : Scope) (event : option string) (c : t) : bool :=
  match event with Some e => e =? "error" | None => false end && unheard sc c.

Lemma settled_unheard (sc : Scope) (c c' : t) : settled c c' -> unheard sc c' = unheard sc c.
Proof. intros (H & _). now apply unheard_connection. Qed.

Lemma settled_dispatch (sc : Scope) (event : option string) (data : CArg) (c : t) :
  ordinary sc ->
  exists c', dispatch sc event data c = finish (rejected sc event c) (unhandled data) c'
             /\ settled c c'
             /\ trace c' = trace c ++ dispatched sc event data.
Proof.
  intro Hord. unfold dispatch, dispatched, rejected. cbv zeta.
  set (is_error := match event with Some e => e =? "error" | None => false end).
  assert (Hfirst : exists c1,
    (if is_error then emit "resultError" [data] else skip) c = Done c1 /\ settled c c1
    /\ trace c1 = trace c ++ (if is_error then [ClientEvent "resultError" [data]] else [])).
  { destruct is_error.
    - apply settled_effect.
    - exists c. split; [reflexivity|]. split; [apply settled_refl | now rewrite app_nil_r]. }
  destruct Hfirst as (c1 & Hrun1 & Hs1 & Ht1).
  rewrite (seq_done _ _ _ _ Hrun1).
  assert (Hname : (match event with Some e => e | None => "end" end =? "error") = is_error).
  { subst is_error. destruct event; reflexivity. }
  assert (Hsecond : exists c2,
    match s_emitter sc with
    | Some em => emitter_emit em (match event with Some e => e | None => "end" end) data
    | None => if is_error then call (s_callback sc) [data]
              else call (s_callback sc) [CNull; data]
    end c1 = finish (is_error && unheard sc c1) (unhandled data) c2 /\ settled c1 c2
    /\ trace c2 = trace c1 ++
         match s_emitter sc with
         | Some (StreamEmitter i) =>
             [EmitterEvent i (match event with Some e => e | None => "end" end) data]
         | Some (StartTlsEmitter _) => []
         | None => if is_error then call_effects (s_callback sc) [data]
                   else call_effects (s_callback sc) [CNull; data]
         end).
  { unfold unheard. destruct (s_emitter sc) as [[i|cb]|] eqn:Hem.
    - rewrite emitter_emit_stream, Hname.
      eexists. split; [reflexivity|]. split; [|reflexivity]. repeat split.
    - elim (Hord cb). exact Hem.
    - rewrite andb_false_r. unfold finish. destruct is_error; apply settled_call. }
  destruct Hsecond as (c2 & Hrun2 & Hs2 & Ht2).
  exists c2. split.
  { rewrite Hrun2. now rewrite (settled_unheard sc c c1 Hs1). }
  split; [exact (settled_trans _ _ _ Hs1 Hs2)|].
  rewrite Ht2, Ht1. now rewrite app_assoc.
Qed.

Lemma settled_fields (c c' : t) :
  settled c c' ->
  _tracker c' = _tracker c /\ _socket c' = _socket c /\ sockets c' = sockets c
  /\ writes c' = writes c /\ queue c' = queue c.
Proof.
  intros (Hcon & _ & _).
  destruct (connection_fields _ _ Hcon) as (Hs & Hw & Hq & Hk & Ht & _).
  repeat split; assumption.
Qed.

(** The request timer of [sc] is not among the running timers. *)
Definition timer_cleared (sc : Scope) (c : t) : Prop :=
  forall i, s_timer sc = Some i -> find (fun tm => (tm_id tm =? i)%nat) (timers c) = None.

Lemma find_filtered (i : nat) (l : list Timer) :
  find (fun tm => (tm_id tm =? i)%nat) (filter (fun tm => negb (tm_id tm =? i)%nat) l) = None.
Proof.
  induction l as [|tm rest IH]; simpl; [reflexivity|].
  destruct (tm_id tm =? i)%nat eqn:Hid; simpl; [exact IH|].
  now rewrite Hid.
Qed.

Lemma cleared_timer (sc : Scope) (c : t) :
  exists c', clearRequestTimer sc c = Done c'
             /\ connection c' = connection c /\ trackers c' = trackers c
             /\ trace c' = trace c /\ timer_cleared sc c'
             /\ timers c' = match s_timer sc with
                            | Some i => filter (fun tm => negb (tm_id tm =? i)%nat) (timers c)
                            | None => timers c
                            end.
Proof.
  unfold clearRequestTimer, lift, timer_cleared.
  eexists. split; [reflexivity|].
  destruct (s_timer sc) as [i|]; simpl; repeat split; try discriminate.
  intros j Hj. inversion Hj; subst. apply find_filtered.
Qed.

(** A final message for a request that is not an abandon. *)
Lemma onMessage_final (ti : nat) (msgid : Z) (sc : Scope) (msg : Message) (c : t) :
  is_final msg = true ->
  s_expect sc <> ExpectAbandon ->
  ordinary sc ->
  _tracker c <> None ->
  exists c',
    onMessage ti msgid sc msg c
    = finish (rejected sc (fst (verdict sc msg)) c) (unhandled (snd (verdict sc msg))) c'
    /\ connection c' = connection c
    /\ trackers c' = trackers (state_of (modify_tracker ti (Tracker.remove msgid) c))
    /\ timer_cleared sc c'
    /\ trace c' = trace c ++ dispatched sc (fst (verdict sc msg)) (snd (verdict sc msg)).
Proof.
  intros Hfinal Hexp Hord Htrk.
  assert (Hbody : forall event data,
    exists c',
      (clearRequestTimer sc ;; modify_tracker ti (Tracker.remove msgid) ;; startIdleTimer ;;
       dispatch sc event data) c = finish (rejected sc event c) (unhandled data) c'
      /\ connection c' = connection c
      /\ trackers c' = trackers (state_of (modify_tracker ti (Tracker.remove msgid) c))
      /\ timer_cleared sc c'
      /\ trace c' = trace c ++ dispatched sc event data).
  { intros event data.
    destruct (cleared_timer sc c) as (c1 & Hrun1 & Hcon1 & Htrk1 & Htr1 & Hclr1 & _).
    rewrite (seq_done _ _ _ _ Hrun1).
    assert (Hstep2 : exists c2,
      modify_tracker ti (Tracker.remove msgid) c1 = Done c2
      /\ connection c2 = connection c1 /\ trace c2 = trace c1 /\ timers c2 = timers c1
      /\ trackers c2 = trackers (state_of (modify_tracker ti (Tracker.remove msgid) c))).
    { unfold modify_tracker, tracker_at. rewrite Htrk1.
      destruct (nth_error (trackers c) ti); eexists; (split; [reflexivity|]); simpl;
        repeat split; congruence. }
    destruct Hstep2 as (c2 & Hrun2 & Hcon2 & Htr2 & Htm2 & Htrk2).
    rewrite (seq_done _ _ _ _ Hrun2).
    assert (Hstep3 : exists c3,
      startIdleTimer c2 = Done c3 /\ connection c3 = connection c2
      /\ trackers c3 = trackers c2 /\ trace c3 = trace c2 /\ timers c3 = timers c2).
    { assert (Hk : _tracker c2 <> None).
      { destruct (connection_fields _ _ Hcon1) as (_ & _ & _ & _ & Hk1 & _).
        destruct (connection_fields _ _ Hcon2) as (_ & _ & _ & _ & Hk2 & _).
        congruence. }
      unfold startIdleTimer.
      destruct (_socket c2); [|eexists; repeat split; reflexivity].
      destruct (connected c2); [|eexists; repeat split; reflexivity].
      destruct (_tracker c2) as [tj|]; [|congruence].
      match goal with |- context [if ?b then _ else _] => destruct b end;
        eexists; repeat split; reflexivity. }
    destruct Hstep3 as (c3 & Hrun3 & Hcon3 & Htrk3 & Htr3 & Htm3).
    rewrite (seq_done _ _ _ _ Hrun3).
    destruct (settled_dispatch sc event data c3 Hord) as (c4 & Hrun4 & (Hcon4 & Htrk4 & Htm4) & Htr4).
    exists c4. split.
    { rewrite Hrun4. unfold rejected. f_equal. f_equal.
      apply unheard_connection. congruence. }
    split; [congruence|]. split; [congruence|]. split; [|congruence].
    intros i Hi. rewrite Htm4, Htm3, Htm2. now apply Hclr1. }
  unfold onMessage, verdict.
  destruct (s_expect sc) eqn:He; try congruence;
    destruct msg as [fields|fields|e|r|type]; try discriminate; try apply Hbody.
  - rewrite <- He.
    destruct (expected (s_expect sc) (rstatus r)); apply Hbody.
  - rewrite <- He.
    destruct (expected (s_expect sc) (rstatus r)); apply Hbody.
Qed.

(** An entry or a reference of a search. *)
Lemma onMessage_partial (ti : nat) (msgid : Z) (sc : Scope) (msg : Message) (c : t) :
  is_final msg = false ->
  s_expect sc <> ExpectAbandon ->
  ordinary sc ->
  exists c',
    onMessage ti msgid sc msg c = Done c'
    /\ connection c' = connection c
    /\ trackers c' = trackers c
    /\ timer_cleared sc c'
    /\ trace c' = trace c ++ dispatched sc (fst (verdict sc msg)) (snd (verdict sc msg)).
Proof.
  intros Hfinal Hexp Hord.
  assert (Hbody : forall event data,
    rejected sc event c = false ->
    exists c',
      (clearRequestTimer sc ;; dispatch sc event data) c = Done c'
      /\ connection c' = connection c
      /\ trackers c' = trackers c
      /\ timer_cleared sc c'
      /\ trace c' = trace c ++ dispatched sc event data).
  { intros event data Hrej.
    destruct (cleared_timer sc c) as (c1 & Hrun1 & Hcon1 & Htrk1 & Htr1 & Hclr1 & _).
    rewrite (seq_done _ _ _ _ Hrun1).
    destruct (settled_dispatch sc event data c1 Hord) as (c4 & Hrun4 & (Hcon4 & Htrk4 & Htm4) & Htr4).
    exists c4. split.
    { rewrite Hrun4. unfold rejected in *.
      rewrite (unheard_connection sc c c1 Hcon1), Hrej. reflexivity. }
    split; [congruence|]. split; [congruence|]. split; [|congruence].
    intros i Hi. rewrite Htm4. now apply Hclr1. }
  unfold onMessage, verdict.
  destruct (s_expect sc) eqn:He; try congruence;
    destruct msg as [fields|fields|e|r|type]; try discriminate; apply Hbody; reflexivity.
Qed.

End ResponseFacts.

(** ** Responses of the server *)

Module Responses.
Import JS Requests Client ClientFacts TimeoutClaims ResponseFacts Arguments.

(** A delete in flight on a connected client, under messageID 1. *)
Definition delete_scope : Scope :=
  {| s_req := delete_request; s_expect := ExpectCodes [LDAP_SUCCESS];
     s_emitter := None; s_callback := UserCallback 1; s_timer := Some 0 |}.

Definition result_of (status : Z) : LDAPResult :=
  {| rtype := "LDAPResult"; rmessageID := 1; rstatus := StatusCode status; rcontrols := [] |}.



(** A search (its stream is emitter 7, flowing without an [error]
    listener) answered with [noSuchObject]: the error is thrown. *)
Lemma unheard_result_is_thrown :
  exists c',
    onMessage 0 1
      {| s_req := SearchRequest (DnString "dc=x") []; s_expect := ExpectCodes [LDAP_SUCCESS];
         s_emitter := Some (StreamEmitter 7); s_callback := UserCallback 1;
         s_timer := None |}
      (ResultMessage (result_of 32)) (set_deaf [7] delete_sent)
    = Thrown (getError (result_of 32)) c'
    /\ trace c'
       = [ClientEvent "resultError" [CErr (getError (result_of 32))];
          EmitterEvent 7 "error" (CErr (getError (result_of 32)))].
Proof. eexists. split; reflexivity. Qed.

(** X6.  Once the final message of a request has been handled, nothing
    reaches the request again: a further message of the server under the
    same messageID finds no handler and is dropped, and the request timer,
    were it still to fire, finds itself cleared.  In both cases the client
    is left exactly as it was.  This holds as well when the handler has
    thrown, which it only does for a stream that throws the error it is
    handed. *)
Theorem settled_request_hears_nothing_more :
  forall (ti : nat) (msgid : Z) (sc : Scope) (msg : Message) (c : t) (tr : Tracker.t),
    is_final msg = true ->
    s_expect sc <> ExpectAbandon ->
    ordinary sc ->
    _tracker c = Some ti ->
    tracker_at ti c = Some tr ->
    exists c',
      (onMessage ti msgid sc msg c = Done c'
       \/ (unheard sc c = true /\ exists e, onMessage ti msgid sc msg c = Thrown e c'))
      /\ (forall again, receive ti msgid again c' = Done c')
      /\ (forall i, s_timer sc = Some i -> fire_timer i c' = Done c').
Proof.
  intros ti msgid sc msg c tr Hfinal Hexp Hord Htrk Hat.
  destruct (onMessage_final ti msgid sc msg c Hfinal Hexp Hord)
    as (c' & Hrun & _ & Htrks & Hclr & _); [congruence|].
  exists c'. split.
  { rewrite Hrun. unfold finish, rejected.
    destruct (unheard sc c); [|rewrite andb_false_r; now left].
    match goal with |- context [if ?b then _ else _] => destruct b end;
      [right; split; [reflexivity|]; eexists; reflexivity | now left]. }
  split.
  - intro again. unfold receive.
    assert (Hat' : tracker_at ti c' = Some (Tracker.remove msgid tr)).
    { unfold tracker_at. rewrite Htrks. unfold modify_tracker. rewrite Hat. simpl.
      eapply nth_error_update_same. exact Hat. }
    rewrite Hat'. unfold Tracker.fetch. simpl. now rewrite lookup_removed.
  - intros i Hi. unfold fire_timer. now rewrite (Hclr i Hi).
Qed.

Lemma settled_request_hears_nothing_more_witness :
  exists c',
    onMessage 0 1 delete_scope (ResultMessage (result_of 0)) delete_sent = Done c'
    /\ receive 0 1 (ResultMessage (result_of 0)) c' = Done c'
    /\ fire_timer 0 c' = Done c'.
Proof.
  destruct (settled_request_hears_nothing_more 0 1 delete_scope (ResultMessage (result_of 0))
              delete_sent
              {| Tracker.id := "1__ldap://ldap.example.com";
                 Tracker.pending := [(1%Z, delete_scope)];
                 Tracker.nextID := 2; Tracker.abandonedIDs := [] |})
    as (c' & [Hrun|(Hdeaf & _)] & Hagain & Htimer).
  - reflexivity.
  - discriminate.
  - intros cb H. discriminate H.
  - reflexivity.
  - reflexivity.
  - exists c'. split; [exact Hrun|]. split; [apply Hagain | now apply Htimer].
  - discriminate Hdeaf.
Defined.

(** X7.  Entries and references of a search are passed on under the event
    names [searchEntry] and [searchReference], to the stream of the search
    (or, for a request without one, to its callback as [(null, message)]),
    whatever result codes the request expects.  They leave the trackers as
    they are, so that the request stays pending, and they clear the request
    timer: once a search has received its first entry it cannot time out
    any more, even if the final result never comes. *)
Theorem search_entry_keeps_request_pending :
  forall (ti : nat) (msgid : Z) (sc : Scope) (msg : Message) (c : t),
    is_final msg = false ->
    s_expect sc <> ExpectAbandon ->
    ordinary sc ->
    exists c',
      onMessage ti msgid sc msg c = Done c'
      /\ trace c'
         = trace c ++
           (let name := match msg with
                        | SearchReference _ => "searchReference"
                        | _ => "searchEntry"
                        end in
            match s_emitter sc with
            | Some (StreamEmitter i) => [EmitterEvent i name (CMsg msg)]
            | Some (StartTlsEmitter _) => []
            | None => call_effects (s_callback sc) [CNull; CMsg msg]
            end)
      /\ trackers c' = trackers c
      /\ sockets c' = sockets c
      /\ (forall i, s_timer sc = Some i -> fire_timer i c' = Done c').
Proof.
  intros ti msgid sc msg c Hfinal Hexp Hord.
  destruct (onMessage_partial ti msgid sc msg c Hfinal Hexp Hord)
    as (c' & Hrun & Hcon & Htrks & Hclr & Htrace).
  exists c'. split; [exact Hrun|].
  destruct (connection_fields _ _ Hcon) as (Hs & _).
  split; [|split; [exact Htrks|split; [exact Hs|]]].
  - rewrite Htrace. f_equal. unfold verdict, dispatched.
    destruct msg as [fields|fields|e|r|type]; try discriminate; simpl;
      destruct (s_emitter sc) as [[i|cb]|]; reflexivity.
  - intros i Hi. unfold fire_timer. now rewrite (Hclr i Hi).
Qed.

(** A search in flight under messageID 1, with its timer running. *)
Definition search_scope : Scope :=
  {| s_req := SearchRequest (DnString "dc=x") []; s_expect := ExpectCodes [LDAP_SUCCESS];
     s_emitter := Some (StreamEmitter 7); s_callback := UserCallback 1;
     s_timer := Some 0 |}.

Lemma search_entry_keeps_request_pending_witness :
  exists c',
    onMessage 0 1 search_scope (SearchEntry [("objectName", VStr "cn=a,dc=x")]) delete_sent
    = Done c'
    /\ trackers c' = trackers delete_sent
    /\ fire_timer 0 c' = Done c'.
Proof.
  destruct (search_entry_keeps_request_pending 0 1 search_scope
              (SearchEntry [("objectName", VStr "cn=a,dc=x")]) delete_sent)
    as (c' & Hrun & _ & Htrks & _ & Htimer).
  - reflexivity.
  - discriminate.
  - intros cb H. discriminate H.
  - exists c'. split; [exact Hrun|]. split; [exact Htrks | now apply Htimer].
Defined.

(** X8.  [compare] tells its caller the outcome as a boolean.  The
    dispatcher holds the wrapper [compare] puts around the caller's
    callback and expects the codes compareTrue (6) and compareFalse (5).
    For a result with code 6 the caller's callback gets
    [(null, true, result)], with code 5 [(null, false, result)], and with
    any other code the error made from the result as its only argument,
    after the client has emitted [resultError]: a failed compare is never
    reported as a boolean. *)
Theorem compare_reports_match_as_boolean :
  forall (ti : nat) (msgid : Z) (sc : Scope) (r : LDAPResult) (n : Z) (c : t) (k : nat),
    s_expect sc = ExpectCodes [LDAP_COMPARE_TRUE; LDAP_COMPARE_FALSE] ->
    s_emitter sc = None ->
    s_callback sc = UserCallback k ->
    rstatus r = StatusCode n ->
    _tracker c <> None ->
    exists c' args,
      onMessage ti msgid sc (ResultMessage r) c = Done c'
      /\ trace c'
         = trace c ++
           (if (n =? 6)%Z || (n =? 5)%Z then []
            else [ClientEvent "resultError" [CErr (getError r)]])
           ++ [CallbackCall (UserCallback k) args]
      /\ compare_callback args
         = Ok (if (n =? 6)%Z then [UNull; UBool true; UArg (CMsg (ResultMessage r))]
               else if (n =? 5)%Z then [UNull; UBool false; UArg (CMsg (ResultMessage r))]
               else [UArg (CErr (getError r))]).
Proof.
  intros ti msgid sc r n c k Hexp Hem Hcb Hst Htrk.
  assert (Hord : ordinary sc) by (intros cb H; congruence).
  destruct (onMessage_final ti msgid sc (ResultMessage r) c eq_refl) as
    (c' & Hrun & _ & _ & _ & Htrace); try assumption; [congruence|].
  assert (Hheard : rejected sc (fst (verdict sc (ResultMessage r))) c = false).
  { unfold rejected, unheard. rewrite Hem. apply andb_false_r. }
  rewrite Hheard in Hrun. unfold finish in Hrun.
  unfold verdict, dispatched in Htrace.
  rewrite Hexp, Hst, Hem, Hcb in Htrace. unfold expected in Htrace. simpl in Htrace.
  unfold LDAP_COMPARE_TRUE, LDAP_COMPARE_FALSE in Htrace.
  exists c'.
  destruct (n =? 6)%Z eqn:H6; [|destruct (n =? 5)%Z eqn:H5]; simpl in Htrace.
  - exists [CNull; CMsg (ResultMessage r)]. split; [exact Hrun|].
    split; [exact Htrace|].
    unfold compare_callback. simpl. rewrite Hst. unfold LDAP_COMPARE_TRUE.
    now rewrite H6.
  - exists [CNull; CMsg (ResultMessage r)]. split; [exact Hrun|].
    split; [exact Htrace|].
    unfold compare_callback. simpl. rewrite Hst. unfold LDAP_COMPARE_TRUE.
    now rewrite H6.
  - exists [CErr (getError r)]. split; [exact Hrun|].
    split; [exact Htrace|]. reflexivity.
Qed.

Definition compare_scope : Scope :=
  {| s_req := CompareRequest (DnString "cn=a,dc=x") "sn" "b" [];
     s_expect := ExpectCodes [LDAP_COMPARE_TRUE; LDAP_COMPARE_FALSE];
     s_emitter := None; s_callback := UserCallback 4; s_timer := None |}.

(** A compare answered with compareFalse. *)
Lemma compare_reports_match_as_boolean_witness :
  exists c' args,
    onMessage 0 1 compare_scope (ResultMessage (result_of 5)) (connected_client 0 None)
    = Done c'
    /\ trace c' = [CallbackCall (UserCallback 4) args]
    /\ compare_callback args
       = Ok [UNull; UBool false; UArg (CMsg (ResultMessage (result_of 5)))].
Proof.
  destruct (compare_reports_match_as_boolean 0 1 compare_scope (result_of 5) 5
              (connected_client 0 None) 4 eq_refl eq_refl eq_refl eq_refl)
    as (c' & args & Hrun & Htr & Hcb).
  - discriminate.
  - exists c', args. split; [exact Hrun|]. split; [exact Htr | exact Hcb].
Defined.

End Responses.

(** ** The dispatcher *)

Module DispatchFacts.
Import JS Requests Client ClientFacts TimeoutClaims ResponseFacts.

(** The requests handed to the socket [si], oldest first. *)
Definition wire (si : nat) (c : t) : list Request :=
  match socket_at si c with
  | Some s => map snd (written s)
  | None => []
  end.

(** The requests whose write has not been acknowledged yet. *)
Definition unsent (c : t) : list Request := map (fun w => s_req (w_scope w)) (writes c).

(** A client whose socket [si] and tracker [ti] are in place. *)
Definition wired (si ti : nat) (c : t) : Prop :=
  _socket c = Some si /\ _tracker c = Some ti
  /\ socket_at si c <> None /\ tracker_at ti c <> None.

(** [_sendRequest] on a wired client: the request is handed to the socket
    behind everything handed to it before; no callback is called yet. *)
Lemma sendRequest_wired (req : Request) (expect : Expect) (emitter : option Emitter)
    (callback : Callback) (si ti : nat) (c : t) :
  wired si ti c ->
  exists c',
    _sendRequest req expect emitter callback c = Done c'
    /\ wired si ti c'
    /\ wire si c' = wire si c ++ [req]
    /\ unsent c' = unsent c ++ [req]
    /\ queue c' = queue c
    /\ trace c' = trace c
    /\ connected c' = connected c /\ connecting c' = connecting c
    /\ destroyed c' = destroyed c /\ reconnect c' = reconnect c
    /\ (forall sj, sj <> si -> socket_at sj c' = socket_at sj c).
Proof.
  intros (Hs & Ht & Hsat & Htat).
  destruct (socket_at si c) as [s|] eqn:Hsock; [|congruence].
  destruct (tracker_at ti c) as [tr|] eqn:Htrk; [|congruence].
  unfold _sendRequest. rewrite Hs, Ht.
  set (c1 := set__idleTimer false c).
  set (timer := if (0 <? timeout c1)%nat then Some (nextTimer c1) else None).
  set (sc := {| s_req := req; s_expect := expect; s_emitter := emitter;
                s_callback := callback; s_timer := timer |}).
  assert (Htrk1 : tracker_at ti c1 = Some tr) by exact Htrk.
  rewrite Htrk1.
  destruct (Tracker.track sc tr) as [msgid tr'] eqn:Htrack.
  set (c2 := match timer with
             | Some i => set_timers _ (S i) (set_trackers (update (trackers c1) ti tr') c1)
             | None => set_trackers (update (trackers c1) ti tr') c1
             end).
  assert (Hc2 : sockets c2 = sockets c /\ queue c2 = queue c /\ trace c2 = trace c
                /\ writes c2 = writes c /\ _socket c2 = Some si /\ _tracker c2 = Some ti
                /\ connected c2 = connected c /\ connecting c2 = connecting c
                /\ destroyed c2 = destroyed c /\ reconnect c2 = reconnect c
                /\ trackers c2 = update (trackers c) ti tr').
  { subst c2. destruct timer; simpl; repeat split; assumption. }
  destruct Hc2 as (H2s & H2q & H2t & H2w & H2sock & H2trk & H2c & H2g & H2d & H2r & H2k).
  unfold seq, modify_socket, lift, socket_at. rewrite H2s.
  unfold socket_at in Hsock. rewrite Hsock.
  eexists. split; [reflexivity|].
  split; [|split; [|split; [|split; [|split; [|split; [|split; [|split; [|split]]]]]]]];
    simpl; try assumption.
  - unfold wired, socket_at, tracker_at. simpl.
    rewrite (nth_error_update_same _ _ _ _ Hsock), H2k.
    rewrite (nth_error_update_same _ _ _ _ Htrk).
    repeat split; try assumption; discriminate.
  - unfold wire, socket_at. simpl.
    rewrite (nth_error_update_same _ _ _ _ Hsock), Hsock. simpl.
    now rewrite map_app.
  - unfold unsent. simpl. rewrite H2w, map_app. reflexivity.
  - intros sj Hsj. unfold socket_at. simpl.
    apply nth_error_update_other. congruence.
Qed.

(** The same call in detail: the write that is now pending, and the
    messageID the tracker gave the request. *)
Lemma sendRequest_write (req : Request) (expect : Expect) (emitter : option Emitter)
    (callback : Callback) (si ti : nat) (s : Socket) (tr : Tracker.t) (c : t) :
  _socket c = Some si -> _tracker c = Some ti ->
  socket_at si c = Some s -> tracker_at ti c = Some tr ->
  exists c' w,
    _sendRequest req expect emitter callback c = Done c'
    /\ writes c' = writes c ++ [w]
    /\ w_socket w = si /\ w_tracker w = ti
    /\ s_req (w_scope w) = req /\ s_expect (w_scope w) = expect
    /\ s_emitter (w_scope w) = emitter /\ s_callback (w_scope w) = callback
    /\ w_msgid w = fst (Tracker.track (w_scope w) tr)
    /\ socket_at si c' = Some (set_written (written s ++ [(w_msgid w, req)]) s)
    /\ tracker_at ti c' = Some (snd (Tracker.track (w_scope w) tr))
    /\ trace c' = trace c
    /\ _starttls c' = _starttls c.
Proof.
  intros Hs Ht Hsock Htrk.
  unfold _sendRequest. rewrite Hs, Ht.
  set (c1 := set__idleTimer false c).
  set (timer := if (0 <? timeout c1)%nat then Some (nextTimer c1) else None).
  set (sc := {| s_req := req; s_expect := expect; s_emitter := emitter;
                s_callback := callback; s_timer := timer |}).
  assert (Htrk1 : tracker_at ti c1 = Some tr) by exact Htrk.
  rewrite Htrk1.
  destruct (Tracker.track sc tr) as [msgid tr'] eqn:Htrack.
  set (c2 := match timer with
             | Some i => set_timers _ (S i) (set_trackers (update (trackers c1) ti tr') c1)
             | None => set_trackers (update (trackers c1) ti tr') c1
             end).
  assert (Hc2 : sockets c2 = sockets c /\ trace c2 = trace c /\ writes c2 = writes c
                /\ trackers c2 = update (trackers c) ti tr'
                /\ _starttls c2 = _starttls c).
  { subst c2. destruct timer; simpl; repeat split. }
  destruct Hc2 as (H2s & H2t & H2w & H2k & H2st).
  unfold seq, modify_socket, lift, socket_at. rewrite H2s.
  unfold socket_at in Hsock. rewrite Hsock.
  exists (set_writes
            (writes (set_sockets (update (sockets c) si
                                    (set_written (written s ++ [(msgid, req)]) s)) c2)
             ++ [{| w_scope := sc; w_msgid := msgid; w_tracker := ti; w_socket := si |}])
            (set_sockets (update (sockets c) si
                            (set_written (written s ++ [(msgid, req)]) s)) c2)),
         {| w_scope := sc; w_msgid := msgid; w_tracker := ti; w_socket := si |}.
  split; [reflexivity|].
  split; [simpl; now rewrite H2w|].
  do 6 (split; [reflexivity|]).
  split; [change (msgid = fst (Tracker.track sc tr)); now rewrite Htrack|].
  split; [unfold socket_at; simpl; apply (nth_error_update_same _ _ _ _ Hsock)|].
  split; [|split; [simpl; exact H2t | simpl; exact H2st]].
  change (tracker_at ti
            (set_writes
               (writes (set_sockets (update (sockets c) si
                                       (set_written (written s ++ [(msgid, req)]) s)) c2)
                ++ [{| w_scope := sc; w_msgid := msgid; w_tracker := ti; w_socket := si |}])
               (set_sockets (update (sockets c) si
                               (set_written (written s ++ [(msgid, req)]) s)) c2))
          = Some (snd (Tracker.track sc tr))).
  rewrite Htrack. unfold tracker_at. simpl. rewrite H2k.
  apply (nth_error_update_same _ _ _ _ Htrk).
Qed.

(** Flushing the queue into [_sendRequest]: every queued request goes to
    the socket, oldest first. *)
Lemma resend_all (entries : list Queue.entry) (si ti : nat) :
  forall c,
    wired si ti c ->
    exists c',
      for_each entries resend c = Done c'
      /\ wired si ti c'
      /\ wire si c' = wire si c ++ map Queue.q_req entries
      /\ unsent c' = unsent c ++ map Queue.q_req entries
      /\ queue c' = queue c
      /\ trace c' = trace c
      /\ connected c' = connected c /\ connecting c' = connecting c
      /\ destroyed c' = destroyed c /\ reconnect c' = reconnect c.
Proof.
  induction entries as [|e rest IH]; intros c Hw; simpl.
  - exists c. split; [reflexivity|]. rewrite !app_nil_r. repeat split; assumption || apply Hw.
  - destruct (sendRequest_wired (Queue.q_req e) (Queue.q_expect e) (Queue.q_emitter e)
                (Queue.q_callback e) si ti c Hw)
      as (c1 & Hrun1 & Hw1 & Hwire1 & Hun1 & Hq1 & Htr1 & Hc1 & Hg1 & Hd1 & Hr1 & _).
    unfold resend at 1. rewrite (seq_done _ _ _ _ Hrun1).
    destruct (IH c1 Hw1) as (c2 & Hrun2 & Hw2 & Hwire2 & Hun2 & Hq2 & Htr2 & Hc2 & Hg2 & Hd2 & Hr2).
    exists c2. split; [exact Hrun2|]. split; [exact Hw2|].
    rewrite Hwire2, Hwire1, Hun2, Hun1, <- !app_assoc. simpl.
    repeat split; congruence.
Qed.

(** The error every failing path of the dispatcher hands to the callback. *)
Definition refusal (what : string) : list CArg := [CErr (Err KConnectionError what)].

(** Calling a callback changes the trace and, for the closure of
    [starttls], the StartTLS marker; nothing else. *)
Definition only_called (cb : Callback) (args : list CArg) (c c' : t) : Prop :=
  trace c' = trace c ++ call_effects cb args
  /\ set__starttls false (set_trace [] c') = set__starttls false (set_trace [] c).

Lemma call_only (cb : Callback) (args : list CArg) (c : t) :
  exists c', call cb args c = Done c' /\ only_called cb args c c'.
Proof.
  destruct (call_spec cb args c) as (c' & Hrun & Htr & Hst).
  exists c'. split; [exact Hrun|]. split; assumption.
Qed.

Lemma only_called_fields (cb : Callback) (args : list CArg) (c c' : t) :
  only_called cb args c c' ->
  sockets c' = sockets c /\ trackers c' = trackers c /\ queue c' = queue c
  /\ writes c' = writes c /\ timers c' = timers c
  /\ connected c' = connected c /\ connecting c' = connecting c
  /\ destroyed c' = destroyed c /\ _socket c' = _socket c /\ _tracker c' = _tracker c.
Proof.
  intros (_ & H). destruct c, c'; simpl in *. inversion H; subst. repeat split.
Qed.

End DispatchFacts.

(** ** Dispatching requests *)

Module Dispatch.
Import JS Requests Client ClientFacts TimeoutClaims ResponseFacts DispatchFacts.

Lemma wired_queue (si ti : nat) (q : Queue.t) (c : t) :
  wired si ti c -> wired si ti (set_queue q c).
Proof. intro H. exact H. Qed.

(** X9.  Requests leave in the order they were made.  On a connected
    client whose socket takes writes, the dispatcher first flushes the
    queue into the socket, oldest request first, and only then hands over
    the new request: on the wire the queued requests come before it, in
    their order, behind everything written earlier.  The queue is left
    empty, and no callback is called by the dispatch itself. *)
Theorem queued_requests_are_sent_first :
  forall (req : Request) (expect : Expect) (emitter : option Emitter) (callback : Callback)
         (si ti : nat) (c : t),
    wired si ti c ->
    destroyed c = false ->
    connecting c = false ->
    connected c = true ->
    sock_flag stuffed si c = false ->
    exists c',
      _dispatchRequest req expect emitter callback c = Done c'
      /\ wire si c' = wire si c ++ map Queue.q_req (Queue._queue (queue c)) ++ [req]
      /\ unsent c' = unsent c ++ map Queue.q_req (Queue._queue (queue c)) ++ [req]
      /\ Queue._queue (queue c') = []
      /\ trace c' = trace c.
Proof.
  intros req expect emitter callback si ti c Hw Hd Hg Hc Hst.
  unfold _dispatchRequest. rewrite Hd, Hg, Hc.
  destruct Hw as (Hs & Ht & Hsat & Htat). rewrite Hs, Hst. simpl.
  unfold queue_flush, seq.
  destruct (resend_all (Queue._queue (queue c)) si ti
              (set_queue (Queue.drained (queue c)) c))
    as (c1 & Hrun1 & Hw1 & Hwire1 & Hun1 & Hq1 & Htr1 & _).
  { repeat split; assumption. }
  rewrite Hrun1.
  destruct (sendRequest_wired req expect emitter callback si ti c1 Hw1)
    as (c2 & Hrun2 & _ & Hwire2 & Hun2 & Hq2 & Htr2 & _).
  exists c2. split; [exact Hrun2|].
  rewrite Hwire2, Hwire1, Hun2, Hun1, Hq2, Hq1, Htr2, Htr1, <- !app_assoc.
  repeat split.
Qed.

(** Two deletes wait in the queue of a connected client when a third is
    dispatched. *)
Definition two_queued : t :=
  set_queue
    {| Queue.size := None; Queue.timeout := 0;
       Queue._queue :=
         [{| Queue.q_req := DeleteRequest (DnString "cn=a") []; Queue.q_expect := ExpectCodes [0%Z];
             Queue.q_emitter := None; Queue.q_callback := UserCallback 1 |};
          {| Queue.q_req := DeleteRequest (DnString "cn=b") []; Queue.q_expect := ExpectCodes [0%Z];
             Queue.q_emitter := None; Queue.q_callback := UserCallback 2 |}];
       Queue._timer := None; Queue._frozen := false |}
    (connected_client 0 None).

Lemma queued_requests_are_sent_first_witness :
  exists c',
    _dispatchRequest (DeleteRequest (DnString "cn=c") []) (ExpectCodes [0%Z]) None
      (UserCallback 3) two_queued = Done c'
    /\ wire 0 c' = [DeleteRequest (DnString "cn=a") []; DeleteRequest (DnString "cn=b") [];
                    DeleteRequest (DnString "cn=c") []].
Proof.
  destruct (queued_requests_are_sent_first (DeleteRequest (DnString "cn=c") [])
              (ExpectCodes [0%Z]) None (UserCallback 3) 0 0 two_queued)
    as (c' & Hrun & Hwire & _).
  - repeat split; discriminate.
  - reflexivity.
  - reflexivity.
  - reflexivity.
  - reflexivity.
  - exists c'. split; [exact Hrun | exact Hwire].
Defined.

(** X10.  While the client is still connecting, a request made on a socket
    that takes writes bypasses the queue: it is handed to the socket at
    once, ahead of whatever waits in the queue, which is left as it is.
    This is how the setup tasks (an implicit bind, StartTLS) get through
    before the queued requests of the caller. *)
Theorem setup_requests_bypass_the_queue :
  forall (req : Request) (expect : Expect) (emitter : option Emitter) (callback : Callback)
         (si ti : nat) (c : t),
    wired si ti c ->
    destroyed c = false ->
    connecting c = true ->
    sock_flag writable si c = true ->
    exists c',
      _dispatchRequest req expect emitter callback c = Done c'
      /\ wire si c' = wire si c ++ [req]
      /\ queue c' = queue c
      /\ trace c' = trace c.
Proof.
  intros req expect emitter callback si ti c Hw Hd Hg Hwr.
  unfold _dispatchRequest. rewrite Hd, Hg.
  pose proof Hw as (Hs & _). rewrite Hs, Hwr. simpl.
  destruct (sendRequest_wired req expect emitter callback si ti c Hw)
    as (c2 & Hrun2 & _ & Hwire2 & _ & Hq2 & Htr2 & _).
  exists c2. repeat split; assumption.
Qed.

(** The bind of the setup phase, with two requests of the caller queued. *)
Lemma setup_requests_bypass_the_queue_witness :
  exists c',
    _dispatchRequest (ExtendedRequest StartTlsOID None []) (ExpectCodes [0%Z]) None
      (UserCallback 3) (set_connecting true (set_connected false two_queued)) = Done c'
    /\ wire 0 c' = [ExtendedRequest StartTlsOID None []]
    /\ queue c' = queue two_queued.
Proof.
  destruct (setup_requests_bypass_the_queue (ExtendedRequest StartTlsOID None [])
              (ExpectCodes [0%Z]) None (UserCallback 3) 0 0
              (set_connecting true (set_connected false two_queued)))
    as (c' & Hrun & Hwire & Hq & _).
  - repeat split; discriminate.
  - reflexivity.
  - reflexivity.
  - reflexivity.
  - exists c'. split; [exact Hrun|]. split; [exact Hwire | exact Hq].
Defined.

(** The outcome of an operation on a client that has been destroyed. *)
Definition refused (callback : option Callback) (c : t) (o : Outcome) : Prop :=
  match o with
  | Done c' => only_called (or_promise callback) (refusal "client destroyed") c c'
  | Thrown _ c' => c' = c
  end.

(** X11.  After [destroy] every operation fails.  On a destroyed client
    the dispatcher calls the callback with the ConnectionError 'client
    destroyed' and does nothing else: nothing is queued, tracked or
    written and no reconnection starts.  So [add], [compare], [del],
    [modify] and [abandon] either throw on their arguments, leaving the
    client as it is, or end in that one callback call (in the promise
    style, a rejection). *)
Theorem destroyed_client_refuses_requests :
  forall (dn_parse : dn_input -> result DN) (c : t),
    destroyed c = true ->
    (forall req expect emitter callback,
        exists c',
          _dispatchRequest req expect emitter callback c = Done c'
          /\ only_called callback (refusal "client destroyed") c c'
          /\ queue c' = queue c /\ sockets c' = sockets c /\ trackers c' = trackers c
          /\ writes c' = writes c /\ connecting c' = connecting c)
    /\ (forall name entry controls callback,
           refused callback c (add dn_parse name entry controls callback c))
    /\ (forall name attr value controls callback,
           refused callback c (compare dn_parse name attr value controls callback c))
    /\ (forall name controls callback,
           refused callback c (del dn_parse name controls callback c))
    /\ (forall name change controls callback,
           refused callback c (modify dn_parse name change controls callback c))
    /\ (forall messageID controls callback,
           refused callback c (abandon messageID controls callback c)).
Proof.
  intros dn_parse c Hd.
  assert (Hdispatch : forall req expect emitter callback,
    exists c',
      _dispatchRequest req expect emitter callback c = Done c'
      /\ only_called callback (refusal "client destroyed") c c').
  { intros req expect emitter callback. unfold _dispatchRequest. rewrite Hd.
    apply call_only. }
  assert (Hsubmit : forall built expect callback,
    refused callback c (submit built expect callback c)).
  { intros [req|e] expect callback; unfold submit, refused; [|reflexivity].
    destruct (Hdispatch req expect None (or_promise callback)) as (c' & -> & H).
    exact H. }
  split; [|split; [|split; [|split; [|split]]]].
  - intros req expect emitter callback.
    destruct (Hdispatch req expect emitter callback) as (c' & Hrun & Hcalled).
    exists c'. split; [exact Hrun|]. split; [exact Hcalled|].
    destruct (only_called_fields _ _ _ _ Hcalled)
      as (Hs & Ht & Hq & Hw & _ & _ & Hg & _).
    repeat split; assumption.
  - intros. apply Hsubmit.
  - intros. apply Hsubmit.
  - intros. apply Hsubmit.
  - intros. apply Hsubmit.
  - intros messageID controls callback. unfold abandon, refused.
    destruct (Hdispatch (AbandonRequest messageID controls) ExpectAbandon None
                (or_promise callback)) as (c' & -> & H).
    exact H.
Qed.

Lemma destroyed_client_refuses_requests_witness :
  refused (Some (UserCallback 5)) DestroyClaims.destroyed_once
    (del parse_string (InValue (VStr "cn=a,dc=x")) [] (Some (UserCallback 5))
       DestroyClaims.destroyed_once).
Proof.
  exact (proj1 (proj2 (proj2 (proj2
           (destroyed_client_refuses_requests parse_string DestroyClaims.destroyed_once
              eq_refl))))
           (InValue (VStr "cn=a,dc=x")) [] (Some (UserCallback 5))).
Defined.

(** The queue entry the dispatcher makes of a request. *)
Definition entry_of (req : Request) (expect : Expect) (emitter : option Emitter)
    (callback : Callback) : Queue.entry :=
  {| Queue.q_req := req; Queue.q_expect := expect;
     Queue.q_emitter := emitter; Queue.q_callback := callback |}.

(** X12.  A request made while there is no usable connection (no socket,
    not connected, or a socket under back-pressure) is never written: the
    dispatcher offers it to the queue.  If the queue refuses it, the
    callback gets the ConnectionError 'request queue unavailable'.  If the
    queue takes it, the request waits there, and then: a client that is
    connected or connecting does nothing more; a client configured to
    reconnect starts connecting; and any other client calls the callback
    with the ConnectionError 'connection unavailable' while the request
    stays in the queue. *)
Theorem request_without_connection_is_queued :
  forall (req : Request) (expect : Expect) (emitter : option Emitter) (callback : Callback)
         (c : t),
    destroyed c = false ->
    connecting c = false ->
    (_socket c = None \/ connected c = false
     \/ exists si, _socket c = Some si /\ sock_flag stuffed si c = true) ->
    exists c',
      _dispatchRequest req expect emitter callback c = Done c'
      /\ sockets c' = sockets c /\ writes c' = writes c /\ trackers c' = trackers c
      /\ match Queue.enqueue (entry_of req expect emitter callback) (queue c) with
         | None =>
             only_called callback (refusal "request queue unavailable") c c'
         | Some q =>
             queue c' = q
             /\ if connected c then c' = set_queue q c
                else match reconnect c with
                     | Some _ => connecting c' = true /\ trace c' = trace c
                     | None =>
                         only_called callback (refusal "connection unavailable")
                           (set_queue q c) c'
                     end
         end.
Proof.
  intros req expect emitter callback c Hd Hg Hno.
  unfold _dispatchRequest. rewrite Hd, Hg. simpl.
  assert (Hcond :
    negb (match _socket c with Some _ => true | None => false end)
    || negb (connected c)
    || match _socket c with Some si => sock_flag stuffed si c | None => false end = true).
  { destruct Hno as [Hs | [Hc | (si & Hs & Hst)]].
    - now rewrite Hs.
    - rewrite Hc. destruct (_socket c); reflexivity.
    - rewrite Hs, Hst. destruct (connected c); reflexivity. }
  rewrite Hcond. fold (entry_of req expect emitter callback).
  destruct (Queue.enqueue (entry_of req expect emitter callback) (queue c)) as [q|] eqn:Hq.
  - simpl. rewrite Hg. destruct (connected c) eqn:Hc; simpl.
    + eexists. split; [reflexivity|]. repeat split.
    + destruct (reconnect c) as [r|] eqn:Hr.
      * unfold connect. simpl. rewrite Hc, Hg, Hd, Hr. simpl.
        eexists. split; [reflexivity|]. repeat split.
      * destruct (call_only callback (refusal "connection unavailable") (set_queue q c))
          as (c' & Hrun & Hcalled).
        exists c'. split; [exact Hrun|].
        destruct (only_called_fields _ _ _ _ Hcalled) as (Hs & Ht & Hq' & Hw & _).
        repeat split; try assumption. apply Hcalled. apply Hcalled.
  - destruct (call_only callback (refusal "request queue unavailable") c)
      as (c' & Hrun & Hcalled).
    exists c'. split; [exact Hrun|].
    destruct (only_called_fields _ _ _ _ Hcalled) as (Hs & Ht & Hq' & Hw & _).
    repeat split; try assumption. apply Hcalled. apply Hcalled.
Qed.

(** A delete on a client that has lost its connection and does not
    reconnect. *)
Lemma request_without_connection_is_queued_witness :
  exists c',
    _dispatchRequest delete_request (ExpectCodes [0%Z]) None (UserCallback 1)
      (set_connected false (connected_client 0 None)) = Done c'
    /\ List.length (Queue._queue (queue c')) = 1%nat
    /\ trace c' = [CallbackCall (UserCallback 1) (refusal "connection unavailable")].
Proof.
  destruct (request_without_connection_is_queued delete_request (ExpectCodes [0%Z]) None
              (UserCallback 1) (set_connected false (connected_client 0 None))
              eq_refl eq_refl (or_intror (or_introl eq_refl)))
    as (c' & Hrun & _ & _ & _ & Hq & Hcalled).
  exists c'. split; [exact Hrun|]. split.
  - rewrite Hq. reflexivity.
  - exact (proj1 Hcalled).
Defined.

End Dispatch.

(** ** Unbind, abandon, StartTLS and connect *)

Module Lifecycle.
Import JS Requests Client ClientFacts TimeoutClaims ResponseFacts DispatchFacts.

Lemma modify_socket_hit (si : nat) (f : Socket -> Socket) (s : Socket) (c : t) :
  socket_at si c = Some s ->
  modify_socket si f c = Done (set_sockets (update (sockets c) si (f s)) c)
  /\ socket_at si (set_sockets (update (sockets c) si (f s)) c) = Some (f s).
Proof.
  intro H. unfold modify_socket. rewrite H. split; [reflexivity|].
  unfold socket_at in *. simpl. eapply nth_error_update_same. exact H.
Qed.

Lemma modify_tracker_hit (ti : nat) (f : Tracker.t -> Tracker.t) (tr : Tracker.t) (c : t) :
  tracker_at ti c = Some tr ->
  modify_tracker ti f c = Done (set_trackers (update (trackers c) ti (f tr)) c)
  /\ tracker_at ti (set_trackers (update (trackers c) ti (f tr)) c) = Some (f tr).
Proof.
  intro H. unfold modify_tracker. rewrite H. split; [reflexivity|].
  unfold tracker_at in *. simpl. eapply nth_error_update_same. exact H.
Qed.

Lemma lookup_filter_none (i : Z) (p : Z * Scope -> bool) (l : list (Z * Scope)) :
  Tracker.lookup i l = None -> Tracker.lookup i (filter p l) = None.
Proof.
  induction l as [|[j h] rest IH]; simpl; [reflexivity|].
  destruct (i =? j)%Z eqn:Hij; [discriminate|].
  intro H. destruct (p (j, h)); simpl; [rewrite Hij|]; auto.
Qed.

Lemma removed_listeners_gone (name : string) (ls : list (string * SockListener)) :
  map snd (filter (fun e => fst e =? name) (filter (fun e => negb (fst e =? name)) ls)) = [].
Proof.
  induction ls as [|[n l] rest IH]; simpl; [reflexivity|].
  destruct (n =? name) eqn:Hn; simpl; [exact IH|]. now rewrite Hn.
Qed.

(** A callback never sets the StartTLS marker. *)
Lemma call_keeps_cleared (cb : Callback) :
  forall args c c', call cb args c = Done c' -> _starttls c = false -> _starttls c' = false.
Proof.
  induction cb as [k|k|cb IH]; intros args c c' H Hst; simpl in H.
  - inversion H; subst. exact Hst.
  - inversion H; subst. exact Hst.
  - destruct args as [|[| |e| | |] rest]; try (inversion H; subst; exact Hst).
    unfold seq, lift in H. apply IH in H; [exact H | reflexivity].
Qed.

(** A connected client with nothing queued and no write pending. *)
Definition at_rest (si ti : nat) (c : t) : Prop :=
  _socket c = Some si /\ _tracker c = Some ti
  /\ destroyed c = false /\ connecting c = false /\ connected c = true
  /\ sock_flag stuffed si c = false
  /\ writes c = [] /\ Queue._queue (queue c) = [].

(** What the dispatch of one request leaves on a client at rest. *)
Lemma dispatch_at_rest (req : Request) (expect : Expect) (emitter : option Emitter)
    (callback : Callback) (si ti : nat) (s : Socket) (tr : Tracker.t) (c : t) :
  at_rest si ti c ->
  socket_at si c = Some s -> tracker_at ti c = Some tr ->
  exists c' w,
    _dispatchRequest req expect emitter callback c = Done c'
    /\ writes c' = [w]
    /\ w_socket w = si /\ w_tracker w = ti
    /\ s_req (w_scope w) = req /\ s_expect (w_scope w) = expect
    /\ s_emitter (w_scope w) = emitter /\ s_callback (w_scope w) = callback
    /\ w_msgid w = fst (Tracker.track (w_scope w) tr)
    /\ socket_at si c' = Some (set_written (written s ++ [(w_msgid w, req)]) s)
    /\ tracker_at ti c' = Some (snd (Tracker.track (w_scope w) tr))
    /\ trace c' = trace c
    /\ _starttls c' = _starttls c.
Proof.
  intros (Hs & Ht & Hd & Hg & Hc & Hst & Hw & Hq) Hsock Htrk.
  unfold _dispatchRequest. rewrite Hd, Hg, Hc, Hs, Hst. simpl.
  unfold queue_flush, seq. rewrite Hq. simpl. unfold skip.
  destruct (sendRequest_write req expect emitter callback si ti s tr
              (set_queue (Queue.drained (queue c)) c) Hs Ht Hsock Htrk)
    as (c' & w & Hrun & Hwrites & Hrest).
  exists c', w. split; [exact Hrun|]. split; [|exact Hrest].
  rewrite Hwrites. simpl. now rewrite Hw.
Qed.

(** X13.  [unbind] on a connected client at rest writes the UnbindRequest;
    when the write is acknowledged, the client marks the socket with the
    messageID the unbind went out under, removes the socket's [error]
    listeners and ends the socket.  The caller's callback has not been
    called by then: it is the close handler that answers an unbind. *)
Theorem unbind_ends_socket_before_calling_back :
  forall (callback : option Callback) (si ti : nat) (s : Socket) (tr : Tracker.t) (c : t),
    at_rest si ti c ->
    socket_at si c = Some s ->
    tracker_at ti c = Some tr ->
    exists c1 c2 msgid s2,
      unbind callback c = Done c1
      /\ flush_write c1 = Done c2
      /\ trace c2 = trace c
      /\ socket_at si c2 = Some s2
      /\ written s2 = written s ++ [(msgid, UnbindRequest)]
      /\ unbindMessageID s2 = Some msgid
      /\ sock_ended s2 = true
      /\ writable s2 = false
      /\ listeners_of si "error" c2 = []
      /\ writes c2 = [].
Proof.
  intros callback si ti s tr c Hrest Hsock Htrk.
  destruct (dispatch_at_rest UnbindRequest ExpectUnbind None (or_promise callback)
              si ti s tr c Hrest Hsock Htrk)
    as (c1 & w & Hrun & Hwrites & Hws & Hwt & Hreq & Hexp & _ & _ & _ & Hsock1 & _ & Htr1 & _).
  destruct Hrest as (Hs & _ & _ & _ & Hc & _).
  exists c1.
  unfold unbind. rewrite Hs, Hc, Hrun.
  unfold flush_write. rewrite Hwrites. unfold onSent. rewrite Hexp, Hws.
  set (c1' := set_writes [] c1).
  assert (Hsock1' : socket_at si c1'
                    = Some (set_written (written s ++ [(w_msgid w, UnbindRequest)]) s))
    by exact Hsock1.
  destruct (modify_socket_hit si (set_unbindMessageID (Some (w_msgid w))) _ c1' Hsock1')
    as (Hrun2 & Hsock2).
  rewrite (seq_done _ _ _ _ Hrun2).
  unfold sock_removeAllListeners at 1.
  match type of Hsock2 with socket_at si ?c = Some ?x =>
    destruct (modify_socket_hit si
                (fun s0 => set_sock_listeners
                             (filter (fun e => negb (fst e =? "error")) (sock_listeners s0)) s0)
                x c Hsock2) as (Hrun3 & Hsock3)
  end.
  rewrite (seq_done _ _ _ _ Hrun3).
  match type of Hsock3 with socket_at si ?c = Some ?x =>
    destruct (modify_socket_hit si ended_socket x c Hsock3) as (Hrun4 & Hsock4)
  end.
  match type of Hsock4 with socket_at si ?c2 = Some ?s2 => exists c2, (w_msgid w), s2 end.
  split; [reflexivity|]. split; [exact Hrun4|].
  split; [exact Htr1|]. split; [exact Hsock4|].
  split; [reflexivity|]. split; [reflexivity|]. split; [reflexivity|].
  split; [reflexivity|]. split; [|reflexivity].
  unfold listeners_of. rewrite Hsock4. simpl.
  apply removed_listeners_gone.
Qed.

Lemma unbind_ends_socket_before_calling_back_witness :
  exists c1 c2 s2,
    unbind (Some (UserCallback 9)) (connected_client 0 None) = Done c1
    /\ flush_write c1 = Done c2
    /\ trace c2 = []
    /\ socket_at 0 c2 = Some s2
    /\ sock_ended s2 = true.
Proof.
  destruct (unbind_ends_socket_before_calling_back (Some (UserCallback 9)) 0 0
              tcp_socket fresh_tracker (connected_client 0 None))
    as (c1 & c2 & msgid & s2 & Hrun & Hflush & Htr & Hsock & _ & _ & Hend & _).
  - repeat split.
  - reflexivity.
  - reflexivity.
  - exists c1, c2, s2. repeat split; assumption.
Defined.

(** X14.  [abandon (messageID)] on a connected client at rest writes the
    AbandonRequest and, when the write is acknowledged, calls the callback
    with [null] without waiting for any reply.  By then the tracker has
    been told to abandon the target and to forget the abandon request
    itself: the target's ID is among the abandoned IDs, and neither the
    target nor the abandon has a handler any more, so that whatever the
    server still sends for the abandoned request is dropped and its
    callback is never called. *)
Theorem abandon_calls_back_once_written :
  forall (messageID : Z) (controls : list Control) (callback : option Callback)
         (si ti : nat) (s : Socket) (tr : Tracker.t) (c : t),
    at_rest si ti c ->
    socket_at si c = Some s ->
    tracker_at ti c = Some tr ->
    exists c1 c2 msgid tr2,
      abandon messageID controls callback c = Done c1
      /\ trace c1 = trace c
      /\ wire si c1 = wire si c ++ [AbandonRequest messageID controls]
      /\ flush_write c1 = Done c2
      /\ trace c2 = trace c ++ call_effects (or_promise callback) [CNull]
      /\ tracker_at ti c2 = Some tr2
      /\ In messageID (Tracker.abandonedIDs tr2)
      /\ Tracker.fetch messageID tr2 = None
      /\ Tracker.fetch msgid tr2 = None
      /\ (forall late, receive ti messageID late c2 = Done c2).
Proof.
  intros messageID controls callback si ti s tr c Hrest Hsock Htrk.
  destruct (dispatch_at_rest (AbandonRequest messageID controls) ExpectAbandon None
              (or_promise callback) si ti s tr c Hrest Hsock Htrk)
    as (c1 & w & Hrun & Hwrites & Hws & Hwt & Hreq & Hexp & _ & Hcb & _ & Hsock1 & Htrk1 & Htr1 & _).
  exists c1. unfold abandon. rewrite Hrun.
  unfold flush_write. rewrite Hwrites. unfold onSent. rewrite Hexp, Hreq, Hwt, Hcb.
  set (tr1 := snd (Tracker.track (w_scope w) tr)) in *.
  set (c1' := set_writes [] c1).
  assert (Htrk1' : tracker_at ti c1' = Some tr1) by exact Htrk1.
  destruct (modify_tracker_hit ti (Tracker.abandon messageID) tr1 c1' Htrk1')
    as (Hrun2 & Htrk2).
  rewrite (seq_done _ _ _ _ Hrun2).
  match type of Htrk2 with tracker_at ti ?c = Some ?x =>
    destruct (modify_tracker_hit ti (Tracker.remove (w_msgid w)) x c Htrk2)
      as (Hrun3 & Htrk3)
  end.
  rewrite (seq_done _ _ _ _ Hrun3).
  match type of Htrk3 with tracker_at ti ?c = Some _ =>
    destruct (call_only (or_promise callback) [CNull] c) as (c2 & Hrun4 & Hcalled)
  end.
  destruct (only_called_fields _ _ _ _ Hcalled) as (_ & Htrks & _).
  exists c2, (w_msgid w), (Tracker.remove (w_msgid w) (Tracker.abandon messageID tr1)).
  assert (Hat2 : tracker_at ti c2
                 = Some (Tracker.remove (w_msgid w) (Tracker.abandon messageID tr1))).
  { unfold tracker_at. rewrite Htrks. exact Htrk3. }
  assert (Hgone : Tracker.fetch messageID
                    (Tracker.remove (w_msgid w) (Tracker.abandon messageID tr1)) = None).
  { unfold Tracker.fetch. simpl. apply lookup_filter_none. apply lookup_removed. }
  split; [reflexivity|]. split; [exact Htr1|].
  split.
  { unfold wire. rewrite Hsock1, Hsock. simpl. now rewrite map_app. }
  split; [exact Hrun4|].
  split; [rewrite (proj1 Hcalled); simpl; now rewrite Htr1|].
  split; [exact Hat2|].
  split; [simpl; apply in_or_app; right; now left|].
  split; [exact Hgone|].
  split; [unfold Tracker.fetch; simpl; apply lookup_removed|].
  intro late. unfold receive. rewrite Hat2, Hgone. reflexivity.
Qed.

(** The delete of [delete_sent], once its write is acknowledged, and an
    abandon of it. *)
Definition delete_flushed : t := state_of (flush_write delete_sent).

Lemma abandon_calls_back_once_written_witness :
  exists c1 c2,
    abandon 1 [] (Some (UserCallback 8)) delete_flushed = Done c1
    /\ flush_write c1 = Done c2
    /\ trace c2 = [CallbackCall (UserCallback 8) [CNull]]
    /\ receive 0 1 (ResultMessage {| rtype := "LDAPResult"; rmessageID := 1;
                                     rstatus := StatusCode 0; rcontrols := [] |}) c2
       = Done c2.
Proof.
  assert (Hs : exists s, socket_at 0 delete_flushed = Some s) by (eexists; reflexivity).
  assert (Ht : exists tr, tracker_at 0 delete_flushed = Some tr) by (eexists; reflexivity).
  destruct Hs as [s Hs]. destruct Ht as [tr Ht].
  destruct (abandon_calls_back_once_written 1 [] (Some (UserCallback 8)) 0 0 s tr
              delete_flushed)
    as (c1 & c2 & msgid & tr2 & Hrun & _ & _ & Hflush & Htr & _ & _ & _ & _ & Hlate).
  - repeat split.
  - exact Hs.
  - exact Ht.
  - exists c1, c2. split; [exact Hrun|]. split; [exact Hflush|].
    split; [exact Htr | apply Hlate].
Defined.

(** *** StartTLS *)

(** X15.  [starttls] starts once, and it needs a socket.  On a connected
    client at rest with a plain socket it sets the StartTLS marker and
    writes the extended request.  A second call while the exchange is in
    progress is refused: the caller's callback (or promise) gets 'STARTTLS
    already in progress' and nothing else happens, no second request is
    written.  On a socket that is already encrypted the callback gets
    'Socket is already encrypted' in the same way.  On a client that has
    no socket, because it has not connected yet or has lost its
    connection, [starttls] throws a TypeError instead of calling back. *)
Theorem starttls_starts_only_once :
  forall (controls again : list Control) (first : Callback) (k : option nat)
         (si ti : nat) (s : Socket) (tr : Tracker.t) (c : t),
    at_rest si ti c ->
    socket_at si c = Some s ->
    tracker_at ti c = Some tr ->
    _starttls c = false ->
    let second := or_promise (option_map UserCallback k) in
    let told (what : string) (c0 : t) :=
      set_trace (trace c0 ++ [CallbackCall second [CErr (Err KError what)]]) c0 in
    (if encrypted s
     then starttls again (option_map UserCallback k) c
          = Done (told "Socket is already encrypted" c)
     else exists c1,
            starttls controls (Some first) c = Done c1
            /\ _starttls c1 = true
            /\ wire si c1 = wire si c ++ [ExtendedRequest StartTlsOID None controls]
            /\ trace c1 = trace c
            /\ starttls again (option_map UserCallback k) c1
               = Done (told "STARTTLS already in progress" c1))
    /\ starttls again (option_map UserCallback k) (set__socket None c)
       = Thrown (type_error "Cannot read properties of null (reading 'encrypted')")
           (set__socket None c).
Proof.
  intros controls again first k si ti s tr c Hrest Hsock Htrk Hst. cbv zeta.
  pose proof Hrest as (Hs & Ht & Hd & Hg & Hc & Hstuffed & Hw & Hq).
  split.
  - destruct (encrypted s) eqn:Henc.
    + unfold starttls. rewrite Hst, Hs. unfold sock_flag. rewrite Hsock, Henc.
      destruct k; reflexivity.
    + assert (Hrest' : at_rest si ti (set__starttls true c)) by exact Hrest.
      destruct (dispatch_at_rest (ExtendedRequest StartTlsOID None controls)
                  (ExpectCodes [LDAP_SUCCESS]) (Some (StartTlsEmitter first))
                  (StartTlsSent first) si ti s tr (set__starttls true c) Hrest' Hsock Htrk)
        as (c1 & w & Hrun & _ & _ & _ & _ & _ & _ & _ & _ & Hsock1 & _ & Htr1 & Hst1).
      exists c1.
      split.
      { unfold starttls. rewrite Hst, Hs. unfold sock_flag. rewrite Hsock, Henc.
        unfold seq, lift. exact Hrun. }
      split; [exact Hst1|].
      split.
      { unfold wire. rewrite Hsock1, Hsock. simpl. now rewrite map_app. }
      split; [exact Htr1|].
      unfold starttls. simpl in Hst1. rewrite Hst1. destruct k; reflexivity.
  - unfold starttls. simpl. rewrite Hst. reflexivity.
Qed.

Lemma starttls_starts_only_once_witness :
  exists c1,
    starttls [] (Some (UserCallback 2)) (connected_client 0 None) = Done c1
    /\ starttls [] (Some (UserCallback 3)) c1
       = Done (set_trace
                 (trace c1 ++ [CallbackCall (UserCallback 3)
                                 [CErr (Err KError "STARTTLS already in progress")]]) c1).
Proof.
  destruct (starttls_starts_only_once [] [] (UserCallback 2) (Some 3) 0 0 tcp_socket
              fresh_tracker (connected_client 0 None))
    as ((c1 & Hrun & _ & _ & _ & Hagain) & _).
  - repeat split.
  - reflexivity.
  - reflexivity.
  - reflexivity.
  - exists c1. split; [exact Hrun | exact Hagain].
Defined.

(** *** A TLS handshake that fails *)

Lemma listeners_after_restore (name : string) (ls : list (string * SockListener)) :
  map snd (filter (fun e => fst e =? name)
             (filter (fun e => negb (fst e =? "data")) ls
              ++ map (fun l => ("data", l))
                   (map snd (filter (fun e => fst e =? "data") ls))))
  = map snd (filter (fun e => fst e =? name) ls).
Proof.
  rewrite filter_app, map_app.
  destruct (name =? "data") eqn:Hn.
  - apply String.eqb_eq in Hn. subst name.
    assert (H1 : filter (fun e : string * SockListener => fst e =? "data")
                   (filter (fun e => negb (fst e =? "data")) ls) = []).
    { induction ls as [|[n l] rest IH]; simpl; [reflexivity|].
      destruct (n =? "data") eqn:Hd; simpl; [exact IH|]. now rewrite Hd. }
    rewrite H1. simpl.
    induction (filter (fun e : string * SockListener => fst e =? "data") ls)
      as [|[n l] rest IH]; simpl; [reflexivity|]. now rewrite IH.
  - assert (H1 : filter (fun e : string * SockListener => fst e =? name)
                   (filter (fun e => negb (fst e =? "data")) ls)
                 = filter (fun e => fst e =? name) ls).
    { induction ls as [|[n l] rest IH]; simpl; [reflexivity|].
      destruct (n =? "data") eqn:Hd; simpl.
      - apply String.eqb_eq in Hd. subst n.
        rewrite String.eqb_sym, Hn. exact IH.
      - destruct (n =? name); [now rewrite IH | exact IH]. }
    rewrite H1.
    assert (H2 : forall l : list SockListener,
      filter (fun e : string * SockListener => fst e =? name)
        (map (fun l => ("data", l)) l) = []).
    { induction l as [|x rest IH]; [reflexivity|].
      cbn [map filter fst]. rewrite String.eqb_sym, Hn. exact IH. }
    rewrite H2. simpl. now rewrite app_nil_r.
Qed.

(** Re-attaching listeners one by one appends them in order. *)
Lemma reattach (tcp : nat) (ls : list SockListener) :
  forall (s : Socket) (c : t),
    socket_at tcp c = Some s ->
    exists c',
      for_each ls (fun listener => sock_on (Some tcp) "data" listener) c = Done c'
      /\ socket_at tcp c'
         = Some (set_sock_listeners (sock_listeners s ++ map (fun l => ("data", l)) ls) s)
      /\ set_sockets [] c' = set_sockets [] c.
Proof.
  induction ls as [|l rest IH]; intros s c Hs; simpl.
  - exists c. split; [reflexivity|]. rewrite app_nil_r.
    split; [|reflexivity]. rewrite Hs. destruct s; reflexivity.
  - match goal with |- context [modify_socket tcp ?f] =>
      destruct (modify_socket_hit tcp f s c Hs) as (Hrun & Hs1)
    end.
    rewrite (seq_done _ _ _ _ Hrun).
    destruct (IH _ _ Hs1) as (c' & Hrun' & Hs' & Hframe).
    exists c'. split; [exact Hrun'|]. split.
    + rewrite Hs'. simpl. now rewrite <- app_assoc.
    + rewrite Hframe. reflexivity.
Qed.

(** X16.  A StartTLS handshake that fails undoes the detour.  The reply
    of the server moves the [data] listeners off the TCP socket and opens
    the TLS socket; when that socket then reports an error, the handler
    puts the [data] listeners back on the TCP socket in their order, so
    that the socket has, for every event, the listeners it had before the
    reply.  It clears the StartTLS marker, leaves the client on the TCP
    socket and hands the error to the caller's callback. *)
Theorem failed_handshake_restores_data_listeners :
  forall (callback : Callback) (err : error) (tcp : nat) (s : Socket) (c : t),
    _socket c = Some tcp ->
    socket_at tcp c = Some s ->
    exists c1 c2,
      onStartTlsReply callback c = Done c1
      /\ listeners_of tcp "data" c1 = []
      /\ listeners_of (List.length (sockets c)) "error" c1
         = [OnSecureConnectError tcp (listeners_of tcp "data" c) callback]
      /\ onSecureConnectError tcp (listeners_of tcp "data" c) callback err c1 = Done c2
      /\ (forall name, listeners_of tcp name c2 = listeners_of tcp name c)
      /\ _starttls c2 = false
      /\ _socket c2 = Some tcp
      /\ trace c2 = trace c ++ call_effects callback [CErr err].
Proof.
  intros callback err tcp s c Hsock Hs.
  set (kept := set_sock_listeners
                 (filter (fun e => negb (fst e =? "data")) (sock_listeners s)) s).
  assert (Hupd : forall (l : list Socket) i x, List.length (update l i x) = List.length l).
  { induction l as [|y rest IH]; intros [|i] x; simpl; auto. }
  assert (H1 : exists c1 tls,
    onStartTlsReply callback c = Done c1
    /\ sockets c1 = update (sockets c) tcp kept ++ [tls]
    /\ map snd (filter (fun e => fst e =? "error") (sock_listeners tls))
       = [OnSecureConnectError tcp (listeners_of tcp "data" c) callback]
    /\ set_sockets [] c1 = set_sockets [] c).
  { unfold onStartTlsReply. rewrite Hsock. unfold sock_removeAllListeners.
    match goal with |- context [modify_socket tcp ?f] =>
      destruct (modify_socket_hit tcp f s c Hs) as (Hrun1 & _)
    end.
    rewrite (seq_done _ _ _ _ Hrun1).
    unfold tls_connect, lift.
    eexists. eexists. split; [reflexivity|]. split; [reflexivity|].
    split; reflexivity. }
  destruct H1 as (c1 & tls & Hrun1 & Hsk1 & Htls & Hfr1).
  assert (Hc1 : _socket c1 = _socket c /\ trace c1 = trace c).
  { clear - Hfr1. destruct c1, c; simpl in *. inversion Hfr1; subst. split; reflexivity. }
  destruct Hc1 as [Hsock1 Htr1]. rewrite Hsock in Hsock1.
  assert (Htcp : (tcp < List.length (sockets c))%nat).
  { apply nth_error_Some. unfold socket_at in Hs. congruence. }
  assert (Hs1 : socket_at tcp c1 = Some kept).
  { unfold socket_at in *. rewrite Hsk1.
    rewrite nth_error_app1; [|now rewrite Hupd].
    eapply nth_error_update_same. exact Hs. }
  destruct (reattach tcp (listeners_of tcp "data" c) kept c1 Hs1) as (c2 & Hrun2 & Hs2 & Hframe).
  assert (Hdata : listeners_of tcp "data" c
                  = map snd (filter (fun e => fst e =? "data") (sock_listeners s))).
  { unfold listeners_of. now rewrite Hs. }
  destruct (call_only callback [CErr err] (set__starttls false c2))
    as (c3 & Hrun3 & Hcalled).
  destruct (only_called_fields _ _ _ _ Hcalled)
    as (Hsk3 & _ & _ & _ & _ & _ & _ & _ & Hsock3 & _).
  assert (Hc2 : _socket c2 = Some tcp /\ trace c2 = trace c).
  { assert (H : _socket c2 = _socket c1 /\ trace c2 = trace c1).
    { clear - Hframe. destruct c2, c1; simpl in *. inversion Hframe; subst.
      split; reflexivity. }
    destruct H as [H1 H2]. rewrite H1, H2. split; assumption. }
  destruct Hc2 as [Hsock2 Htr2].
  exists c1, c3.
  split; [exact Hrun1|].
  split.
  { unfold listeners_of. rewrite Hs1. subst kept. simpl.
    apply removed_listeners_gone. }
  split.
  { unfold listeners_of, socket_at. rewrite Hsk1.
    rewrite nth_error_app2; rewrite Hupd; [|lia].
    rewrite Nat.sub_diag. simpl. exact Htls. }
  split.
  { unfold onSecureConnectError. rewrite (seq_done _ _ _ _ Hrun2).
    unfold seq, lift. exact Hrun3. }
  split.
  { intro name. unfold listeners_of, socket_at. rewrite Hsk3. simpl.
    unfold socket_at in Hs2. rewrite Hs2. unfold socket_at in Hs. rewrite Hs.
    subst kept. simpl. rewrite Hdata. apply listeners_after_restore. }
  split.
  { apply (call_keeps_cleared callback [CErr err] (set__starttls false c2) c3 Hrun3).
    reflexivity. }
  split.
  { rewrite Hsock3. exact Hsock2. }
  rewrite (proj1 Hcalled). simpl. now rewrite Htr2.
Qed.

(** The handshake of [starttls_accepted] fails with a certificate error. *)
Lemma failed_handshake_restores_data_listeners_witness :
  exists c1 c2,
    onStartTlsReply (UserCallback 2) StartTlsClaims.starttls_requested = Done c1
    /\ listeners_of 0 "data" c1 = []
    /\ onSecureConnectError 0 (listeners_of 0 "data" StartTlsClaims.starttls_requested)
         (UserCallback 2) (Err KError "self signed certificate") c1 = Done c2
    /\ listeners_of 0 "data" c2 = [OnData 0]
    /\ _starttls c2 = false.
Proof.
  assert (Hs : exists s, socket_at 0 StartTlsClaims.starttls_requested = Some s)
    by (eexists; reflexivity).
  destruct Hs as [s Hs].
  destruct (failed_handshake_restores_data_listeners (UserCallback 2)
              (Err KError "self signed certificate") 0 s
              StartTlsClaims.starttls_requested)
    as (c1 & c2 & Hrun1 & Hnone & _ & Hrun2 & Hback & Hst & _).
  - reflexivity.
  - exact Hs.
  - exists c1, c2. split; [exact Hrun1|]. split; [exact Hnone|].
    split; [exact Hrun2|]. split; [|exact Hst].
    rewrite Hback. reflexivity.
Defined.

(** *** [connect] *)


End Lifecycle.

(** ** The search result stream: the cork and the iterator *)

Module StreamFacts.
Import JS SearchResult SearchResultFacts.

(** [emit] of each event in turn, on a stream that stays corked. *)
Definition emit_each (evs : list event) (s : t) : t :=
  fold_left (fun acc ev => state_of (emit ev acc)) evs s.

Definition ordinary_event (ev : event) : Prop :=
  (ename ev =? "newListener") = false /\ (ename ev =? "error") = false.

Lemma emit_each_corked (evs : list event) :
  forall s q,
    eventQueue s = Some q ->
    Forall (fun ev => (ename ev =? "newListener") = false) evs ->
    emit_each evs s = set_queue (Some (q ++ evs)) s.
Proof.
  induction evs as [|ev rest IH]; intros s q Hq Hall; simpl.
  - rewrite app_nil_r, <- Hq. destruct s; reflexivity.
  - inversion Hall as [|? ? Hev Hrest]; subst.
    unfold emit at 1. rewrite Hq, Hev. simpl.
    rewrite (IH _ (q ++ [ev])); [|reflexivity|exact Hrest].
    now rewrite <- app_assoc.
Qed.

(** X18.  The cork.  Whatever a fresh stream is asked to emit before its
    first listener is attached is buffered: nothing is delivered and
    nothing is thrown.  When the first listener is attached, of whatever
    event, a non-empty buffer is replayed one event per turn of the event
    loop, in the order of the emits; the turn that delivers the last one
    removes the cork, and from then on every emit is delivered at once.
    (An [error] event in the buffer is left aside here: replayed without an
    [error] listener, it throws.) *)
Theorem buffered_events_replay_in_order :
  forall (evs : list event) (name : string) (l : listener),
    evs <> [] ->
    Forall ordinary_event evs ->
    delivered (emit_each evs create) = []
    /\ exists s',
         ticks (List.length evs) (on name l (emit_each evs create)) = Done s'
         /\ map fst (delivered s') = evs
         /\ eventQueue s' = None
         /\ forall ev,
              eventQueue (state_of (emit ev s')) = None
              /\ delivered (state_of (emit ev s'))
                 = delivered s' ++ [(ev, listeners (ename ev) s')].
Proof.
  intros evs name l Hne Hall.
  assert (Hnl : Forall (fun ev => (ename ev =? "newListener") = false) evs).
  { eapply Forall_impl; [|exact Hall]. intros ev [H _]. exact H. }
  assert (Herr : Forall (fun ev => (ename ev =? "error") = false) evs).
  { eapply Forall_impl; [|exact Hall]. intros ev [_ H]. exact H. }
  rewrite (emit_each_corked evs create [] eq_refl Hnl). simpl.
  split; [reflexivity|].
  destruct (drain_replays_in_order evs
              (on name l (set_queue (Some evs) create)) Hne eq_refl eq_refl Herr)
    as (s' & Hrun & Hdel & Hq & _).
  exists s'. split; [exact Hrun|]. split; [exact Hdel|]. split; [exact Hq|].
  intro ev. apply uncorked_emit_is_immediate. exact Hq.
Qed.

Lemma buffered_events_replay_in_order_witness :
  exists s',
    ticks 2 (on "end" (UserListener 0)
               (emit_each [ {| ename := "searchEntry"; eargs := [] |};
                            {| ename := "end"; eargs := [] |} ] create)) = Done s'
    /\ map fst (delivered s')
       = [ {| ename := "searchEntry"; eargs := [] |}; {| ename := "end"; eargs := [] |} ]
    /\ eventQueue s' = None.
Proof.
  destruct (buffered_events_replay_in_order
              [ {| ename := "searchEntry"; eargs := [] |}; {| ename := "end"; eargs := [] |} ]
              "end" (UserListener 0))
    as (_ & s' & Hrun & Hdel & Hq & _).
  - discriminate.
  - repeat constructor.
  - exists s'. split; [exact Hrun|]. split; [exact Hdel | exact Hq].
Defined.

(** X19.  An [error] event that comes out of the buffer while nobody
    listens for [error] is thrown by the drain, and that stops the drain
    for good: the events buffered behind it stay in the buffer, no further
    turn of the event loop delivers anything, and the stream stays corked,
    so that whatever is emitted later is buffered too and never seen. *)
Theorem unhandled_error_stops_the_drain :
  forall (s : t) (args : list arg) (rest : list event),
    eventQueue s = Some ({| ename := "error"; eargs := args |} :: rest) ->
    scheduled s = true ->
    listeners "error" s = [] ->
    exists stuck,
      tick s = Thrown (first_error args) stuck
      /\ eventQueue stuck = Some rest
      /\ map fst (delivered stuck)
         = map fst (delivered s) ++ [ {| ename := "error"; eargs := args |} ]
      /\ (forall n, ticks n stuck = Done stuck)
      /\ (forall ev, (ename ev =? "newListener") = false ->
            emit ev stuck = Done (set_queue (Some (rest ++ [ev])) stuck)).
Proof.
  intros s args rest Hq Hs Hl.
  unfold tick. rewrite Hs. unfold emitOneEvent. simpl eventQueue. rewrite Hq.
  unfold ee_emit. simpl ename.
  assert (Hl' : listening "error" (set_queue (Some rest) (set_scheduled false s)) = []).
  { unfold listeners in Hl. apply map_eq_nil in Hl. exact Hl. }
  rewrite Hl'. simpl.
  eexists. split; [reflexivity|]. simpl.
  split; [reflexivity|]. split; [now rewrite map_app|].
  split.
  - induction n as [|n IH]; simpl; [reflexivity | exact IH].
  - intros ev Hev. unfold emit. simpl. now rewrite Hev.
Qed.

(** A search whose request failed before anybody listened for [error]. *)
Lemma unhandled_error_stops_the_drain_witness :
  exists stuck,
    tick (on "searchEntry" (UserListener 0)
            (emit_each [ {| ename := "error"; eargs := [AError (Err KError "boom")] |};
                         {| ename := "end"; eargs := [] |} ] create))
    = Thrown (Err KError "boom") stuck
    /\ eventQueue stuck = Some [ {| ename := "end"; eargs := [] |} ]
    /\ ticks 3 stuck = Done stuck.
Proof.
  destruct (unhandled_error_stops_the_drain
              (on "searchEntry" (UserListener 0)
                 (emit_each [ {| ename := "error"; eargs := [AError (Err KError "boom")] |};
                              {| ename := "end"; eargs := [] |} ] create))
              [AError (Err KError "boom")] [ {| ename := "end"; eargs := [] |} ]
              eq_refl eq_refl eq_refl)
    as (stuck & Hrun & Hq & _ & Hticks & _).
  exists stuck. split; [exact Hrun|]. split; [exact Hq | apply Hticks].
Defined.

(** *** The promise queue of the iterator *)

Definition is_settled (d : deferred) : bool :=
  match d with Pending => false | _ => true end.

(** A stream is well formed when it is not empty and only its last
    promise may be pending. *)
Fixpoint well_formed (stream : list deferred) : bool :=
  match stream with
  | [] => false
  | [_] => true
  | d :: rest => is_settled d && well_formed rest
  end.

(** One call of [inject] per element, on the stream the one before left;
    a call that throws leaves the stream as it is. *)
Definition inject_all (calls : list (inject_err * option arg)) (stream : list deferred)
  : list deferred :=
  fold_left (fun st call => match inject (fst call) (snd call) st with
                            | Ok st' => st'
                            | Throw _ => st
                            end) calls stream.

Lemma settle_last_length (new : deferred) (stream : list deferred) :
  List.length (settle_last new stream) = List.length stream.
Proof.
  induction stream as [|d [|d' rest'] IH]; simpl; try reflexivity.
  simpl in IH. now rewrite IH.
Qed.

Lemma well_formed_cons (d : deferred) (rest : list deferred) :
  rest <> [] -> well_formed (d :: rest) = is_settled d && well_formed rest.
Proof. destruct rest; [congruence | reflexivity]. Qed.

Lemma settle_last_nonempty (new : deferred) (stream : list deferred) :
  stream <> [] -> settle_last new stream <> [].
Proof.
  intros H Heq. apply (f_equal (@List.length deferred)) in Heq.
  rewrite settle_last_length in Heq. destruct stream; [congruence | discriminate].
Qed.

Lemma settle_last_cons (new d d' : deferred) (rest : list deferred) :
  settle_last new (d :: d' :: rest) = d :: settle_last new (d' :: rest).
Proof. reflexivity. Qed.

Lemma settle_last_well_formed (new : deferred) (stream : list deferred) :
  well_formed stream = true -> well_formed (settle_last new stream) = true.
Proof.
  induction stream as [|d rest IH]; [discriminate|].
  destruct rest as [|d' rest']; [reflexivity|].
  intro H. rewrite well_formed_cons in H by discriminate.
  apply andb_prop in H. destruct H as [Hd Hrest].
  rewrite settle_last_cons, well_formed_cons
    by (apply settle_last_nonempty; discriminate).
  rewrite Hd, IH; [reflexivity | exact Hrest].
Qed.

Lemma settled_then_pending (new : deferred) (stream : list deferred) :
  is_settled new = true ->
  well_formed stream = true ->
  well_formed (settle_last new stream ++ [Pending]) = true.
Proof.
  intro Hnew. induction stream as [|d rest IH]; [discriminate|].
  destruct rest as [|d' rest'].
  - intros _. simpl. destruct d; simpl; try reflexivity. now rewrite Hnew.
  - intro H. rewrite well_formed_cons in H by discriminate.
    apply andb_prop in H. destruct H as [Hd Hrest].
    rewrite settle_last_cons. rewrite <- app_comm_cons.
    rewrite well_formed_cons.
    + rewrite Hd. exact (IH Hrest).
    + intro Heq. apply app_eq_nil in Heq. destruct Heq as [_ Heq]. discriminate.
Qed.

Lemma inject_well_formed (err : inject_err) (val : option arg) (stream : list deferred) :
  well_formed stream = true ->
  exists stream',
    inject err val stream = Ok stream'
    /\ well_formed stream' = true
    /\ List.length stream'
       = (List.length stream
          + match val, err with Some _, ErrNone => 1 | _, _ => 0 end)%nat.
Proof.
  intro Hwf. unfold inject.
  destruct stream as [|d rest] eqn:Hs; [discriminate|]. rewrite <- Hs in *.
  assert (Hne : match stream with [] => False | _ => True end) by (rewrite Hs; exact I).
  destruct val as [a|]; destruct err as [| |e].
  - rewrite Hs. rewrite <- Hs. eexists. split; [reflexivity|].
    split; [apply settled_then_pending; [reflexivity | exact Hwf]|].
    rewrite length_app, settle_last_length. reflexivity.
  - rewrite Hs. rewrite <- Hs. eexists. split; [reflexivity|].
    split; [apply settle_last_well_formed; exact Hwf|].
    rewrite settle_last_length. lia.
  - rewrite Hs. rewrite <- Hs. eexists. split; [reflexivity|].
    split; [apply settle_last_well_formed; exact Hwf|].
    rewrite settle_last_length. lia.
  - eexists. split; [reflexivity|]. split; [exact Hwf | lia].
  - rewrite Hs. rewrite <- Hs. eexists. split; [reflexivity|].
    split; [apply settle_last_well_formed; exact Hwf|].
    rewrite settle_last_length. lia.
  - rewrite Hs. rewrite <- Hs. eexists. split; [reflexivity|].
    split; [apply settle_last_well_formed; exact Hwf|].
    rewrite settle_last_length. lia.
Qed.

(** The calls that carry a value and no error: [inject (null, value)]. *)
Definition values (calls : list (inject_err * option arg)) : nat :=
  List.length (filter (fun call => match snd call, fst call with
                                   | Some _, ErrNone => true
                                   | _, _ => false
                                   end) calls).

Lemma inject_all_well_formed (calls : list (inject_err * option arg)) :
  forall stream,
    well_formed stream = true ->
    well_formed (inject_all calls stream) = true
    /\ List.length (inject_all calls stream) = (List.length stream + values calls)%nat.
Proof.
  induction calls as [|[err val] rest IH]; intros stream Hwf; simpl.
  - split; [exact Hwf|]. unfold values. simpl. lia.
  - destruct (inject_well_formed err val stream Hwf) as (stream' & Hrun & Hwf' & Hlen).
    rewrite Hrun. destruct (IH stream' Hwf') as [H1 H2].
    split; [exact H1|]. rewrite H2, Hlen. unfold values. simpl.
    destruct val as [a|]; destruct err; simpl; lia.
Qed.

(** X20.  The promise queue of an iterator stays well formed whatever is
    injected, in whatever order: [inject] never throws, the queue is never
    empty, and only its last promise can be pending, every earlier one
    being settled.  The queue grows by exactly one promise for each value
    injected without an error; an error, the end of the stream and the end
    of a page settle the last promise and add none. *)
Theorem iterator_queue_stays_well_formed :
  forall (calls : list (inject_err * option arg)),
    let stream := inject_all calls [Pending] in
    well_formed stream = true
    /\ List.length stream = S (values calls)
    /\ (forall err val, exists stream', inject err val stream = Ok stream').
Proof.
  intro calls. cbv zeta.
  destruct (inject_all_well_formed calls [Pending] eq_refl) as [Hwf Hlen].
  split; [exact Hwf|]. split; [exact Hlen|].
  intros err val.
  destruct (inject_well_formed err val _ Hwf) as (stream' & Hrun & _).
  exists stream'. exact Hrun.
Qed.

(** *** The [page] listener of [entries] *)

Definition paused_names : list string := ["error"; "end"; "searchEntry"; "searchReference"].

Definition is_paused_name (n : string) : bool :=
  existsb (String.eqb n) paused_names.

Definition is_page_once (r : registration) : bool :=
  match rlistener r with PageOnce _ => true | _ => false end.

Lemma react_registrations (l : listener) (s : t) :
  registrations (react l s)
  = match l with
    | PageOnce _ => filter (fun r => negb (is_paused_name (rname r))) (registrations s)
    | _ => registrations s
    end.
Proof.
  destruct l; try reflexivity. simpl.
  induction (registrations s) as [|r rest IH]; simpl; [reflexivity|].
  unfold is_paused_name, paused_names. simpl.
  destruct (rname r =? "error"); simpl; [exact IH|].
  destruct (rname r =? "end"); simpl; [exact IH|].
  destruct (rname r =? "searchEntry"); simpl; [exact IH|].
  destruct (rname r =? "searchReference"); simpl; [exact IH|].
  now rewrite IH.
Qed.

Lemma filter_twice {A} (f : A -> bool) (l : list A) : filter f (filter f l) = filter f l.
Proof.
  induction l as [|x rest IH]; simpl; [reflexivity|].
  destruct (f x) eqn:Hx; simpl; [rewrite Hx|]; now rewrite IH.
Qed.

Lemma reacts_registrations (regs : list registration) :
  forall s,
    registrations (fold_left (fun acc r => react (rlistener r) acc) regs s)
    = if existsb is_page_once regs
      then filter (fun r => negb (is_paused_name (rname r))) (registrations s)
      else registrations s.
Proof.
  induction regs as [|r rest IH]; intro s; simpl; [reflexivity|].
  rewrite IH, react_registrations. unfold is_page_once at 2.
  destruct (rlistener r); simpl; try reflexivity.
  destruct (existsb is_page_once rest); [apply filter_twice | reflexivity].
Qed.

Lemma filter_weaker {A} (f g : A -> bool) (l : list A) :
  (forall x, f x = true -> g x = true) ->
  filter f (filter g l) = filter f l.
Proof.
  intro H. induction l as [|x rest IH]; simpl; [reflexivity|].
  destruct (g x) eqn:Hg; simpl.
  - now rewrite IH.
  - destruct (f x) eqn:Hf; [|exact IH].
    apply H in Hf. congruence.
Qed.

Lemma filter_disjoint {A} (f g : A -> bool) (l : list A) :
  (forall x, f x = true -> g x = false) ->
  filter f (filter g l) = [].
Proof.
  intro H. induction l as [|x rest IH]; simpl; [reflexivity|].
  destruct (g x) eqn:Hg; simpl; [|exact IH].
  destruct (f x) eqn:Hf; [|exact IH].
  apply H in Hf. congruence.
Qed.

(** X21.  With [pagePause], the end of a page strips the stream.  When a
    [page] event is delivered on a stream that carries the [page] listener
    of [entries], no listener of [error], [end], [searchEntry] or
    [searchReference] is left afterwards: the listeners of the iterator
    are gone, and so is every listener the caller attached for those
    events.  The listeners of every other event but [page] stay as they
    were. *)
Theorem page_pause_removes_every_listener :
  forall (s : t) (args : list arg) (it : nat),
    eventQueue s = None ->
    In (PageOnce it) (listeners "page" s) ->
    exists s',
      emit {| ename := "page"; eargs := args |} s = Done s'
      /\ (forall n, is_paused_name n = true -> listeners n s' = [])
      /\ (forall n, is_paused_name n = false -> (n =? "page") = false ->
            listeners n s' = listeners n s).
Proof.
  intros s args it Hq Hin.
  unfold emit. rewrite Hq. unfold ee_emit. cbn [ename].
  destruct (listening "page" s) as [|r regs] eqn:Hregs.
  { unfold listeners in Hin. rewrite Hregs in Hin. destruct Hin. }
  assert (Hpage : existsb is_page_once (r :: regs) = true).
  { apply existsb_exists. unfold listeners in Hin. rewrite Hregs in Hin.
    apply in_map_iff in Hin. destruct Hin as (r0 & Hr0 & Hin0).
    exists r0. split; [exact Hin0|]. unfold is_page_once. now rewrite Hr0. }
  eexists. split; [reflexivity|].
  split.
  - intros n Hn. unfold listeners, listening.
    rewrite reacts_registrations, Hpage.
    rewrite filter_disjoint; [reflexivity|].
    intros x Hx. apply String.eqb_eq in Hx. now rewrite Hx, Hn.
  - intros n Hn Hnp. unfold listeners, listening.
    rewrite reacts_registrations, Hpage. cbn [registrations set_registrations set_delivered].
    f_equal.
    rewrite filter_weaker.
    + apply filter_weaker. intros x Hx. apply String.eqb_eq in Hx. subst n.
      now rewrite Hnp.
    + intros x Hx. apply String.eqb_eq in Hx. now rewrite Hx, Hn.
Qed.

(** The stream of a paged search read with [entries ({ pagePause: true })]
    by a caller who also listens for [error]. *)
Definition paused_stream : t :=
  set_queue None
    (snd (entries (Some {| includeSearchReferences := false; pagePause := true |})
            (on "error" (UserListener 1) create))).

Lemma page_pause_removes_every_listener_witness :
  exists s',
    emit {| ename := "page"; eargs := [] |} paused_stream = Done s'
    /\ listeners "error" s' = []
    /\ listeners "error" paused_stream = [UserListener 1; InjectError 0].
Proof.
  destruct (page_pause_removes_every_listener paused_stream [] 0 eq_refl)
    as (s' & Hrun & Hgone & _).
  - vm_compute. left. reflexivity.
  - exists s'. split; [exact Hrun|]. split; [|reflexivity].
    apply Hgone. reflexivity.
Defined.

End StreamFacts.

(** ** Paged searches: following the cookie *)

Module Paging.
Import JS SearchResult SearchResultFacts PagedResult PagedClaims.

Definition page_event (args : list arg) : event := {| ename := "page"; eargs := args |}.
Definition end_event (msg : LDAPResult) : event :=
  {| ename := "end"; eargs := [AMessage (ResultMessage msg)] |}.

(** The control with the cookie of the last response in it. *)
Definition with_cookie (cookie : string) (c : Control) : Control :=
  {| ctype := ctype c; csize := csize c; ccookie := Some cookie |}.

Lemma emit_to_emitted (name : string) (args : list arg) (s : state) :
  (name =? "error") = false ->
  (name =? "newListener") = false ->
  exists s',
    emit_to name args s = Done s'
    /\ emitted (emitter s') = emitted (emitter s) ++ [ {| ename := name; eargs := args |} ]
    /\ control s' = control s
    /\ requested s' = requested s.
Proof.
  intros Herr Hnl.
  destruct (emit_to_returns name args s Herr) as [s' Hrun].
  destruct (emit_to_state name args s) as (He & Hc & Hr).
  rewrite Hrun in *. simpl in He, Hc, Hr.
  exists s'. split; [reflexivity|].
  split; [|split; assumption].
  rewrite He. now apply emitted_emit.
Qed.

(** X22.  A paged search goes on exactly as long as the server returns a
    cookie.  When the response carries a paging control with an empty
    cookie, the stream is asked to emit [page] and then [end], and no
    further request is made.  With a non-empty cookie the handler stores
    the cookie in the control of the request and the stream is asked to
    emit [page]; without [pagePause] the next page is requested at once,
    and with it only when the caller calls the function that came with
    the [page] event, which requests one more page, or, called with a
    true argument, ends the stream instead. *)
Theorem paging_follows_the_cookie :
  forall (pagePause : bool) (msg : LDAPResult) (pc : Control) (cookie : string) (s : state),
    find_paged msg = Some pc ->
    ccookie pc = Some cookie ->
    let result := AMessage (ResultMessage msg) in
    let out := state_of (on_end pagePause msg s) in
    (String.length cookie = 0%nat ->
       emitted (emitter out)
       = emitted (emitter s)
         ++ [page_event [result; AResume (if pagePause then ResumeNoop else NoResume)];
             end_event msg]
       /\ requested out = requested s
       /\ control out = control s)
    /\ (String.length cookie <> 0%nat ->
        control out = with_cookie cookie (control s)
        /\ if pagePause
           then
             emitted (emitter out)
             = emitted (emitter s) ++ [page_event [result; AResume (ResumeNextPage msg)]]
             /\ requested out = requested s
             /\ requested (state_of (call_resume (ResumeNextPage msg) false out))
                = S (requested s)
             /\ requested (state_of (call_resume (ResumeNextPage msg) true out))
                = requested s
             /\ emitted (emitter (state_of (call_resume (ResumeNextPage msg) true out)))
                = emitted (emitter out) ++ [end_event msg]
           else
             emitted (emitter out) = emitted (emitter s) ++ [page_event [result]]
             /\ requested out = S (requested s)).
Proof.
  intros pagePause msg pc cookie s Hfind Hcookie. cbv zeta.
  unfold on_end. rewrite Hfind, Hcookie.
  split.
  - intro Hlen. rewrite Hlen. simpl Nat.eqb. cbv iota.
    destruct (emit_to_emitted "page"
                [AMessage (ResultMessage msg);
                 AResume (if pagePause then ResumeNoop else NoResume)] s eq_refl eq_refl)
      as (s1 & Hrun1 & Hem1 & Hc1 & Hr1).
    rewrite Hrun1. simpl andThen.
    destruct (emit_to_emitted "end" [AMessage (ResultMessage msg)] s1 eq_refl eq_refl)
      as (s2 & Hrun2 & Hem2 & Hc2 & Hr2).
    rewrite Hrun2. simpl.
    split; [|split; congruence].
    rewrite Hem2, Hem1, <- app_assoc. reflexivity.
  - intro Hlen. apply Nat.eqb_neq in Hlen. rewrite Hlen.
    destruct pagePause.
    + destruct (emit_to_emitted "page"
                  [AMessage (ResultMessage msg); AResume (ResumeNextPage msg)]
                  (set_cookie cookie s) eq_refl eq_refl)
        as (s1 & Hrun1 & Hem1 & Hc1 & Hr1).
      simpl in Hem1, Hc1, Hr1.
      rewrite Hrun1. simpl state_of.
      split; [exact Hc1|].
      split; [exact Hem1|]. split; [exact Hr1|].
      split; [simpl; now rewrite Hr1|].
      unfold call_resume.
      destruct (emit_to_emitted "end" [AMessage (ResultMessage msg)] s1 eq_refl eq_refl)
        as (s2 & Hrun2 & Hem2 & Hc2 & Hr2).
      rewrite Hrun2. simpl. split; [congruence | exact Hem2].
    + destruct (emit_to_emitted "page" [AMessage (ResultMessage msg)]
                  (set_cookie cookie s) eq_refl eq_refl)
        as (s1 & Hrun1 & Hem1 & Hc1 & Hr1).
      rewrite Hrun1. simpl.
      split; [exact Hc1|]. split; [exact Hem1 | now rewrite Hr1].
Qed.

(** The first page of a paged search that has more to come. *)
Definition more_to_come : LDAPResult :=
  {| rtype := "SearchResultDone"; rmessageID := 2; rstatus := StatusCode 0;
     rcontrols := [{| ctype := PagedResultsOID; csize := 0; ccookie := Some "next" |}] |}.

Definition first_page : state :=
  {| emitter := set_queue None (on "searchEntry" (UserListener 1) create);
     control := {| ctype := PagedResultsOID; csize := 100; ccookie := None |};
     requested := 1 |}.

Lemma paging_follows_the_cookie_witness :
  control (state_of (on_end false more_to_come first_page))
  = {| ctype := PagedResultsOID; csize := 100; ccookie := Some "next" |}
  /\ requested (state_of (on_end false more_to_come first_page)) = 2%nat.
Proof.
  destruct (paging_follows_the_cookie false more_to_come
              {| ctype := PagedResultsOID; csize := 0; ccookie := Some "next" |}
              "next" first_page eq_refl eq_refl) as [_ Hmore].
  destruct (Hmore ltac:(discriminate)) as (Hc & _ & Hr).
  split; [exact Hc | exact Hr].
Defined.

End Paging.

(** ** [search], [modifyDN] and the connection loop *)

Module SearchCalls.
Import JS Requests Client ClientFacts DispatchFacts Arguments.

(** The event a paged search puts on its stream for one [onSent]. *)
Definition sent_event (searchResult : Emitter) (args : list CArg) : SearchEffect :=
  if arg_truthy (nth_arg 0 args) then ResultEvent searchResult "error" (nth_arg 0 args)
  else ResultEvent searchResult "searchRequest" (nth_arg 2 args).

Lemma paged_onSents_called (searchResult : Emitter) (calls : list (list CArg)) :
  forall out,
    fold_left (fun st args =>
                 let (called, more) := paged_onSent searchResult args (fst st) in
                 (called, snd st ++ more))
      calls (true, out)
    = (true, out ++ map (sent_event searchResult) calls).
Proof.
  induction calls as [|args rest IH]; intro out; simpl.
  - now rewrite app_nil_r.
  - rewrite IH. unfold sent_event. rewrite <- app_assoc.
    destruct (arg_truthy (nth_arg 0 args)); reflexivity.
Qed.

(** X23.  A paged search calls its caller back once.  However many page
    requests the search makes, the caller's callback is called on the
    first [onSent] only, with the error of that call and the search result
    stream; every [onSent], the first included, then puts one event on the
    stream: [error] with the error when the request could not be sent,
    [searchRequest] with the request when it was. *)
Theorem paged_search_calls_back_once :
  forall (searchResult : Emitter) (first : list CArg) (rest : list (list CArg)),
    paged_onSents searchResult (first :: rest)
    = (true,
       CallerCallback (nth_arg 0 first) (CEmitter searchResult)
         :: map (sent_event searchResult) (first :: rest)).
Proof.
  intros searchResult first rest. unfold paged_onSents.
  match goal with |- fold_left ?f _ _ = _ => set (step := f) end.
  cbn [fold_left].
  replace (step (false, []) first)
    with (true, [CallerCallback (nth_arg 0 first) (CEmitter searchResult);
                 sent_event searchResult first])
    by (subst step; unfold sent_event; simpl;
        destruct (arg_truthy (nth_arg 0 first)); reflexivity).
  subst step. rewrite paged_onSents_called. reflexivity.
Qed.

(** X24.  A search whose request cannot be dispatched.  The dispatcher
    reports a failure by calling the [onSent] function of the search with
    the error as the only argument.  A paged search passes the error and
    the stream to the caller's callback and emits [error] on the stream.
    A search that is not paged passes the error to the caller's callback
    with no stream, and then throws a TypeError out of [search], because it
    goes on to emit [searchRequest] on the emitter argument it was not
    given.  On a destroyed client that is how every search ends. *)
Theorem unsent_search_reports_error :
  forall (req : Request) (expect : Expect) (stream : Emitter) (k : nat) (c : t),
    destroyed c = true ->
    exists c',
      _dispatchRequest req expect (Some stream) (UserCallback k) c = Done c'
      /\ trace c' = trace c ++ [CallbackCall (UserCallback k) (refusal "client destroyed")]
      /\ (forall what,
            plain_onSent (refusal what)
            = ([CallerCallback (CErr (Err KConnectionError what)) CUndefined],
               Some (Err KTypeError "Cannot read properties of undefined (reading 'emit')"))
            /\ paged_onSent stream (refusal what) false
               = (true,
                  [CallerCallback (CErr (Err KConnectionError what)) (CEmitter stream);
                   ResultEvent stream "error" (CErr (Err KConnectionError what))])).
Proof.
  intros req expect stream k c Hd.
  unfold _dispatchRequest. rewrite Hd. simpl.
  eexists. split; [reflexivity|]. split; [reflexivity|].
  intro what. split; reflexivity.
Qed.

Lemma unsent_search_reports_error_witness :
  exists c',
    _dispatchRequest (SearchRequest (DnString "dc=x") []) (ExpectCodes [0%Z])
      (Some (StreamEmitter 7)) (UserCallback 3) DestroyClaims.destroyed_once = Done c'
    /\ snd (plain_onSent (refusal "client destroyed"))
       = Some (Err KTypeError "Cannot read properties of undefined (reading 'emit')").
Proof.
  destruct (unsent_search_reports_error (SearchRequest (DnString "dc=x") [])
              (ExpectCodes [0%Z]) (StreamEmitter 7) 3 DestroyClaims.destroyed_once eq_refl)
    as (c' & Hrun & _ & Hsent).
  exists c'. split; [exact Hrun|].
  destruct (Hsent "client destroyed") as [Hplain _]. now rewrite Hplain.
Defined.

End SearchCalls.

Module ModifyDNFacts.
Import JS Requests ModifyDN.

(** X25.  [modifyDN] never parses the name of the entry.  It calls
    [ensureDN] without the strictness flag, so whatever [strictDN] the
    client was made with, a name given as a string is put into the request
    as it is, with [deleteOldRdn] true and the caller's controls, whether
    [dn.parse] would accept it or not; a name that is neither a string nor
    a DN object is refused, [undefined] by the assertion and anything else
    with 'invalid DN', before the new name is looked at. *)
Theorem modifyDN_never_parses_the_name :
  forall (dn_parse : dn_input -> result DN) (newName : string) (controls : list Control),
    (forall s req,
        modifyDN_request dn_parse (InValue (VStr s)) newName controls = Ok req ->
        entry req = DnString s
        /\ deleteOldRdn req = true /\ ModifyDN.controls req = controls)
    /\ (forall s newDN,
          dn_parse (InValue (VStr newName)) = Ok newDN ->
          List.length (rdns newDN) = 1%nat ->
          modifyDN_request dn_parse (InValue (VStr s)) newName controls
          = Ok {| entry := DnString s; deleteOldRdn := true; newRdn := newDN;
                  newSuperior := None; ModifyDN.controls := controls |})
    /\ (forall v,
          match v with
          | VStr _ => True
          | VUndefined =>
              modifyDN_request dn_parse (InValue v) newName controls
              = Throw (Err KAssertionError "name")
          | _ =>
              modifyDN_request dn_parse (InValue v) newName controls
              = Throw (Err KError "invalid DN")
          end).
Proof.
  intros dn_parse newName controls.
  assert (Hbuilt : forall e req,
    (newDN <-- dn_parse (InValue (VStr newName)) ;;;
     if (List.length (rdns newDN) =? 1)%nat
     then Ok {| entry := e; deleteOldRdn := true; newRdn := newDN;
                newSuperior := None; ModifyDN.controls := controls |}
     else match rdns newDN with
          | [] => Throw (Err KTypeError
                           "Cannot read properties of undefined (reading 'toString')")
          | first :: rest =>
              rdn <-- dn_parse (InValue (VStr first)) ;;;
              Ok {| entry := e; deleteOldRdn := true; newRdn := rdn;
                    newSuperior := Some {| rdns := rest |};
                    ModifyDN.controls := controls |}
          end) = Ok req ->
    entry req = e /\ deleteOldRdn req = true /\ ModifyDN.controls req = controls).
  { intros e req. destruct (dn_parse (InValue (VStr newName))) as [newDN|err]; simpl;
      [|discriminate].
    destruct (List.length (rdns newDN) =? 1)%nat.
    - intro H; inversion H; subst. repeat split.
    - destruct (rdns newDN) as [|first rest]; [discriminate|].
      destruct (dn_parse (InValue (VStr first))); simpl; [|discriminate].
      intro H; inversion H; subst. repeat split. }
  split; [|split].
  - intros s req H. apply (Hbuilt (DnString s) req). exact H.
  - intros s newDN Hparse Hone. unfold modifyDN_request. simpl.
    rewrite Hparse. simpl. rewrite Hone. reflexivity.
  - intros [| |b|n|s|items|fields]; try exact I; reflexivity.
Qed.

(** The RDNs a request names as the new place of the entry. *)
Definition new_place (req : Request) : list string :=
  rdns (newRdn req) ++ match newSuperior req with
                       | Some d => rdns d
                       | None => []
                       end.

(** X26.  [modifyDN] splits the new name into the new RDN and the new
    superior without losing any of it.  When the parsed new name has one
    RDN, that is the new RDN and no new superior is set.  When it has
    more, the first RDN is parsed again on its own to become the new RDN
    and the others, in order, become the new superior; provided an RDN
    parses back to itself, the new RDN followed by the new superior is the
    new name.  A new name that parses to no RDN at all makes [modifyDN]
    throw a TypeError. *)
Theorem modifyDN_splits_the_new_name :
  forall (dn_parse : dn_input -> result DN) (name newName : string)
         (controls : list Control) (newDN : DN),
    dn_parse (InValue (VStr newName)) = Ok newDN ->
    (forall r, In r (rdns newDN) ->
               dn_parse (InValue (VStr r)) = Ok {| rdns := [r] |}) ->
    match rdns newDN with
    | [] =>
        modifyDN_request dn_parse (InValue (VStr name)) newName controls
        = Throw (Err KTypeError "Cannot read properties of undefined (reading 'toString')")
    | first :: rest =>
        exists req,
          modifyDN_request dn_parse (InValue (VStr name)) newName controls = Ok req
          /\ new_place req = rdns newDN
          /\ rdns (newRdn req) = [first]
          /\ (rest = [] <-> newSuperior req = None)
          /\ (rest <> [] -> newSuperior req = Some {| rdns := rest |})
    end.
Proof.
  intros dn_parse name newName controls newDN Hparse Hrdn.
  unfold modifyDN_request. simpl. rewrite Hparse. simpl.
  destruct (rdns newDN) as [|first rest] eqn:Hr; [reflexivity|].
  destruct rest as [|second rest]; simpl.
  - eexists. split; [reflexivity|]. unfold new_place. simpl. rewrite Hr.
    repeat split; try reflexivity. intro H; now elim H.
  - rewrite (Hrdn first (or_introl eq_refl)). simpl.
    eexists. split; [reflexivity|]. unfold new_place. simpl.
    repeat split; try reflexivity; try discriminate.
Qed.

(** A parser for the scenario: it knows one name of three RDNs and takes
    every other string for a single RDN. *)
Definition parse_example (input : dn_input) : result DN :=
  match input with
  | InValue (VStr s) =>
      if s =? "cn=new,ou=people,dc=x" then Ok {| rdns := ["cn=new"; "ou=people"; "dc=x"] |}
      else Ok {| rdns := [s] |}
  | _ => Throw (Err KTypeError "name (string) required")
  end.

Lemma modifyDN_splits_the_new_name_witness :
  exists req,
    modifyDN_request parse_example (InValue (VStr "cn=old,ou=people,dc=x"))
      "cn=new,ou=people,dc=x" [] = Ok req
    /\ rdns (newRdn req) = ["cn=new"]
    /\ newSuperior req = Some {| rdns := ["ou=people"; "dc=x"] |}.
Proof.
  destruct (modifyDN_splits_the_new_name parse_example "cn=old,ou=people,dc=x"
              "cn=new,ou=people,dc=x" [] {| rdns := ["cn=new"; "ou=people"; "dc=x"] |}
              eq_refl)
    as (req & Hrun & _ & Hrdn & _ & Hsup).
  - intros r [H|[H|[H|[]]]]; subst r; reflexivity.
  - exists req. split; [exact Hrun|]. split; [exact Hrdn|].
    apply Hsup. discriminate.
Defined.

End ModifyDNFacts.

Module ConnectFacts.
Import Connect.

Lemma nth_error_all {A} (l : list A) :
  map (nth_error l) (seq 0 (List.length l)) = map Some l.
Proof.
  induction l as [|x rest IH]; [reflexivity|].
  cbn [List.length seq map nth_error]. f_equal.
  rewrite <- seq_shift, map_map. exact IH.
Qed.

Lemma seq_from (a len : nat) : seq a len = map (Nat.add a) (seq 0 len).
Proof.
  induction a as [|a IH].
  - rewrite <- (map_id (seq 0 len)) at 1. apply map_ext. reflexivity.
  - rewrite <- seq_shift, IH, map_map. reflexivity.
Qed.

(** One full round, read off the list. *)
Lemma rotation {A} (l : list A) (i : nat) :
  (i < List.length l)%nat ->
  map (fun j => nth_error l ((i + j) mod List.length l)) (seq 0 (List.length l))
  = map Some (skipn i l ++ firstn i l).
Proof.
  intro Hi. set (n := List.length l) in *.
  replace (seq 0 n) with (seq 0 (n - i) ++ seq (n - i) i)
    by (rewrite <- seq_app; f_equal; lia).
  rewrite !map_app. f_equal.
  - rewrite <- nth_error_all, length_skipn. fold n.
    apply map_ext_in. intros j Hj. apply in_seq in Hj.
    rewrite nth_error_skipn. f_equal. apply Nat.mod_small. lia.
  - rewrite <- nth_error_all, length_firstn. fold n.
    replace (Nat.min i n) with i by lia.
    rewrite (seq_from (n - i) i), map_map.
    apply map_ext_in. intros m Hm. apply in_seq in Hm.
    rewrite nth_error_firstn.
    replace (m <? i)%nat with true by (symmetry; apply Nat.ltb_lt; lia).
    f_equal. replace (i + (n - i + m))%nat with (m + 1 * n)%nat by lia.
    rewrite Nat.Div0.mod_add. apply Nat.mod_small. lia.
Qed.

Lemma servers_from (server : Type) (urls : list server) (n : nat) :
  List.length urls = S n ->
  forall k i,
    (i < S n)%nat ->
    servers server k urls (Some i)
    = (map (fun j => nth_error urls ((i + j) mod S n)) (seq 0 k),
       Some ((i + k) mod S n)).
Proof.
  intro Hlen. induction k as [|k IH]; intros i Hi.
  - cbn [servers seq map]. rewrite Nat.add_0_r, Nat.mod_small by exact Hi. reflexivity.
  - cbn [servers]. unfold getNextServer. rewrite Hlen.
    rewrite IH by (apply Nat.mod_upper_bound; discriminate).
    cbn [seq map]. rewrite Nat.add_0_r, (Nat.mod_small i) by exact Hi.
    f_equal.
    + f_equal. rewrite <- seq_shift, map_map.
      apply map_ext. intro j.
      rewrite Nat.Div0.add_mod_idemp_l. do 2 f_equal. lia.
    + rewrite Nat.Div0.add_mod_idemp_l. do 2 f_equal. lia.
Qed.

Lemma no_servers (server : Type) (k : nat) :
  forall start, fst (servers server k [] start) = repeat None k.
Proof.
  induction k as [|k IH]; intro start; [reflexivity|].
  cbn [servers]. unfold getNextServer. cbn [List.length].
  assert (Hnone : match start with Some i => nth_error (@nil server) i | None => None end
                  = None).
  { destruct start as [[|i]|]; reflexivity. }
  rewrite Hnone.
  replace (match start with Some _ => None | None => None end) with (@None nat)
    by (destruct start; reflexivity).
  specialize (IH None). destruct (servers server k [] None) as [rest last].
  simpl in *. now rewrite IH.
Qed.

(** X27.  The servers are tried round robin.  With at least one server
    configured and an index inside the list, the [k]th call of
    [getNextServer] returns the server [k] places after the current one,
    wrapping around at the end of the list, so that as many calls as there
    are servers try each server exactly once, in list order from the
    current one, and leave the index where it was.  With no server
    configured every call returns [undefined]. *)
Theorem servers_are_tried_round_robin :
  forall (server : Type) (urls : list server) (i : nat),
    (i < List.length urls)%nat ->
    (forall k,
        fst (servers server k urls (Some i))
        = map (fun j => nth_error urls ((i + j) mod List.length urls)) (seq 0 k))
    /\ servers server (List.length urls) urls (Some i)
       = (map Some (skipn i urls ++ firstn i urls), Some i)
    /\ (forall k start, fst (servers server k [] start) = repeat None k).
Proof.
  intros server urls i Hi.
  split; [|split; [|intros k start; apply no_servers]].
  - intro k. destruct (List.length urls) as [|n] eqn:Hlen; [lia|].
    now rewrite (servers_from server urls n Hlen k i Hi).
  - pose proof (rotation urls i Hi) as Hrot.
    destruct (List.length urls) as [|n] eqn:Hlen; [lia|].
    rewrite (servers_from server urls n Hlen (S n) i Hi), Hrot.
    f_equal. f_equal.
    replace (i + S n)%nat with (i + 1 * S n)%nat by lia.
    rewrite Nat.Div0.mod_add. now apply Nat.mod_small.
Qed.

Lemma servers_are_tried_round_robin_witness :
  servers string 3 ["ldap://a"; "ldap://b"; "ldap://c"] (Some 1)
  = ([Some "ldap://b"; Some "ldap://c"; Some "ldap://a"], Some 1).
Proof.
  exact (proj1 (proj2 (servers_are_tried_round_robin string
                         ["ldap://a"; "ldap://b"; "ldap://c"] 1 ltac:(simpl; lia)))).
Defined.

(** X28.  A failure to connect is never emitted into the void.  When the
    backoff gives up, the client emits [connectTimeout] for a connection
    timeout, [connectRefused] for ECONNREFUSED and [error] for any other
    error, but only if somebody listens for that event; otherwise it
    emits [error] instead, with the name of the event it stands for put
    before the message (a non-empty one).  Giving up with no error at all
    is emitted as [error] with the string 'max retries'. *)
Theorem connect_failure_is_always_reported :
  forall (listenerCount : string -> nat) (err : option ConnectError),
    let out := onBackoffFail listenerCount err in
    (fst out = "error" \/ (0 < listenerCount (fst out))%nat)
    /\ (err = None -> out = ("error", FailString "max retries"))
    /\ (forall e, err = Some e ->
          let event := if is_timeout e then "connectTimeout"
                       else if match code e with
                               | Some c => c =? "ECONNREFUSED"
                               | None => false
                               end
                            then "connectRefused" else "error" in
          if (event =? "error") || negb (listenerCount event =? 0)%nat
          then out = (event, FailError e)
          else fst out = "error"
               /\ exists e', snd out = FailError e'
                             /\ is_timeout e' = is_timeout e /\ code e' = code e
                             /\ cmessage e'
                                = if cmessage e =? "" then ""
                                  else (event ++ ": " ++ cmessage e)%string).
Proof.
  intros listenerCount err. cbv zeta.
  assert (Hdispatch : forall event e,
    (event =? "error") = false ->
    (if negb (listenerCount event =? 0)%nat
     then dispatchError listenerCount event (FailError e) = (event, FailError e)
     else fst (dispatchError listenerCount event (FailError e)) = "error"
          /\ exists e', snd (dispatchError listenerCount event (FailError e)) = FailError e'
                        /\ is_timeout e' = is_timeout e /\ code e' = code e
                        /\ cmessage e' = if cmessage e =? "" then ""
                                         else (event ++ ": " ++ cmessage e)%string)
    /\ (fst (dispatchError listenerCount event (FailError e)) = "error"
        \/ (0 < listenerCount (fst (dispatchError listenerCount event (FailError e))))%nat)).
  { intros event e Hev. unfold dispatchError. rewrite Hev. cbn [negb andb data_truthy].
    destruct (listenerCount event =? 0)%nat eqn:Hc; cbn [negb andb fst snd].
    - split; [|left; reflexivity]. split; [reflexivity|].
      destruct (cmessage e =? "") eqn:Hm; cbn [negb].
      + exists e. apply String.eqb_eq in Hm. rewrite Hm. repeat split.
      + eexists. split; [reflexivity|]. repeat split.
    - split; [reflexivity|]. right. apply Nat.eqb_neq in Hc. lia. }
  split; [|split].
  - destruct err as [e|]; [|left; reflexivity]. unfold onBackoffFail.
    destruct (is_timeout e); [apply (proj2 (Hdispatch "connectTimeout" e eq_refl))|].
    destruct (match code e with Some c => c =? "ECONNREFUSED" | None => false end);
      [apply (proj2 (Hdispatch "connectRefused" e eq_refl)) | left; reflexivity].
  - intros ->. reflexivity.
  - intros e ->. unfold onBackoffFail.
    pose proof (proj1 (Hdispatch "connectTimeout" e eq_refl)) as Ht.
    pose proof (proj1 (Hdispatch "connectRefused" e eq_refl)) as Hr.
    destruct (is_timeout e).
    { change ("connectTimeout" =? "error") with false. cbn [orb]. exact Ht. }
    destruct (match code e with Some c => c =? "ECONNREFUSED" | None => false end).
    { change ("connectRefused" =? "error") with false. cbn [orb]. exact Hr. }
    reflexivity.
Qed.

(** *** The promise of [createClient] *)

Lemma settled_stays (evs : list ClientEmit) :
  forall w, outcome w <> StillPending ->
            outcome (fold_left on_emit evs w) = outcome w.
Proof.
  induction evs as [|ev rest IH]; intros w Hw; [reflexivity|]. simpl.
  assert (Hstep : outcome (on_emit w ev) = outcome w).
  { destruct ev as [a|a|n]; simpl; try reflexivity.
    - destruct (once_error w); simpl; [|reflexivity].
      destruct (outcome w); try reflexivity. congruence.
    - destruct (once_connect w); simpl; [|reflexivity].
      destruct (outcome w); try reflexivity. congruence. }
  rewrite IH; [exact Hstep | now rewrite Hstep].
Qed.

Lemma never_fulfilled (evs : list ClientEmit) :
  Forall from_client evs ->
  forall w, outcome w <> FulfilledWithClient ->
            outcome (fold_left on_emit evs w) <> FulfilledWithClient.
Proof.
  induction 1 as [|ev rest Hev _ IH]; intros w Hw; [exact Hw|]. simpl.
  apply IH. destruct ev as [a|a|n]; simpl; try exact Hw.
  - destruct (once_error w); simpl; [|exact Hw].
    destruct (outcome w); simpl; congruence.
  - destruct (once_connect w); simpl; [|exact Hw].
    destruct a as [si|e|]; simpl in Hev; try contradiction.
    destruct (outcome w); simpl; congruence.
Qed.

(** X29.  The promise of the promise-style [createClient] is never
    fulfilled.  The client emits [connect] with the socket as the event's
    argument; the [once('connect')] listener of [createClient] takes its
    argument for an error and, since a socket is truthy, rejects the
    promise with it.  So whatever the client emits, the promise is pending
    or rejected, and a client that connects before it reports an error
    rejects the promise with its socket. *)
Theorem createClient_promise_is_never_fulfilled :
  forall (evs : list ClientEmit),
    Forall from_client evs ->
    outcome (after_events evs) <> FulfilledWithClient
    /\ (forall socket before after,
          evs = before ++ EmitConnect (ArgSocket socket) :: after ->
          Forall (fun ev => match ev with EmitOther _ => True | _ => False end) before ->
          outcome (after_events evs) = RejectedWithArg (ArgSocket socket)).
Proof.
  intros evs Hall. split.
  - apply never_fulfilled; [exact Hall | discriminate].
  - intros socket before after -> Hbefore. unfold after_events.
    rewrite fold_left_app.
    assert (Hquiet : fold_left on_emit before createClient = createClient).
    { clear Hall. induction Hbefore as [|ev rest Hev _ IH]; [reflexivity|].
      destruct ev; try contradiction. exact IH. }
    rewrite Hquiet. simpl. now rewrite settled_stays.
Qed.

(** A client that connects at the first attempt. *)
Lemma createClient_promise_is_never_fulfilled_witness :
  outcome (after_events [EmitOther "connectAttempt"; EmitConnect (ArgSocket 0)])
  = RejectedWithArg (ArgSocket 0).
Proof.
  refine (proj2 (createClient_promise_is_never_fulfilled
                   [EmitOther "connectAttempt"; EmitConnect (ArgSocket 0)] _)
            0 [EmitOther "connectAttempt"] [] eq_refl _).
  - repeat constructor.
  - repeat constructor.
Defined.

End ConnectFacts.

(** ** Paged search without server support *)

Module PagedSearch.
Import JS SearchResult SearchResultFacts PagedResult PagedClaims.

(** C5, amended.  A page ends in the end-of-page handler only when the
    client has accepted its result, that is, when the result code is
    LDAP_SUCCESS, the one code a search expects.  When such a result
    carries no PagedResultsControl, the stream is asked to emit [page]
    (with a no-op resume callback when pagePause is set) and then, when a
    [pageError] listener is attached, [pageError] with the
    PagedResultsError 'paged search not supported by server' followed by
    [end], and otherwise a single [error] with that error, which a stream
    that is flowing without an [error] listener throws.  No further paged
    request is issued, by the handler or by the resume callback.  A
    result with any other code does not reach the handler: the client
    hands the PageResult an [error] event with the LDAP error, and the
    relay passes that on as a single [error], without any [page]. *)
Theorem page_without_control_is_not_supported :
  forall (pagePause : bool) (msg : LDAPResult) (s : state),
    find_paged msg = None ->
    let result := AMessage (ResultMessage msg) in
    let page := {| ename := "page";
                   eargs := [result; AResume (if pagePause then ResumeNoop else NoResume)] |} in
    let unsupported := Err KPagedResultsError "paged search not supported by server" in
    let paged := emitter (state_of (emit_to "page" (eargs page) s)) in
    (exists out,
       requested out = requested s
       /\ control out = control s
       /\ ((0 < List.length (listeners "pageError" (emitter s)))%nat ->
           on_end pagePause msg s = Done out
           /\ emitted (emitter out)
              = emitted (emitter s)
                ++ [page;
                    {| ename := "pageError"; eargs := [AError unsupported] |};
                    {| ename := "end"; eargs := [result] |}])
       /\ (List.length (listeners "pageError" (emitter s)) = 0%nat ->
           on_end pagePause msg s
           = (if deaf paged then Thrown unsupported out else Done out)
           /\ emitted (emitter out)
              = emitted (emitter s)
                ++ [page; {| ename := "error"; eargs := [AError unsupported] |}]))
    /\ (forall stop s', call_resume ResumeNoop stop s' = Done s')
    /\ (forall (ti : nat) (msgid : Z) (sc : Client.Scope) (c : Client.t) (i : nat),
          Client.s_emitter sc = Some (Client.StreamEmitter i) ->
          Client.s_expect sc = Client.ExpectCodes [Client.LDAP_SUCCESS] ->
          Client._tracker c <> None ->
          Client.trace (Client.state_of (Client.onMessage ti msgid sc (ResultMessage msg) c))
          = Client.trace c ++
            match rstatus msg with
            | StatusCode 0 => [Client.EmitterEvent i "end" (Client.CMsg (ResultMessage msg))]
            | _ =>
                [Client.ClientEvent "resultError" [Client.CErr (Client.getError msg)];
                 Client.EmitterEvent i "error" (Client.CErr (Client.getError msg))]
            end)
    /\ (forall e,
          exists out,
            relay "error" [AError e] s
            = (if deaf (emitter s) then Thrown e out else Done out)
            /\ emitted (emitter out)
               = emitted (emitter s) ++ [{| ename := "error"; eargs := [AError e] |}]
            /\ requested out = requested s
            /\ control out = control s).
Proof.
  intros pagePause msg s Hfind. cbv zeta.
  split; [|split; [intros; reflexivity|split]].
  - unfold on_end. rewrite Hfind.
    set (page := [AMessage (ResultMessage msg);
                  AResume (if pagePause then ResumeNoop else NoResume)]).
    destruct (emit_to_returns "page" page s eq_refl) as [s1 Hs1].
    destruct (emit_to_state "page" page s) as (He1 & Hc1 & Hr1).
    rewrite Hs1 in *. simpl andThen. simpl in He1, Hc1, Hr1.
    assert (Hl : listeners "pageError" (emitter s1) = listeners "pageError" (emitter s)).
    { rewrite He1. now apply pageError_listeners_kept. }
    assert (Hem1 : emitted (emitter s1)
                   = emitted (emitter s) ++ [{| ename := "page"; eargs := page |}]).
    { rewrite He1. now apply emitted_emit. }
    rewrite Hl.
    destruct (List.length (listeners "pageError" (emitter s))) as [|n] eqn:Hn.
    + change (0 <? 0)%nat with false. cbv iota.
      exists (state_of (emit_to "error"
                          [AError (Err KPagedResultsError
                                     "paged search not supported by server")] s1)).
      destruct (emit_to_state "error"
                  [AError (Err KPagedResultsError "paged search not supported by server")] s1)
        as (He2 & Hc2 & Hr2).
      split; [congruence|]. split; [congruence|].
      split; [intro H; inversion H|].
      intros _. split.
      * change (emit_to "page" (eargs {| ename := "page"; eargs := page |}) s)
          with (emit_to "page" page s).
        rewrite Hs1. change (state_of (Done s1)) with s1.
        unfold emit_to, not_supported.
        pose proof (error_event_outcome
                      [AError (Err KPagedResultsError "paged search not supported by server")]
                      (emitter s1)) as Hout.
        destruct (deaf (emitter s1)); rewrite Hout; reflexivity.
      * rewrite He2, emitted_emit, Hem1, <- app_assoc by reflexivity. reflexivity.
    + change (0 <? S n)%nat with true. cbv iota.
      destruct (emit_to_returns "pageError"
                  [AError (Err KPagedResultsError "paged search not supported by server")]
                  s1 eq_refl) as [s2 Hs2].
      destruct (emit_to_state "pageError"
                  [AError (Err KPagedResultsError "paged search not supported by server")] s1)
        as (He2 & Hc2 & Hr2).
      unfold not_supported. rewrite Hs2 in *. simpl andThen. simpl in He2, Hc2, Hr2.
      destruct (emit_to_returns "end" [AMessage (ResultMessage msg)] s2 eq_refl) as [s3 Hs3].
      destruct (emit_to_state "end" [AMessage (ResultMessage msg)] s2) as (He3 & Hc3 & Hr3).
      rewrite Hs3 in *. simpl in He3, Hc3, Hr3.
      exists s3.
      split; [congruence|]. split; [congruence|].
      split; [|intro H; discriminate H].
      intros _. split; [reflexivity|].
      rewrite He3, emitted_emit, He2, emitted_emit, Hem1 by reflexivity.
      rewrite <- !app_assoc. reflexivity.
  - intros ti msgid sc c i Hem Hexp Htrk.
    assert (Hord : ResponseFacts.ordinary sc).
    { intros cb H. rewrite Hem in H. discriminate H. }
    destruct (ResponseFacts.onMessage_final ti msgid sc (ResultMessage msg) c eq_refl)
      as (c' & Hrun & _ & _ & _ & Htrace); try assumption.
    { rewrite Hexp. discriminate. }
    rewrite Hrun. unfold ClientFacts.finish.
    replace (Client.state_of _) with c'
      by (destruct (ResponseFacts.rejected _ _ _); reflexivity).
    rewrite Htrace. f_equal.
    unfold ResponseFacts.verdict, ResponseFacts.dispatched. rewrite Hexp, Hem.
    unfold Client.expected, Client.LDAP_SUCCESS.
    destruct (rstatus msg) as [[|p|p]|]; reflexivity.
  - intro e. unfold relay, emit_to.
    exists (set_emitter (SearchResult.state_of
                           (emit {| ename := "error"; eargs := [AError e] |} (emitter s))) s).
    split.
    + rewrite (error_event_outcome [AError e] (emitter s)).
      destruct (deaf (emitter s)); reflexivity.
    + simpl. split; [now apply emitted_emit | split; reflexivity].
Qed.

(** A stream that is flowing, listened to for [pageError] and [error]. *)
Definition flowing : state :=
  {| emitter := SearchResult.set_queue None
                  (on "error" (UserListener 2)
                     (on "pageError" (UserListener 1) SearchResult.create));
     control := {| ctype := PagedResultsOID; csize := 100; ccookie := None |};
     requested := 1 |}.

(** A response from a server that ignored the paging control, for a search
    whose caller listens to [pageError] on a stream already flowing. *)
Lemma page_without_control_is_not_supported_witness :
  exists out,
    on_end false {| rtype := "SearchResultDone"; rmessageID := 2; rstatus := StatusCode 0;
                    rcontrols := [] |} flowing = Done out
    /\ requested out = 1%nat.
Proof.
  destruct (page_without_control_is_not_supported false
              {| rtype := "SearchResultDone"; rmessageID := 2; rstatus := StatusCode 0;
                 rcontrols := [] |} flowing eq_refl)
    as ((out & Hreq & _ & Hlisten & _) & _).
  exists out. split; [|exact Hreq].
  apply Hlisten. vm_compute. lia.
Defined.

(** The first page of a paged search in flight under messageID 1; its
    PageResult is emitter 7. *)
Definition paged_scope : Client.Scope :=
  {| Client.s_req := Requests.SearchRequest (Requests.DnString "dc=x")
                       [{| ctype := PagedResultsOID; csize := 100; ccookie := None |}];
     Client.s_expect := Client.ExpectCodes [Client.LDAP_SUCCESS];
     Client.s_emitter := Some (Client.StreamEmitter 7);
     Client.s_callback := Client.UserCallback 1;
     Client.s_timer := None |}.

(** The result of a server that refuses the critical paging control:
    unavailableCriticalExtension (12), and no control in the response. *)
Definition refused : LDAPResult :=
  {| rtype := "SearchResultDone"; rmessageID := 1; rstatus := StatusCode 12;
     rcontrols := [] |}.

(** The claim fails for a response without the control whose result code
    is not success.  The client hands the PageResult an [error] event, not
    [end]; the relay passes it to the stream, which gets that one [error]
    and neither [page] nor, for all its [pageError] listener, [pageError]. *)
Lemma refused_page_is_a_bare_error :
  find_paged refused = None
  /\ Client.trace
       (Client.state_of
          (Client.onMessage 0 1 paged_scope (ResultMessage refused)
             (TimeoutClaims.connected_client 0 None)))
     = [Client.ClientEvent "resultError" [Client.CErr (Client.getError refused)];
        Client.EmitterEvent 7 "error" (Client.CErr (Client.getError refused))]
  /\ List.length (listeners "pageError" (emitter flowing)) = 1%nat
  /\ emitted (emitter (state_of (relay "error" [AError (Client.getError refused)] flowing)))
     = [{| ename := "error"; eargs := [AError (Client.getError refused)] |}]
  /\ requested (state_of (relay "error" [AError (Client.getError refused)] flowing)) = 1%nat.
Proof. repeat split. Qed.

End PagedSearch.
